(** * AICoolEcommece: transport services and cache-synchronisation hooks

    A shallow embedding of the HTTP transport modules (src/services and the
    unnamed service parts) and of the react-query mutation hooks (src/hooks),
    with the properties of the retry policy, the error normalisation, the
    bearer-token handling and the optimistic-update protocol.

    Conventions.
    - A module-level [let token] of a service is a cell of the store
      [vars], indexed by the service that declares it.
    - The network is an oracle [Network]: the reply to the [n]-th request
      put on the wire.  Every request that leaves an axios instance is
      appended to [wire], together with the headers the request
      interceptor produced, so the number of attempts of a call is the
      growth of [wire].
    - An [async] function is a state transformer over [World] that returns,
      throws, or runs out of recursion budget ([Stuck]); a self-calling
      function is entered with the budget its retry ceiling leaves, and the
      statements below give the result it settles with.
    - The query client is modelled as the hooks use it: exact keys for
      [getQueryData] and [setQueryData], prefix filters for the plural
      operations, [invalidateQueries] and [cancelQueries].  A query that
      is being fetched remembers the state its fetch started from, and
      [cancelQueries] puts it back to that state.
    - The body of an error response is whatever the server sent: a
      problem-details object or a text.
    - Counts that the code increments are JavaScript numbers: the sum is
      rounded to the nearest double. *)

From stdpp Require Import gmap strings list fin_maps pretty.

Open Scope Z_scope.

(** ** Values thrown and returned *)

(** [ProblemDetails] of the services (RFC 7807 shape, every field optional). *)
Record ProblemDetails := mkProblem {
  pd_type : option string;
  pd_title : option string;
  pd_status : option Z;
  pd_detail : option string;
  pd_instance : option string
}.

(** A response body as a [catch] clause reads it off
    [error.response.data]: an object, read as [ProblemDetails] (every
    field is optional), or anything else that was sent, such as the text
    or HTML page of a proxy, kept as text. *)
Inductive Body :=
| ProblemBody (pd : ProblemDetails)
| TextBody (s : string).

(** [error.response] of an axios error: the status and the parsed body;
    [None] is an absent body ([undefined] or [null]). *)
Record ErrorResponse := mkErrorResponse {
  status : Z;
  data : option Body
}.

(** An [AxiosError]: [response] is absent for network errors and timeouts. *)
Record AxiosError := mkAxiosError {
  response : option ErrorResponse;
  message : string
}.

(** What a [catch] clause can receive. *)
Inductive Thrown :=
| AxiosErr (e : AxiosError)
| Problem (pd : ProblemDetails)
| Text (s : string)
| Undefined.

(** [throw error.response.data]: the body itself is the thrown value. *)
Definition thrown_of (b : Body) : Thrown :=
  match b with
  | ProblemBody pd => Problem pd
  | TextBody s => Text s
  end.

(** Body of a successful response.  [token] is the [token] field of a
    [TokenResponse]; [x_total_count] is the numeric value of the response
    header of that name, when it parses as a number. *)
Record Payload := mkPayload {
  token : option string;
  content : string
}.

Record Response := mkResponse {
  rdata : option Payload;
  x_total_count : option Z
}.

Inductive Method := GET | POST | PUT.

(** Query parameters of the list endpoints. *)
Record Params := mkParams {
  page : option Z;
  pageSize : option Z
}.

Record Request := mkRequest {
  method : Method;
  url : string;
  params : option Params;
  body : option string;
  headers : gmap string string
}.

Inductive Reply :=
| Resolved (r : Response)
| Rejected (e : AxiosError).

Definition Network := nat → Request → Reply.

(** ** Process state *)

Inductive Service :=
| AuthApi            (* authApiService: identity token *)
| AuthorizeClient    (* authorizeClientService *)
| Countries          (* countriesService *)
| Invoices           (* invoicesService *)
| Subscriptions      (* subscriptionsService *)
| Payment            (* paymentService *)
| PaymentMethods.    (* paymentMethodsService *)

#[global] Instance Service_eq_dec : EqDecision Service.
Proof. solve_decision. Defined.

Definition Service_to_nat (s : Service) : nat :=
  match s with
  | AuthApi => 0 | AuthorizeClient => 1 | Countries => 2 | Invoices => 3
  | Subscriptions => 4 | Payment => 5 | PaymentMethods => 6
  end%nat.

Definition Service_of_nat (n : nat) : option Service :=
  match n with
  | 0 => Some AuthApi | 1 => Some AuthorizeClient | 2 => Some Countries
  | 3 => Some Invoices | 4 => Some Subscriptions | 5 => Some Payment
  | 6 => Some PaymentMethods | _ => None
  end%nat.

#[global] Instance Service_countable : Countable Service.
Proof.
  apply (inj_countable Service_to_nat Service_of_nat).
  by intros [].
Defined.

Record World := mkWorld {
  vars : gmap Service string;          (* module-level token variables *)
  localStorage : gmap string string;   (* window.localStorage *)
  location_href : string;              (* window.location.href *)
  wire : list Request;                 (* requests sent, oldest first *)
  timers : list Z                      (* delays awaited, in ms *)
}.

Definition set_vars (f : gmap Service string → gmap Service string) (w : World) : World :=
  mkWorld (f (vars w)) (localStorage w) (location_href w) (wire w) (timers w).

Definition set_location_href (h : string) (w : World) : World :=
  mkWorld (vars w) (localStorage w) h (wire w) (timers w).

Definition push_wire (r : Request) (w : World) : World :=
  mkWorld (vars w) (localStorage w) (location_href w) (wire w ++ [r]) (timers w).

Definition push_timer (ms : Z) (w : World) : World :=
  mkWorld (vars w) (localStorage w) (location_href w) (wire w) (timers w ++ [ms]).

(** ** Async computations *)

Inductive Completion (A : Type) :=
| Returned (a : A)
| Threw (e : Thrown)
| Stuck.
Arguments Returned {A} a.
Arguments Threw {A} e.
Arguments Stuck {A}.

Definition Async (A : Type) : Type := World → Completion A * World.

Definition ret {A} (a : A) : Async A := λ w, (Returned a, w).
Definition throw {A} (e : Thrown) : Async A := λ w, (Threw e, w).
Definition stuck {A} : Async A := λ w, (Stuck, w).

Definition bind {A B} (m : Async A) (k : A → Async B) : Async B :=
  λ w, match m w with
       | (Returned a, w') => k a w'
       | (Threw e, w') => (Threw e, w')
       | (Stuck, w') => (Stuck, w')
       end.

(** [try { m } catch (e) { h e }] *)
Definition try_catch {A} (m : Async A) (h : Thrown → Async A) : Async A :=
  λ w, match m w with
       | (Threw e, w') => h e w'
       | r => r
       end.

Notation "'let*' x := m 'in' k" := (bind m (λ x, k))
  (at level 10, x name, m at level 100, k at level 200, only parsing).
Notation "m ;;; k" := (bind m (λ _, k))
  (at level 100, k at level 200, right associativity, only parsing).

(** [await new Promise(res => setTimeout(res, ms))] *)
Definition delay (ms : Z) : Async unit := λ w, (Returned tt, push_timer ms w).

(** JavaScript truthiness of a [string | null]. *)
Definition truthy (o : option string) : option string :=
  match o with
  | Some s => if decide (s = "") then None else Some s
  | None => None
  end.

Definition bearer (t : string) : string := "Bearer " +:+ t.

Definition isAxiosError (e : Thrown) : bool :=
  match e with AxiosErr _ => true | _ => false end.

(** [!error.response || error.response.status >= 500] *)
Definition no_response_or_5xx (o : option ErrorResponse) : bool :=
  match o with
  | None => true
  | Some r => bool_decide (500 ≤ status r)
  end.

(** Attempts made between two worlds. *)
Definition attempts (w w' : World) : nat := (length (wire w') - length (wire w))%nat.

(** [error.response] read off a caught value: an axios error carries one,
    a [ProblemDetails] object or a text has no such property.  (No function
    of the services throws [undefined] into a [catch] that reads it.) *)
Definition response_of (e : Thrown) : option ErrorResponse :=
  match e with
  | AxiosErr a => response a
  | _ => None
  end.

(** JavaScript truthiness of a body: an object is truthy, the empty text
    is not. *)
Definition truthy_body (o : option Body) : option Body :=
  match o with
  | Some (TextBody s) => if decide (s = "") then None else o
  | _ => o
  end.

(** [error.response && error.response.data] *)
Definition response_data (e : Thrown) : option Body :=
  match response_of e with
  | Some r => truthy_body (data r)
  | None => None
  end.

Definition set_header (k v : string) (config : Request) : Request :=
  mkRequest (method config) (url config) (params config) (body config)
            (<[k := v]> (headers config)).

(** One request through an axios instance: the request interceptor builds
    the final config, the request goes on the wire, and a rejection runs
    the response interceptor's error handler before it propagates. *)
Definition axios_request (net : Network)
    (onRequest : World → Request → Request)
    (onRejected : AxiosError → World → World)
    (config : Request) : Async Response :=
  λ w, let config' := onRequest w config in
       let w1 := push_wire config' w in
       match net (length (wire w)) config' with
       | Resolved r => (Returned r, w1)
       | Rejected e => (Threw (AxiosErr e), onRejected e w1)
       end.

(** Interceptor shared by the services that keep the token in a module
    variable: [if (token) config.headers['Authorization'] = `Bearer ${token}`]. *)
Definition attach_module_token (s : Service) (w : World) (config : Request) : Request :=
  match truthy (vars w !! s) with
  | Some t => set_header "Authorization" (bearer t) config
  | None => config
  end.

Definition attach_stored_token (key : string) (w : World) (config : Request) : Request :=
  match truthy (localStorage w !! key) with
  | Some t => set_header "Authorization" (bearer t) config
  | None => config
  end.

(** ** src/services/paymentService.ts *)
Module paymentService.

Definition apiBaseUrl : string := "/api/payment".
Definition MAX_RETRIES : nat := 2.
Definition RETRY_DELAY : Z := 800.

Definition onRequest : World → Request → Request :=
  attach_stored_token "access_token".

Definition onRejected (error : AxiosError) (w : World) : World :=
  match response error with
  | Some r => if decide (status r = 401) then set_location_href "/login" w else w
  | None => w
  end.

Definition post (net : Network) (path : string) (data : string) : Async Response :=
  axios_request net onRequest onRejected
    (mkRequest POST (apiBaseUrl +:+ path) None (Some data) ∅).

(** [postPayment(data, retries)]; [budget] bounds the depth of the
    self-call. *)
Fixpoint postPayment_from (net : Network) (budget : nat) (data : string)
    (retries : nat) : Async (option Payload) :=
  try_catch
    (let* response := post net "/" data in ret (rdata response))
    (λ error,
       if bool_decide (retries < MAX_RETRIES)%nat && isAxiosError error
            && no_response_or_5xx (response_of error)
       then
         match budget with
         | O => stuck
         | S budget' =>
             delay (RETRY_DELAY * (Z.of_nat retries + 1)) ;;;
             postPayment_from net budget' data (retries + 1)
         end
       else if isAxiosError error then
         match response_data error with
         | Some problem => throw (thrown_of problem)
         | None => throw error
         end
       else throw error).

Definition postPayment (net : Network) (data : string) (retries : nat)
    : Async (option Payload) :=
  postPayment_from net (MAX_RETRIES - retries) data retries.

End paymentService.

(** ** src/services/invoiceService.ts *)
Module invoicesService.

Definition BASE_URL : string := "/api/invoices".
Definition MAX_RETRIES : nat := 2.

Definition onRequest : World → Request → Request := attach_module_token Invoices.

Definition setAuthToken (t : string) (w : World) : World :=
  set_vars (<[Invoices := t]>) w.

Definition get (net : Network) (path : string) (p : option Params) : Async Response :=
  axios_request net onRequest (λ _ w, w)
    (mkRequest GET (BASE_URL +:+ path) p None ∅).

(** The [for (attempt = 0; attempt <= retries; attempt++)] loop of
    [retryRequest], entered at [attempt]. *)
Fixpoint retryRequest_loop {T} (budget : nat) (fn : Async T) (retries : nat)
    (attempt : nat) (lastError : Thrown) : Async T :=
  if bool_decide (attempt ≤ retries)%nat then
    match budget with
    | O => stuck
    | S budget' =>
        try_catch fn
          (λ error,
             if bool_decide (attempt = retries)
                || match response_of error with
                   | Some r => bool_decide (status r < 500)
                   | None => false
                   end
             then throw error
             else
               delay (500 * (Z.of_nat attempt + 1)) ;;;
               retryRequest_loop budget' fn retries (attempt + 1) error)
    end
  else throw lastError.

Definition retryRequest {T} (fn : Async T) (retries : nat) : Async T :=
  retryRequest_loop (S retries) fn retries 0 Undefined.

(** The closure handed to [retryRequest] by [getInvoices]. *)
Definition getInvoices_fn (net : Network) (p : Params) : Async (option Payload) :=
  try_catch
    (let* r := get net "" (Some p) in ret (rdata r))
    (λ error,
       match response_data error with
       | Some problem => throw (thrown_of problem)
       | None => throw error
       end).

Definition getInvoices (net : Network) (p : Params) : Async (option Payload) :=
  retryRequest (getInvoices_fn net p) MAX_RETRIES.

End invoicesService.

(** ** subscriptionsService (src/unnamed/part_001) *)
Module subscriptionsService.

Definition BASE_URL : string := "/api/subscriptions".
Definition MAX_RETRIES : nat := 3.

Definition onRequest : World → Request → Request :=
  attach_module_token Subscriptions.

Definition setAccessToken (t : string) (w : World) : World :=
  set_vars (<[Subscriptions := t]>) w.

Definition get (net : Network) (u : string) (p : option Params) : Async Response :=
  axios_request net onRequest (λ _ w, w) (mkRequest GET u p None ∅).

Definition post (net : Network) (u : string) (data : string) : Async Response :=
  axios_request net onRequest (λ _ w, w) (mkRequest POST u None (Some data) ∅).

(** The [for (attempt = 0; attempt < retries; attempt++)] loop. *)
Fixpoint retryRequest_loop (budget : nat) (fn : Async Response) (retries : nat)
    (attempt : nat) (lastError : Thrown) : Async (option Payload) :=
  if bool_decide (attempt < retries)%nat then
    match budget with
    | O => stuck
    | S budget' =>
        try_catch
          (let* response := fn in ret (rdata response))
          (λ error,
             if no_response_or_5xx (response_of error) then
               delay (500 * (Z.of_nat attempt + 1)) ;;;
               retryRequest_loop budget' fn retries (attempt + 1) error
             else throw error)
    end
  else throw lastError.

Definition retryRequest (fn : Async Response) (retries : nat)
    : Async (option Payload) :=
  retryRequest_loop retries fn retries 0 Undefined.

Definition getSubscriptions (net : Network) (p : option Params)
    : Async (option Payload) :=
  retryRequest (get net BASE_URL p) MAX_RETRIES.

Definition createSubscription (net : Network) (data : string)
    : Async (option Payload) :=
  retryRequest (post net BASE_URL data) MAX_RETRIES.

End subscriptionsService.

(** ** authApiService (src/unnamed/part_003) *)
Module authApiService.

Definition BASE_URL : string := "/api/authenticate/customer/identity".
Definition MAX_RETRIES : nat := 3.

Definition onRequest : World → Request → Request := attach_module_token AuthApi.

Definition onRejected (error : AxiosError) (w : World) : World :=
  match response error with
  | Some r => if decide (status r = 401) then set_vars (delete AuthApi) w else w
  | None => w
  end.

Definition setAuthToken (t : string) (w : World) : World :=
  set_vars (<[AuthApi := t]>) w.

Definition post (net : Network) (u : string) (data : string) : Async Response :=
  axios_request net onRequest onRejected (mkRequest POST u None (Some data) ∅).

Fixpoint postIdentityToken_from (net : Network) (budget : nat) (data : string)
    (retries : nat) : Async (option Payload) :=
  try_catch
    (let* response := post net BASE_URL data in
     match truthy (rdata response ≫= token) with
     | Some t => λ w, (Returned (rdata response), setAuthToken t w)
     | None => ret (rdata response)
     end)
    (λ error,
       if bool_decide (retries < MAX_RETRIES)%nat && isAxiosError error
            && no_response_or_5xx (response_of error)
       then
         match budget with
         | O => stuck
         | S budget' => postIdentityToken_from net budget' data (retries + 1)
         end
       else if isAxiosError error then
         match response_data error with
         | Some problem => throw (thrown_of problem)
         | None => throw error
         end
       else throw error).

Definition postIdentityToken (net : Network) (data : string) (retries : nat)
    : Async (option Payload) :=
  postIdentityToken_from net (MAX_RETRIES - retries) data retries.

End authApiService.

(** ** src/services/authorizeService.ts *)
Module authorizeClientService.

Definition BASE_URL : string := "/api/authorize/client".
Definition MAX_RETRIES : nat := 3.
Definition RETRY_DELAY : Z := 500.

Definition onRequest : World → Request → Request :=
  attach_module_token AuthorizeClient.

Definition onRejected (error : AxiosError) (w : World) : World :=
  match response error with
  | Some r =>
      if decide (status r = 401) then set_vars (delete AuthorizeClient) w else w
  | None => w
  end.

Definition setAccessToken (t : string) (w : World) : World :=
  set_vars (<[AuthorizeClient := t]>) w.

Definition post (net : Network) (u : string) (data : string) : Async Response :=
  axios_request net onRequest onRejected (mkRequest POST u None (Some data) ∅).

(** The [for (i = 0; i < retries; i++)] loop. *)
Fixpoint retryRequest_loop {T} (budget : nat) (fn : Async T) (retries : nat)
    (i : nat) (lastError : Thrown) : Async T :=
  if bool_decide (i < retries)%nat then
    match budget with
    | O => stuck
    | S budget' =>
        try_catch fn
          (λ err,
             (if bool_decide (Z.of_nat i < Z.of_nat retries - 1)
              then delay RETRY_DELAY else ret tt) ;;;
             retryRequest_loop budget' fn retries (i + 1) err)
    end
  else throw lastError.

Definition retryRequest {T} (fn : Async T) (retries : nat) : Async T :=
  retryRequest_loop retries fn retries 0 Undefined.

Definition postAuthorizeClient_fn (net : Network) (data : string)
    : Async (option Payload) :=
  try_catch
    (let* response := post net BASE_URL data in ret (rdata response))
    (λ error,
       if isAxiosError error then
         match response_data error with
         | Some problem => throw (thrown_of problem)
         | None => throw error
         end
       else throw error).

Definition postAuthorizeClient (net : Network) (data : string)
    : Async (option Payload) :=
  retryRequest (postAuthorizeClient_fn net data) MAX_RETRIES.

End authorizeClientService.

(** ** src/services/countrieService.ts *)
Module countriesService.

Definition BASE_URL : string := "/api/countries".
Definition MAX_RETRIES : nat := 3.
Definition RETRY_DELAY : Z := 500.

Definition setAccessToken (t : string) (w : World) : World :=
  set_vars (<[Countries := t]>) w.

Definition onRequest : World → Request → Request :=
  attach_module_token Countries.

(** The 401 branch of the response interceptor is empty. *)
Definition onRejected (error : AxiosError) (w : World) : World :=
  match response error with
  | Some r => if decide (status r = 401) then w else w
  | None => w
  end.

Definition get (net : Network) (u : string) (p : option Params) : Async Response :=
  axios_request net onRequest onRejected (mkRequest GET u p None ∅).

Fixpoint retryRequest_loop (budget : nat) (fn : Async Response) (retries : nat)
    (attempt : nat) (lastError : Thrown) : Async Response :=
  if bool_decide (attempt < retries)%nat then
    match budget with
    | O => stuck
    | S budget' =>
        try_catch fn
          (λ err,
             (if bool_decide (Z.of_nat attempt < Z.of_nat retries - 1)
              then delay RETRY_DELAY else ret tt) ;;;
             retryRequest_loop budget' fn retries (attempt + 1) err)
    end
  else throw lastError.

Definition retryRequest (fn : Async Response) (retries : nat) : Async Response :=
  retryRequest_loop retries fn retries 0 Undefined.

Record GetCountriesResult := mkGetCountriesResult {
  gc_data : option Payload;      (* [None] stands for the empty list *)
  gc_total : option Z;
  gc_page : option Z;
  gc_pageSize : option Z;
  gc_error : option Body
}.

Definition getCountries (net : Network) (p : option Params)
    : Async GetCountriesResult :=
  try_catch
    (let* response := retryRequest (get net BASE_URL p) MAX_RETRIES in
     let total := match x_total_count response with
                  | Some n => if decide (n = 0) then None else Some n
                  | None => None
                  end in
     ret (mkGetCountriesResult (rdata response) total
            (p ≫= page) (p ≫= pageSize) None))
    (λ error,
       let problem := match response_data error with
                      | Some d => d
                      | None => ProblemBody (mkProblem None None None None None)
                      end in
       ret (mkGetCountriesResult None None None None (Some problem))).

End countriesService.

(** ** src/services/payment-methodService.ts *)
Module paymentMethodsService.

Definition MAX_RETRIES : nat := 3.

Definition onRequest : World → Request → Request :=
  attach_stored_token "access_token".

Definition get (net : Network) (path : string) (p : option Params) : Async Response :=
  axios_request net onRequest (λ _ w, w)
    (mkRequest GET ("/api" +:+ path) p None ∅).

(** [error.message || 'An unknown error occurred'] *)
Definition message_or_default (e : Thrown) : string :=
  match e with
  | AxiosErr a => if decide (message a = "") then "An unknown error occurred"
                  else message a
  | _ => "An unknown error occurred"
  end.

Definition unknown_error (e : Thrown) : ProblemDetails :=
  mkProblem None (Some "Unknown error") (Some 500)
            (Some (message_or_default e)) None.

Fixpoint getPaymentMethods_from (net : Network) (budget : nat)
    (p : option Params) (retryCount : nat) : Async (option Payload) :=
  try_catch
    (let* res := get net "/payment-methods" p in ret (rdata res))
    (λ error,
       if bool_decide (retryCount < MAX_RETRIES)%nat then
         match budget with
         | O => stuck
         | S budget' => getPaymentMethods_from net budget' p (retryCount + 1)
         end
       else
         match response_data error with
         | Some problem => throw (thrown_of problem)
         | None => throw (Problem (unknown_error error))
         end).

Definition getPaymentMethods (net : Network) (p : option Params)
    (retryCount : nat) : Async (option Payload) :=
  getPaymentMethods_from net (MAX_RETRIES - retryCount) p retryCount.

End paymentMethodsService.

(** ** src/services/recurring-payment-methodService.ts *)
Module recurringPaymentMethodService.

Definition BASE_URL : string := "/api/recurring-payment-method".
Definition MAX_RETRIES : nat := 2.

(** The module keeps its token in its own variable; the store cell used
    for it is the one of [PaymentMethods], which no other modelled service
    reads (paymentMethodsService reads [localStorage]). *)
Definition setAuthToken (t : string) (w : World) : World :=
  set_vars (<[PaymentMethods := t]>) w.

Definition onRequest : World → Request → Request :=
  attach_module_token PaymentMethods.

(** [api.put(BASE_URL, data, config)]; of the caller's [config] the
    headers are kept. *)
Definition put (net : Network) (u : string) (data : string)
    (config : gmap string string) : Async Response :=
  axios_request net onRequest (λ _ w, w) (mkRequest PUT u None (Some data) config).

(** The [for (attempt = 0; attempt <= retries; attempt++)] loop: a
    retryable failure [continue]s while [attempt < retries], anything else
    [break]s to the final [throw lastError]. *)
Fixpoint retryRequest_loop {T} (budget : nat) (fn : Async T) (retries : nat)
    (attempt : nat) (lastError : Thrown) : Async T :=
  if bool_decide (attempt ≤ retries)%nat then
    match budget with
    | O => stuck
    | S budget' =>
        try_catch fn
          (λ err,
             if isAxiosError err && no_response_or_5xx (response_of err)
                && bool_decide (attempt < retries)%nat
             then retryRequest_loop budget' fn retries (attempt + 1) err
             else throw err)
    end
  else throw lastError.

Definition retryRequest {T} (fn : Async T) (retries : nat) : Async T :=
  retryRequest_loop (S retries) fn retries 0 Undefined.

Definition putRecurringPaymentMethod (net : Network) (data : string)
    (config : gmap string string) : Async unit :=
  retryRequest (let* _r := put net BASE_URL data config in ret tt) MAX_RETRIES.

End recurringPaymentMethodService.

(** ** customersService (src/unnamed/part_000) *)
Module customersService.

Definition BASE_URL : string := "/api/customers".
Definition MAX_RETRIES : nat := 3.
Definition RETRY_DELAY : Z := 500.

Definition onRequest : World → Request → Request :=
  attach_stored_token "authToken".

Definition request (net : Network) (m : Method) (path : string)
    (p : option Params) (data : option string) : Async Response :=
  axios_request net onRequest (λ _ w, w)
    (mkRequest m (BASE_URL +:+ path) p data ∅).

(** The [for (attempt = 0; attempt < retries; attempt++)] loop; it falls
    through to the code after the loop once the attempts are used up. *)
Fixpoint retryRequest_loop (budget : nat) (fn : Async Response) (retries : nat)
    (attempt : nat) (lastError : Thrown) : Async (option Payload) :=
  if bool_decide (attempt < retries)%nat then
    match budget with
    | O => stuck
    | S budget' =>
        try_catch
          (let* response := fn in ret (rdata response))
          (λ error,
             (if bool_decide (Z.of_nat attempt < Z.of_nat retries - 1)
              then delay RETRY_DELAY else ret tt) ;;;
             retryRequest_loop budget' fn retries (attempt + 1) error)
    end
  else
    match response_data lastError with
    | Some problem => throw (thrown_of problem)
    | None => throw lastError
    end.

Definition retryRequest (fn : Async Response) (retries : nat)
    : Async (option Payload) :=
  retryRequest_loop retries fn retries 0 Undefined.

Definition getCustomers (net : Network) (p : option Params) : Async (option Payload) :=
  retryRequest (request net GET "" p None) MAX_RETRIES.

Definition postCustomer (net : Network) (data : string) : Async (option Payload) :=
  retryRequest (request net POST "" None (Some data)) MAX_RETRIES.

(** [encoded] is [encodeURIComponent(accountId)]. *)
Definition putCustomer (net : Network) (encoded : string) (data : string)
    : Async (option Payload) :=
  retryRequest (request net PUT ("/" +:+ encoded) None (Some data)) MAX_RETRIES.

End customersService.

(** ** The query cache (@tanstack/react-query, as the hooks use it) *)

(** An element of a query key: a string, a parameter object, or
    [undefined].  Keys are compared by their hash, in which an absent
    property and an [undefined] one coincide, as they do in [Params]. *)
Inductive KeyPart :=
| KStr (s : string)
| KObj (p : Params)
| KUndefined.

Definition QueryKey := list KeyPart.

#[global] Instance Params_eq_dec : EqDecision Params.
Proof. solve_decision. Defined.

#[global] Instance KeyPart_eq_dec : EqDecision KeyPart.
Proof. solve_decision. Defined.

Definition KeyPart_encode (k : KeyPart) : string + (option Z * option Z) + unit :=
  match k with
  | KStr s => inl (inl s)
  | KObj p => inl (inr (page p, pageSize p))
  | KUndefined => inr tt
  end.

Definition KeyPart_decode (x : string + (option Z * option Z) + unit) : KeyPart :=
  match x with
  | inl (inl s) => KStr s
  | inl (inr (a, b)) => KObj (mkParams a b)
  | inr _ => KUndefined
  end.

#[global] Instance KeyPart_countable : Countable KeyPart.
Proof.
  apply (inj_countable' KeyPart_encode KeyPart_decode).
  by intros [s|[]|].
Defined.

(** [partialDeepEqual(a, b)] on key elements: every property present in
    the filter element [b] has the same value in [a]. *)
Definition partialDeepEqual (a b : KeyPart) : bool :=
  match a, b with
  | KStr x, KStr y => bool_decide (x = y)
  | KObj pa, KObj pb =>
      match page pb with Some v => bool_decide (page pa = Some v) | None => true end
      && match pageSize pb with Some v => bool_decide (pageSize pa = Some v) | None => true end
  | KUndefined, KUndefined => true
  | _, _ => false
  end.

(** [partialMatchKey(queryKey, filterKey)]: the filter is matched
    index by index; an index past the end of [queryKey] reads [undefined]. *)
Fixpoint partialMatchKey (queryKey filterKey : QueryKey) : bool :=
  match filterKey, queryKey with
  | [], _ => true
  | b :: f, a :: k => partialDeepEqual a b && partialMatchKey k f
  | b :: f, [] => partialDeepEqual KUndefined b && partialMatchKey [] f
  end.

(** Cached payloads, typed as the hooks type them. *)
Record Address := mkAddress {
  street : string;
  city : string;
  state : option string;
  postalCode : string;
  country : string
}.

Record GetCustomerResponse := mkCustomer {
  accountNumber : string;
  firstName : string;
  lastName : string;
  email : string;
  currency : string;
  phoneNumber : string;
  addresses : list Address;
  additionalEmails : list string;
  accountId : string
}.

Record PersonalInfo := mkPersonalInfo {
  pi_firstName : string;
  pi_lastName : string
}.

Record ContactInfo := mkContactInfo {
  ci_email : string;
  ci_phone : option string
}.

Record PostCustomerRequest := mkPostCustomerRequest {
  pc_currency : string;
  personalInfo : option PersonalInfo;
  contactInfo : option ContactInfo;
  pc_addresses : list Address
}.

Record CreditCardInfo := mkCreditCardInfo {
  cc_id : string;
  expirationMonth : string;
  cardNumber : string;
  expirationYear : string;
  cardType : string;
  cardHolderName : string
}.

Record GetPaymentMethodResponse := mkPaymentMethod {
  id : string;
  isDefault : bool;
  paymentMethodType : string;
  creditCardData : option CreditCardInfo
}.

Record SubscriptionEntry := mkSubscriptionEntry {
  products : list string;
  promoCode : option string;
  fields : gmap string string
}.

(** JavaScript numbers that hold integers ([total], a count) are IEEE 754
    doubles: every integer below [2^53] in magnitude is one, above it only
    the multiples of a power of two are.  [round_double z] is the double
    nearest to the integer [z], ties going to the even significand. *)
Definition round_double (z : Z) : Z :=
  let a := Z.abs z in
  if bool_decide (a < 2 ^ 53) then z
  else
    let ulp := 2 ^ (Z.log2 a - 52) in
    let q := a `div` ulp in
    let r := a `mod` ulp in
    let q' := if bool_decide (2 * r < ulp) then q
              else if bool_decide (ulp < 2 * r) then q + 1
              else if Z.even q then q else q + 1 in
    Z.sgn z * (q' * ulp).

(** [a + b] on two such numbers: the exact sum, rounded.  (Adding one to
    a count never leaves the range of the doubles.) *)
Definition js_add (a b : Z) : Z := round_double (a + b).

(** [{ entries, total, page, pageSize }] *)
Record Page (A : Type) := mkPage {
  entries : list A;
  total : Z;
  pg_page : Z;
  pg_pageSize : Z
}.
Arguments mkPage {A} _ _ _ _.
Arguments entries {A} _.
Arguments total {A} _.
Arguments pg_page {A} _.
Arguments pg_pageSize {A} _.

Inductive Data :=
| Customers (p : Page GetCustomerResponse)
| PaymentMethodsPage (p : Page GetPaymentMethodResponse)
| SubscriptionsPage (p : Page SubscriptionEntry)
| Raw (raw : string).

(** State of one query: its data ([None] is [undefined]) and whether it is
    marked for refetch; and, while a fetch of the query is in flight, the
    data and the mark the query had when that fetch started (the
    [revertState] the query keeps for it). *)
Record Query := mkQuery {
  qdata : option Data;
  isInvalidated : bool;
  inFlight : option (option Data * bool)
}.

(** Callbacks of the caller ([options]) that a hook invokes. *)
Inductive Callback :=
| OptimisticUpdate
| Rollback
| OnError (e : Thrown)
| OnSuccess.

Record Client := mkClient {
  cache : gmap QueryKey Query;
  called : list Callback
}.

Definition with_cache (f : gmap QueryKey Query → gmap QueryKey Query)
    (cl : Client) : Client :=
  mkClient (f (cache cl)) (called cl).

Definition call (cb : Callback) (cl : Client) : Client :=
  mkClient (cache cl) (called cl ++ [cb]).

(** [queryClient.getQueryData(key)]: exact key. *)
Definition getQueryData (k : QueryKey) (c : gmap QueryKey Query) : option Data :=
  c !! k ≫= qdata.

(** [queryClient.setQueryData(key, value)]: [undefined] leaves the cache
    alone; a value is stored (the query is created when absent) and the
    query is no longer marked invalidated.  A fetch in flight goes on, and
    what it would revert to is not touched by the write. *)
Definition setQueryData (k : QueryKey) (v : option Data)
    (c : gmap QueryKey Query) : gmap QueryKey Query :=
  match v with
  | None => c
  | Some d =>
      <[k := mkQuery (Some d) false
               (match c !! k with Some q => inFlight q | None => None end)]> c
  end.

(** [setQueryData(key, updater)] with a function. *)
Definition updateQueryData (k : QueryKey) (updater : option Data → option Data)
    (c : gmap QueryKey Query) : gmap QueryKey Query :=
  setQueryData k (updater (getQueryData k c)) c.

(** Queries selected by [{ queryKey: filter }]. *)
Definition findAll (filterKey : QueryKey) (c : gmap QueryKey Query)
    : list (QueryKey * Query) :=
  filter (λ kq, partialMatchKey kq.1 filterKey = true) (map_to_list c).

(** [queryClient.getQueriesData(filter)]: the [key, data] pairs. *)
Definition getQueriesData (filterKey : QueryKey) (c : gmap QueryKey Query)
    : list (QueryKey * option Data) :=
  (λ kq, (kq.1, qdata kq.2)) <$> findAll filterKey c.

(** [queryClient.setQueriesData(filter, updater)]: [setQueryData(key,
    updater)] for every selected query.  The updater is run once per
    selected query; it is indexed by the key of the query it runs for, so
    that an updater that draws a value of its own in each run (a random
    id) can be written. *)
Definition setQueriesData (filterKey : QueryKey)
    (updater : QueryKey → option Data → option Data)
    (c : gmap QueryKey Query) : gmap QueryKey Query :=
  foldr (λ kq acc, updateQueryData kq.1 (updater kq.1) acc) c (findAll filterKey c).

(** [queryClient.invalidateQueries({ queryKey: filter })]: the selected
    queries are marked for refetch.  (The refetch itself is started by
    the observers of a query, which are not part of the model.) *)
Definition invalidateQueries (filterKey : QueryKey)
    (c : gmap QueryKey Query) : gmap QueryKey Query :=
  map_imap (λ k q, Some (if partialMatchKey k filterKey
                          then mkQuery (qdata q) true (inFlight q) else q)) c.

(** [query.fetch()] on a cached query: the state is recorded as the one to
    revert to and the fetch is in flight; a query that is already being
    fetched goes on with the fetch it has. *)
Definition fetch (k : QueryKey) (c : gmap QueryKey Query) : gmap QueryKey Query :=
  match c !! k with
  | Some q =>
      match inFlight q with
      | None => <[k := mkQuery (qdata q) (isInvalidated q)
                          (Some (qdata q, isInvalidated q))]> c
      | Some _ => c
      end
  | None => c
  end.

(** [queryClient.cancelQueries({ queryKey: filter })].  The hooks pass no
    cancel options, so [revert] takes its default, [true]: a selected
    query whose fetch is in flight is put back to the state it had when
    the fetch started, which discards what [setQueryData] wrote into it
    since; a selected query that is not being fetched is left as it is. *)
Definition cancelQueries (filterKey : QueryKey)
    (c : gmap QueryKey Query) : gmap QueryKey Query :=
  map_imap (λ k q, Some (if partialMatchKey k filterKey
                          then match inFlight q with
                               | Some (d, i) => mkQuery d i None
                               | None => q
                               end
                          else q)) c.

(** Handlers of a mutation, and the order in which a mutation runs them:
    [onMutate], the mutation function, then [onSuccess] or [onError],
    then [onSettled]. *)
Record Handlers (V C : Type) := mkHandlers {
  onMutate : V → Client → C * Client;
  onSuccess : V → C → Client → Client;
  onError : Thrown → V → C → Client → Client;
  onSettled : V → C → Client → Client
}.
Arguments mkHandlers {V C} _ _ _ _.
Arguments onMutate {V C} _ _ _.
Arguments onSuccess {V C} _ _ _ _.
Arguments onError {V C} _ _ _ _ _.
Arguments onSettled {V C} _ _ _ _.

(** Reconciliation once the mutation function has settled;
    [None] is success, [Some e] the error it threw. *)
Definition settle {V C} (h : Handlers V C) (outcome : option Thrown)
    (variables : V) (context : C) (cl : Client) : Client :=
  match outcome with
  | None => onSettled h variables context (onSuccess h variables context cl)
  | Some e => onSettled h variables context (onError h e variables context cl)
  end.

Definition mutate {V C} (h : Handlers V C) (outcome : option Thrown)
    (variables : V) (cl : Client) : Client :=
  let '(context, cl1) := onMutate h variables cl in
  settle h outcome variables context cl1.

(** Which callbacks the caller passed in [options]. *)
Record Options := mkOptions {
  has_optimisticUpdate : bool;
  has_rollback : bool;
  has_onError : bool;
  has_onSuccess : bool
}.

Definition when (b : bool) (f : Client → Client) (cl : Client) : Client :=
  if b then f cl else cl.

(** ** src/hooks/usecustomer.ts *)
Module useCustomers.

(** Key of [useCustomers(params)]. *)
Definition useCustomers_key (p : Params) : QueryKey := [KStr "customers"; KObj p].

(** Key read and written by the mutations. *)
Definition customersKey : QueryKey := [KStr "customers"].

(** The request and the two readings of [Date.now()]. *)
Record Variables := mkVariables {
  newCustomer : PostCustomerRequest;
  now_accountNumber : Z;
  now_accountId : Z
}.

(** The placeholder entry; [x?.f ?? ''] is [default "" (f <$> x)]. *)
Definition optimisticCustomer (v : Variables) : GetCustomerResponse :=
  let r := newCustomer v in
  mkCustomer
    ("optimistic-" +:+ pretty (now_accountNumber v))
    (default "" (pi_firstName <$> personalInfo r))
    (default "" (pi_lastName <$> personalInfo r))
    (default "" (ci_email <$> contactInfo r))
    (pc_currency r)
    (default "" (contactInfo r ≫= ci_phone))
    (pc_addresses r)
    []
    ("optimistic-" +:+ pretty (now_accountId v)).

Definition patch (v : Variables) (previous : Page GetCustomerResponse)
    : Page GetCustomerResponse :=
  mkPage (optimisticCustomer v :: entries previous) (js_add (total previous) 1)
         (pg_page previous) (pg_pageSize previous).

(** The key holds customers pages; another shape is left as it is. *)
Definition createCustomer_onMutate (v : Variables) (cl : Client)
    : option Data * Client :=
  let cl1 := with_cache (cancelQueries customersKey) cl in
  let previous := getQueryData customersKey (cache cl1) in
  let cl2 :=
    match previous with
    | Some (Customers p) =>
        with_cache (setQueryData customersKey (Some (Customers (patch v p)))) cl1
    | _ => cl1
    end in
  (previous, cl2).

Definition createCustomer_onError (_err : Thrown) (_v : Variables)
    (context : option Data) (cl : Client) : Client :=
  match context with
  | Some previous => with_cache (setQueryData customersKey (Some previous)) cl
  | None => cl
  end.

Definition createCustomer_onSettled (_v : Variables) (_c : option Data)
    (cl : Client) : Client :=
  with_cache (invalidateQueries customersKey) cl.

Definition useCreateCustomer (options : Options) : Handlers Variables (option Data) :=
  mkHandlers createCustomer_onMutate
    (λ _ _, when (has_onSuccess options) (call OnSuccess))
    createCustomer_onError
    createCustomer_onSettled.

(** [PutCustomerRequest], with [personalInfo] and [contactInfo] laid out
    flat. *)
Record PutCustomerRequest := mkPutCustomerRequest {
  pu_firstName : string;
  pu_lastName : string;
  pu_email : string;
  pu_phoneNumber : option string;
  pu_addresses : list Address;
  additionalEmailAddresses : option (list string)
}.

(** The entry with the updated fields; [accountNumber], [currency] and
    [accountId] come from the cached entry. *)
Definition updatedEntry (u : PutCustomerRequest) (c : GetCustomerResponse)
    : GetCustomerResponse :=
  mkCustomer (accountNumber c) (pu_firstName u) (pu_lastName u) (pu_email u)
             (currency c) (default "" (pu_phoneNumber u)) (pu_addresses u)
             (default [] (additionalEmailAddresses u)) (accountId c).

Definition update_patch (id : string) (u : PutCustomerRequest)
    (previous : Page GetCustomerResponse) : Page GetCustomerResponse :=
  mkPage ((λ c, if decide (accountId c = id) then updatedEntry u c else c)
            <$> entries previous)
         (total previous) (pg_page previous) (pg_pageSize previous).

Definition updateCustomer_onMutate (id : string) (u : PutCustomerRequest)
    (cl : Client) : option Data * Client :=
  let cl1 := with_cache (cancelQueries customersKey) cl in
  let previous := getQueryData customersKey (cache cl1) in
  let cl2 :=
    match previous with
    | Some (Customers p) =>
        with_cache (setQueryData customersKey (Some (Customers (update_patch id u p))))
                   cl1
    | _ => cl1
    end in
  (previous, cl2).

Definition updateCustomer_onError (_err : Thrown) (_u : PutCustomerRequest)
    (context : option Data) (cl : Client) : Client :=
  match context with
  | Some previous => with_cache (setQueryData customersKey (Some previous)) cl
  | None => cl
  end.

Definition useUpdateCustomer (id : string) (options : Options)
    : Handlers PutCustomerRequest (option Data) :=
  mkHandlers (updateCustomer_onMutate id)
    (λ _ _, when (has_onSuccess options) (call OnSuccess))
    updateCustomer_onError
    (λ _ _, with_cache (invalidateQueries customersKey)).

End useCustomers.

(** ** src/hooks/usepayment-method.ts *)
Module usePaymentMethods.

Definition PAYMENT_METHODS_QUERY_KEY : string := "payment-methods".

Definition filterKey : QueryKey := [KStr PAYMENT_METHODS_QUERY_KEY].

(** Key of [usePaymentMethods(params)]. *)
Definition usePaymentMethods_key (p : option Params) : QueryKey :=
  [KStr PAYMENT_METHODS_QUERY_KEY;
   match p with Some q => KObj q | None => KUndefined end].

Definition Context := list (QueryKey * option Data).

(** [type] of the request, and the values of
    [Math.random().toString(36).slice(2)]: the updater draws one each
    time it runs, [random k] being the one drawn in its run for the
    query under [k]. *)
Record CreateVariables := mkCreateVariables {
  newMethod_type : string;
  random : QueryKey → string
}.

Definition optimisticMethod (v : CreateVariables) (k : QueryKey)
    : GetPaymentMethodResponse :=
  mkPaymentMethod ("optimistic-" +:+ random v k) false (newMethod_type v) None.

(** [(old) => old ? { ...old, entries: [optimistic, ...old.entries] } : old];
    the queries under this prefix hold payment-method pages, a value of
    another shape is handed back as it is. *)
Definition create_updater (v : CreateVariables) (k : QueryKey)
    (old : option Data) : option Data :=
  match old with
  | None => None
  | Some (PaymentMethodsPage p) =>
      Some (PaymentMethodsPage
              (mkPage (optimisticMethod v k :: entries p) (total p)
                      (pg_page p) (pg_pageSize p)))
  | Some other => Some other
  end.

(** [for (const [key, value] of context.prev) setQueryData(key, value)] *)
Definition restore (prev : Context) (c : gmap QueryKey Query) : gmap QueryKey Query :=
  foldl (λ acc kv, setQueryData kv.1 kv.2 acc) c prev.

(** Body shared by the two [onMutate] handlers: cancel, snapshot with
    [getQueriesData], patch with [setQueriesData]. *)
Definition snapshot_and_patch (updater : QueryKey → option Data → option Data)
    (cl : Client) : Context * Client :=
  let cl1 := with_cache (cancelQueries filterKey) cl in
  let prev := getQueriesData filterKey (cache cl1) in
  (prev, with_cache (setQueriesData filterKey updater) cl1).

Definition useCreatePaymentMethod : Handlers CreateVariables Context :=
  mkHandlers
    (λ newMethod, snapshot_and_patch (create_updater newMethod))
    (λ _ _ cl, cl)
    (λ _err _newMethod context, with_cache (restore context))
    (λ _ _, with_cache (invalidateQueries filterKey)).

(** [entries: old.entries.filter((m) => m.id !== deleted.paymentMethodId)] *)
Definition delete_updater (paymentMethodId : string) (old : option Data)
    : option Data :=
  match old with
  | None => None
  | Some (PaymentMethodsPage p) =>
      Some (PaymentMethodsPage
              (mkPage (filter (λ m, id m ≠ paymentMethodId) (entries p))
                      (total p) (pg_page p) (pg_pageSize p)))
  | Some other => Some other
  end.

Definition useDeletePaymentMethod : Handlers string Context :=
  mkHandlers
    (λ deleted, snapshot_and_patch (λ _, delete_updater deleted))
    (λ _ _ cl, cl)
    (λ _err _deleted context, with_cache (restore context))
    (λ _ _, with_cache (invalidateQueries filterKey)).

End usePaymentMethods.

(** ** useRecurringPaymentMethod (src/unnamed/part_005) *)
Module useRecurringPaymentMethod.

Definition paymentMethodsKey : QueryKey := [KStr "payment-methods"].
Definition defaultPaymentMethodKey : QueryKey := [KStr "default-payment-method"].

Definition setDefault (paymentMethodId : string) (pm : GetPaymentMethodResponse)
    : GetPaymentMethodResponse :=
  if decide (id pm = paymentMethodId)
  then mkPaymentMethod (id pm) true (paymentMethodType pm) (creditCardData pm)
  else mkPaymentMethod (id pm) false (paymentMethodType pm) (creditCardData pm).

(** [if (!old || !old.entries) return old]; the key holds
    payment-method pages. *)
Definition updater (paymentMethodId : string) (old : option Data) : option Data :=
  match old with
  | None => None
  | Some (PaymentMethodsPage p) =>
      Some (PaymentMethodsPage
              (mkPage (setDefault paymentMethodId <$> entries p) (total p)
                      (pg_page p) (pg_pageSize p)))
  | Some other => Some other
  end.

Definition recurring_onMutate (options : Options) (paymentMethodId : string)
    (cl : Client) : option Data * Client :=
  let cl0 := when (has_optimisticUpdate options) (call OptimisticUpdate) cl in
  let cl1 := with_cache (cancelQueries paymentMethodsKey) cl0 in
  let previous := getQueryData paymentMethodsKey (cache cl1) in
  (previous,
   with_cache (updateQueryData paymentMethodsKey (updater paymentMethodId)) cl1).

Definition recurring_onError (options : Options) (error : Thrown)
    (_v : string) (context : option Data) (cl : Client) : Client :=
  let cl1 := when (has_rollback options) (call Rollback) cl in
  let cl2 := match context with
             | Some previous =>
                 with_cache (setQueryData paymentMethodsKey (Some previous)) cl1
             | None => cl1
             end in
  when (has_onError options) (call (OnError error)) cl2.

Definition recurring_onSuccess (options : Options) (_v : string)
    (_c : option Data) (cl : Client) : Client :=
  let cl1 := with_cache (invalidateQueries paymentMethodsKey) cl in
  let cl2 := with_cache (invalidateQueries defaultPaymentMethodKey) cl1 in
  when (has_onSuccess options) (call OnSuccess) cl2.

(** The hook registers no [onSettled]. *)
Definition useRecurringPaymentMethod (options : Options)
    : Handlers string (option Data) :=
  mkHandlers (recurring_onMutate options) (recurring_onSuccess options)
             (recurring_onError options) (λ _ _ cl, cl).

End useRecurringPaymentMethod.

(** ** useSubscriptions (src/hooks/usecountrie.ts, second part) *)
Module useSubscriptions.

Definition filterKey : QueryKey := [KStr "subscriptions"].
Definition listKey : QueryKey := [KStr "subscriptions"; KObj (mkParams None None)].
Definition useSubscriptions_key (p : Params) : QueryKey :=
  [KStr "subscriptions"; KObj p].

Definition createSubscription_onMutate (newSub : SubscriptionEntry) (cl : Client)
    : option Data * Client :=
  let cl1 := with_cache (cancelQueries filterKey) cl in
  let prev := getQueryData listKey (cache cl1) in
  let cl2 :=
    match prev with
    | Some (SubscriptionsPage p) =>
        with_cache
          (setQueryData listKey
             (Some (SubscriptionsPage
                      (mkPage (newSub :: entries p) (js_add (total p) 1)
                              (pg_page p) (pg_pageSize p))))) cl1
    | _ => cl1
    end in
  (prev, cl2).

Definition createSubscription_onError (_err : Thrown) (_v : SubscriptionEntry)
    (ctx : option Data) (cl : Client) : Client :=
  match ctx with
  | Some prev => with_cache (setQueryData listKey (Some prev)) cl
  | None => cl
  end.

Definition useCreateSubscription : Handlers SubscriptionEntry (option Data) :=
  mkHandlers createSubscription_onMutate (λ _ _ cl, cl)
             createSubscription_onError
             (λ _ _, with_cache (invalidateQueries filterKey)).

End useSubscriptions.

(** ** A mutation together with its transport call *)

(** [mutation.mutateAsync(variables)]: [onMutate], the mutation function,
    then the handlers for its outcome; the promise settles as the mutation
    function did.  (Mutations are not retried by the query client.) *)
Definition execute {V C A} (h : Handlers V C) (mutationFn : V → Async A)
    (variables : V) (st : World * Client) : Completion A * (World * Client) :=
  let '(context, cl1) := onMutate h variables st.2 in
  match mutationFn variables st.1 with
  | (Returned a, w') => (Returned a, (w', settle h None variables context cl1))
  | (Threw e, w') => (Threw e, (w', settle h (Some e) variables context cl1))
  | (Stuck, w') => (Stuck, (w', cl1))
  end.

(** ** The payment form (src/unnamed/part_006), which submits through
    [useCreatePaymentMethod] *)
Module paymentForm.

(** [parseInt(c, 10)] of one character; [None] is [NaN]. *)
Definition parseInt (c : Ascii.ascii) : option nat :=
  let n := Ascii.nat_of_ascii c in
  if bool_decide (48 ≤ n ≤ 57)%nat then Some (n - 48)%nat else None.

(** The body of the loop of [luhnCheck] for one character: the doubled
    digit, reduced by 9 when it exceeds 9. *)
Definition weigh (shouldDouble : bool) (digit : option nat) : option nat :=
  if shouldDouble
  then (λ d, let d2 := (d * 2)%nat in
             if bool_decide (9 < d2)%nat then (d2 - 9)%nat else d2) <$> digit
  else digit.

(** The loop [for (i = num.length - 1; i >= 0; i--)], over the
    characters from the last to the first; a [NaN] digit turns the sum
    into [NaN]. *)
Fixpoint luhn_loop (chars : list Ascii.ascii) (shouldDouble : bool) (sum : option nat)
    : option nat :=
  match chars with
  | [] => sum
  | c :: rest =>
      let digit := weigh shouldDouble (parseInt c) in
      luhn_loop rest (negb shouldDouble)
        (match sum, digit with
         | Some s, Some d => Some (s + d)%nat
         | _, _ => None
         end)
  end.

Definition luhnCheck (num : string) : bool :=
  match luhn_loop (rev (String.list_ascii_of_string num)) false (Some 0%nat) with
  | Some sum => bool_decide (sum mod 10 = 0)%nat
  | None => false
  end.

(** [/^[0-9]{lo,hi}$/.test(s)] *)
Definition digits_between (lo hi : nat) (s : string) : bool :=
  forallb (λ c, bool_decide (is_Some (parseInt c))) (String.list_ascii_of_string s)
  && bool_decide (lo ≤ String.length s ≤ hi)%nat.

(** [isCardNumberValid], on the card number with its white space
    removed. *)
Definition isCardNumberValid (stripped : string) : bool :=
  digits_between 13 19 stripped && luhnCheck stripped.

Definition isSecurityCodeValid (securityCode : string) : bool :=
  digits_between 3 4 securityCode.

(** [err?.detail || err?.title || 'Payment failed'] *)
Definition errorMessage (err : ProblemDetails) : string :=
  match truthy (pd_detail err), truthy (pd_title err) with
  | Some d, _ => d
  | None, Some t => t
  | None, None => "Payment failed"
  end.

End paymentForm.

(** ** Interleaved mutations on the payment-methods cache *)
Module paymentMethodsSession.

Inductive Mutation :=
| Create (v : usePaymentMethods.CreateVariables)
| Delete (paymentMethodId : string)
| SetDefault (options : Options) (paymentMethodId : string).

(** Context returned by [onMutate]: the list of [key, data] pairs of the
    create and delete hooks, or the single snapshot of the recurring one. *)
Inductive Snapshot :=
| Prev (prev : usePaymentMethods.Context)
| Previous (previous : option Data).

(** Every payment-methods mutation begins by cancelling the fetches
    under ['payment-methods']; [on_begin cl] is the cache that its
    [onMutate] then reads and patches. *)
Definition on_begin (cl : Client) : gmap QueryKey Query :=
  cancelQueries usePaymentMethods.filterKey (cache cl).

(** The patch of a mutation on the data of the query under [k]. *)
Definition patch_of (m : Mutation) (k : QueryKey) : option Data → option Data :=
  match m with
  | Create v => usePaymentMethods.create_updater v k
  | Delete i => usePaymentMethods.delete_updater i
  | SetDefault _ i => useRecurringPaymentMethod.updater i
  end.

Definition begin (m : Mutation) (cl : Client) : Snapshot * Client :=
  match m with
  | Create v =>
      let '(c, cl') := onMutate usePaymentMethods.useCreatePaymentMethod v cl in
      (Prev c, cl')
  | Delete i =>
      let '(c, cl') := onMutate usePaymentMethods.useDeletePaymentMethod i cl in
      (Prev c, cl')
  | SetDefault o i =>
      let '(c, cl') :=
        onMutate (useRecurringPaymentMethod.useRecurringPaymentMethod o) i cl in
      (Previous c, cl')
  end.

Definition reconcile (m : Mutation) (ctx : Snapshot) (outcome : option Thrown)
    (cl : Client) : Client :=
  match m, ctx with
  | Create v, Prev c =>
      settle usePaymentMethods.useCreatePaymentMethod outcome v c cl
  | Delete i, Prev c =>
      settle usePaymentMethods.useDeletePaymentMethod outcome i c cl
  | SetDefault o i, Previous c =>
      settle (useRecurringPaymentMethod.useRecurringPaymentMethod o) outcome i c cl
  | _, _ => cl
  end.

Record Session := mkSession {
  client : Client;
  pending : list (Mutation * Snapshot)   (* begun and not yet settled *)
}.

(** One scheduling turn: a mutation begins, or a pending one settles. *)
Inductive step : Session → Session → Prop :=
| step_begin s m :
    step s (mkSession (begin m (client s)).2
                      (pending s ++ [(m, (begin m (client s)).1)]))
| step_settle s i m ctx outcome :
    pending s !! i = Some (m, ctx) →
    step s (mkSession (reconcile m ctx outcome (client s))
                      (delete i (pending s))).

Definition visible (k : QueryKey) (s : Session) : option Data :=
  getQueryData k (cache (client s)).

(** The visible state of every entry is the confirmed snapshot, or that
    snapshot under the patch of one pending mutation. *)
Definition at_most_one_patch (confirmed : gmap QueryKey Query) (s : Session) : Prop :=
  ∀ k, visible k s = getQueryData k confirmed
       ∨ ∃ m ctx, (m, ctx) ∈ pending s
                  ∧ visible k s = patch_of m k (getQueryData k confirmed).

(** Rollback baseline recorded for key [k] in a context. *)
Definition baseline (ctx : Snapshot) (k : QueryKey) : option (option Data) :=
  match ctx with
  | Prev prev => (list_to_map prev : gmap QueryKey (option Data)) !! k
  | Previous previous =>
      if decide (k = useRecurringPaymentMethod.paymentMethodsKey)
      then Some previous else None
  end.

(** The entry under [k] is one that the patch of [m] rewrites. *)
Definition touches (m : Mutation) (k : QueryKey) (c : gmap QueryKey Query) : bool :=
  match m with
  | Create _ | Delete _ =>
      partialMatchKey k usePaymentMethods.filterKey && bool_decide (is_Some (c !! k))
  | SetDefault _ _ => bool_decide (k = useRecurringPaymentMethod.paymentMethodsKey)
  end.

(** Number of entries of a cached payment-methods page. *)
Definition size_of (d : option Data) : nat :=
  match d with
  | Some (PaymentMethodsPage p) => length (entries p)
  | _ => 0
  end.

End paymentMethodsSession.

Import paymentMethodsSession.

(** ** Vocabulary of the statements *)

(** Every reply of the network is a rejection with HTTP status [s]. *)
Definition always_status (net : Network) (s : Z) : Prop :=
  ∀ n r, ∃ d m, net n r = Rejected (mkAxiosError (Some (mkErrorResponse s d)) m).

(** One attempt that goes on the wire once and is rejected with status [s]. *)
Definition rejected_with {A} (s : Z) (fn : Async A) : Prop :=
  ∀ w, ∃ e d w', fn w = (Threw (AxiosErr e), w')
                ∧ response e = Some (mkErrorResponse s d)
                ∧ length (wire w') = S (length (wire w)).

(** A failure that the invoices loop retries: the caught value has no
    [response], or one whose status is not below 500. *)
Definition invoices_retried {A} (fn : Async A) : Prop :=
  ∀ w, ∃ err w', fn w = (Threw err, w')
                 ∧ match response_of err with
                   | Some r => bool_decide (status r < 500)
                   | None => false
                   end = false
                 ∧ length (wire w') = S (length (wire w)).

(** The reply to the next request is a rejection with status [s]. *)
Definition next_status (net : Network) (w : World) (s : Z) : Prop :=
  ∀ r, ∃ d m, net (length (wire w)) r
              = Rejected (mkAxiosError (Some (mkErrorResponse s d)) m).

(** The last request on the wire was rejected with [e]. *)
Definition final_rejection (net : Network) (w' : World) (e : AxiosError) : Prop :=
  ∃ r, last (wire w') = Some r ∧ net (length (wire w') - 1)%nat r = Rejected e.

(** A call returns, or throws what [surfaced] makes of the rejection of its
    final attempt; it does not run out of budget. *)
Definition surfaces {A} (net : Network) (surfaced : AxiosError → Thrown)
    (r : Completion A * World) : Prop :=
  match r with
  | (Returned _, _) => True
  | (Threw err, w') => ∃ e, final_rejection net w' e ∧ err = surfaced e
  | (Stuck, _) => False
  end.

(** What [getPaymentMethods] throws for a rejection: the body when it is
    truthy, whatever it is, and else a problem made up on the spot. *)
Definition normalized (e : AxiosError) : Thrown :=
  match response_data (AxiosErr e) with
  | Some b => thrown_of b
  | None => Problem (paymentMethodsService.unknown_error (AxiosErr e))
  end.

(** What [postPayment] throws for a rejection: the body when it is truthy,
    and else the error itself. *)
Definition body_or_raw (e : AxiosError) : Thrown :=
  match response_data (AxiosErr e) with
  | Some b => thrown_of b
  | None => AxiosErr e
  end.

(** Everything the countries service does leaves the token variables alone. *)
Definition keeps_vars {A} (m : Async A) : Prop := ∀ w, vars (m w).2 = vars w.

(** No query selected by [f] has a fetch in flight. *)
Definition idle (f : QueryKey) (c : gmap QueryKey Query) : Prop :=
  ∀ k q, c !! k = Some q → partialMatchKey k f = true → inFlight q = None.

(** Every cached query selected by [f] is marked for refetch. *)
Definition invalidated (f : QueryKey) (cl : Client) : Prop :=
  ∀ k q, cache cl !! k = Some q → partialMatchKey k f = true → isInvalidated q = true.

(** The query stored under [k], if any, is marked for refetch. *)
Definition marked (k : QueryKey) (cl : Client) : Prop :=
  ∀ q, cache cl !! k = Some q → isInvalidated q = true.

(** The next [j] replies are failures that the conditional policy retries,
    and the reply after them is the response [resp]. *)
Definition fails_then_resolves (net : Network) (w : World) (j : nat)
    (resp : Response) : Prop :=
  (∀ i r, (i < j)%nat →
          ∃ e, net (length (wire w) + i)%nat r = Rejected e
               ∧ no_response_or_5xx (response e) = true)
  ∧ ∀ r, net (length (wire w) + j)%nat r = Resolved resp.

(** Every reply of the network is a rejection. *)
Definition always_rejects (net : Network) : Prop :=
  ∀ n r, ∃ e, net n r = Rejected e.

(** One attempt that is rejected with status [s], goes on the wire once and
    waits for nothing. *)
Definition rejected_quietly {A} (s : Z) (fn : Async A) : Prop :=
  ∀ w, ∃ e d w', fn w = (Threw (AxiosErr e), w')
                ∧ response e = Some (mkErrorResponse s d)
                ∧ length (wire w') = S (length (wire w))
                ∧ timers w' = timers w.

(** What the request interceptor of a module-variable service leaves in the
    Authorization header: the bearer of a non-empty token, nothing
    otherwise (an empty token counts as none). *)
Definition sent_as (o : option string) (r : Request) : Prop :=
  headers r !! "Authorization" = bearer <$> truthy o.

(** One call of [fn] puts one request on the wire, waits for nothing, and
    throws what [surfaced] makes of the rejection. *)
Definition rejects_once {A} (net : Network) (surfaced : AxiosError → Thrown)
    (fn : Async A) : Prop :=
  ∀ w, ∃ e w', fn w = (Threw (surfaced e), w')
               ∧ final_rejection net w' e
               ∧ length (wire w') = S (length (wire w))
               ∧ timers w' = timers w.

(** ** Sample inputs *)

(** A fresh page: no token anywhere, nothing sent yet. *)
Definition world0 : World := mkWorld ∅ ∅ "/" [] [].

(** A server that answers every request with status [s] and body [d]. *)
Definition server_error (s : Z) (d : option ProblemDetails) : Network :=
  λ _ _, Rejected (mkAxiosError (Some (mkErrorResponse s (ProblemBody <$> d)))
                                "Request failed").

(** The body [{ title: "Bad", status: 400 }]. *)
Definition bad_request : ProblemDetails :=
  mkProblem None (Some "Bad") (Some 400) None None.

(** No response at all: every request fails in the transport. *)
Definition network_down : Network :=
  λ _ _, Rejected (mkAxiosError None "Network Error").

(** A gateway that answers every request with status 502 and a text. *)
Definition bad_gateway : Network :=
  λ _ _, Rejected (mkAxiosError (Some (mkErrorResponse 502 (Some (TextBody "Bad Gateway"))))
                                "Request failed with status code 502").

(** A fresh page in which service [s] holds token [t]. *)
Definition signed_in (s : Service) (t : string) : World :=
  mkWorld {[s := t]} ∅ "/" [] [].

(** A page in which the authorize module and the countries module each
    hold a token. *)
Definition two_tokens : World :=
  mkWorld {[AuthorizeClient := "a"; Countries := "c"]} ∅ "/" [] [].

(** A server that answers every request with [{ token: t }]. *)
Definition identity_server (t : string) : Network :=
  λ _ _, Resolved (mkResponse (Some (mkPayload (Some t) "")) None).

(** Sample cache contents. *)
Definition visa : GetPaymentMethodResponse := mkPaymentMethod "pm_1" true "card" None.
Definition sepa : GetPaymentMethodResponse := mkPaymentMethod "pm_2" false "sepa" None.

Definition alice : GetCustomerResponse :=
  mkCustomer "A-1" "Alice" "Doe" "alice@example.org" "EUR" "" [] [] "acc-1".

(** A cache holding one customers page under the key the mutations use and
    one payment-methods page under the key of [usePaymentMethods()]; no
    fetch is in flight. *)
Definition client0 : Client :=
  mkClient
    (<[useCustomers.customersKey :=
         mkQuery (Some (Customers (mkPage [alice] 1 1 10))) false None]>
     (<[usePaymentMethods.usePaymentMethods_key None :=
         mkQuery (Some (PaymentMethodsPage (mkPage [visa; sepa] 2 1 10))) false None]>
      ∅))
    [].

Definition no_options : Options := mkOptions false false false false.

Definition bob : useCustomers.Variables :=
  useCustomers.mkVariables
    (mkPostCustomerRequest "EUR" (Some (mkPersonalInfo "Bob" "Roe"))
       (Some (mkContactInfo "bob@example.org" None)) [])
    1700000000000 1700000000001.


(** A new card; the placeholder id drawn for a query depends on the query. *)
Definition new_card : usePaymentMethods.CreateVariables :=
  usePaymentMethods.mkCreateVariables "card"
    (λ k, if decide (k = usePaymentMethods.usePaymentMethods_key None)
          then "x7" else "k3").

(** [client0] with an empty subscriptions page, in the state that is
    reached when a fetch of the payment-methods query has begun and a page
    with one entry has been written into the query while the fetch is
    running. *)
Definition client_busy : Client :=
  with_cache
    (λ c, setQueryData (usePaymentMethods.usePaymentMethods_key None)
            (Some (PaymentMethodsPage (mkPage [sepa] 1 1 10)))
            (fetch (usePaymentMethods.usePaymentMethods_key None)
               (<[useSubscriptions.listKey :=
                    mkQuery (Some (SubscriptionsPage (mkPage [] 0 1 10))) false None]> c)))
    client0.

(** A cache holding a payment-methods page under the key that
    [useRecurringPaymentMethod] patches. *)
Definition client1 : Client :=
  mkClient
    (<[useRecurringPaymentMethod.paymentMethodsKey :=
         mkQuery (Some (PaymentMethodsPage (mkPage [visa; sepa] 2 1 10))) false None]> ∅)
    [].

(** Two create-payment-method mutations. *)
Definition card_x7 : Mutation :=
  Create (usePaymentMethods.mkCreateVariables "card" (λ _, "x7")).
Definition card_q2 : Mutation :=
  Create (usePaymentMethods.mkCreateVariables "card" (λ _, "q2")).

(** A server that fails [j] times with status [s] and then answers [resp]. *)
Definition flaky_server (j : nat) (s : Z) (resp : Response) : Network :=
  λ n _, if bool_decide (n < j)%nat
         then Rejected (mkAxiosError (Some (mkErrorResponse s None)) "Request failed")
         else Resolved resp.

Definition receipt : Response := mkResponse (Some (mkPayload None "Authorised")) None.

Definition stored_token (t : string) : World :=
  mkWorld ∅ {["access_token" := t]} "/checkout" [] [].

Definition countries_page (count : option Z) : Network :=
  λ _ _, Resolved (mkResponse (Some (mkPayload None "[]")) count).

Definition rename_bob : useCustomers.PutCustomerRequest :=
  useCustomers.mkPutCustomerRequest "Bob" "Roe" "bob@example.org" None [] None.

(** [client0] in the state that is reached when a fetch of the query under
    ['customers'] has begun and an empty page has been written into the
    query while the fetch is running. *)
Definition client_reloading : Client :=
  with_cache
    (λ c, setQueryData useCustomers.customersKey (Some (Customers (mkPage [] 0 1 10)))
            (fetch useCustomers.customersKey c))
    client0.

Definition all_options : Options := mkOptions true true true true.

Definition second_page : Params := mkParams (Some 2) None.

Definition gold : SubscriptionEntry := mkSubscriptionEntry ["gold"] None ∅.

(** A cache with the subscriptions pages of [useSubscriptions()] and of
    [useSubscriptions({ page: 2 })]; the second is being fetched and was
    written while the fetch is running. *)
Definition client2 : Client :=
  mkClient
    (setQueryData (useSubscriptions.useSubscriptions_key second_page)
       (Some (SubscriptionsPage (mkPage [gold] 1 2 10)))
       (fetch (useSubscriptions.useSubscriptions_key second_page)
          (<[useSubscriptions.useSubscriptions_key (mkParams None None) :=
               mkQuery (Some (SubscriptionsPage (mkPage [] 0 1 10))) false None]>
           (<[useSubscriptions.useSubscriptions_key second_page :=
               mkQuery (Some (SubscriptionsPage (mkPage [] 0 2 10))) false None]> ∅))))
    [].

(** The character of the decimal digit [n]. *)
Definition digit_char (n : nat) : Ascii.ascii := Ascii.ascii_of_nat (48 + n).

(** * Properties of the transport services *)

Lemma axios_request_rejected net onReq onRej config w e :
  net (length (wire w)) (onReq w config) = Rejected e →
  axios_request net onReq onRej config w
  = (Threw (AxiosErr e), onRej e (push_wire (onReq w config) w)).
Proof. intros H. unfold axios_request. by rewrite H. Qed.

Lemma axios_request_resolved net onReq onRej config w r :
  net (length (wire w)) (onReq w config) = Resolved r →
  axios_request net onReq onRej config w
  = (Returned r, push_wire (onReq w config) w).
Proof. intros H. unfold axios_request. by rewrite H. Qed.

Lemma wire_push_wire r w : wire (push_wire r w) = wire w ++ [r].
Proof. done. Qed.

Lemma length_wire_push r w : length (wire (push_wire r w)) = S (length (wire w)).
Proof. rewrite wire_push_wire, length_app. simpl. lia. Qed.

Lemma attempts_of_length w w' n :
  length (wire w') = (length (wire w) + n)%nat → attempts w w' = n.
Proof. unfold attempts. lia. Qed.

Lemma axios_request_rejected_with net onReq onRej config s :
  always_status net s →
  (∀ e w, wire (onRej e w) = wire w) →
  rejected_with s (axios_request net onReq onRej config).
Proof.
  intros Hnet Hrej w.
  destruct (Hnet (length (wire w)) (onReq w config)) as (d & m & Hr).
  eexists _, d, _. split; [by apply axios_request_rejected|].
  split; [done|]. by rewrite Hrej, length_wire_push.
Qed.

Lemma bind_rejected_with {A B} s (fn : Async A) (k : A → Async B) :
  rejected_with s fn → rejected_with s (bind fn k).
Proof.
  intros H w. destruct (H w) as (e & d & w' & Hfn & He & Hw).
  exists e, d, w'. unfold bind. by rewrite Hfn.
Qed.

Lemma no_response_or_5xx_Some s d :
  no_response_or_5xx (Some (mkErrorResponse s d)) = bool_decide (500 ≤ s).
Proof. done. Qed.

Lemma payment_wire_onRejected e w : wire (paymentService.onRejected e w) = wire w.
Proof. unfold paymentService.onRejected. destruct (response e); [case_decide|]; done. Qed.

Lemma postPayment_from_503 net req :
  always_status net 503 →
  ∀ budget retries w,
    (retries + budget = paymentService.MAX_RETRIES)%nat →
    ∃ e w', paymentService.postPayment_from net budget req retries w = (Threw e, w')
            ∧ length (wire w') = (length (wire w) + S budget)%nat.
Proof.
  intros Hnet.
  assert (Hpost : rejected_with 503
            (bind (paymentService.post net "/" req) (λ r, ret (rdata r)))).
  { apply bind_rejected_with, axios_request_rejected_with;
      auto using payment_wire_onRejected. }
  induction budget as [|budget IH]; intros retries w Hb;
    destruct (Hpost w) as (e & d & w' & Hfn & He & Hw);
    cbn [paymentService.postPayment_from]; unfold try_catch at 1; rewrite Hfn;
    cbn [isAxiosError response_of no_response_or_5xx]; rewrite He; cbn [status].
  - rewrite bool_decide_eq_false_2 by lia. cbn [andb].
    unfold response_data, response_of. rewrite He. cbn [data].
    destruct (truthy_body d); unfold throw; eexists _, _; (split; [reflexivity|lia]).
  - rewrite bool_decide_eq_true_2 by lia.
    rewrite no_response_or_5xx_Some.
    rewrite (bool_decide_eq_true_2 (500 ≤ 503)) by lia. cbn [andb].
    unfold bind at 1, delay.
    destruct (IH (retries + 1)%nat
                (push_timer (paymentService.RETRY_DELAY * (Z.of_nat retries + 1)) w'))
      as (e' & w'' & IH1 & IH2); [lia|].
    exists e', w''. split; [exact IH1|]. rewrite IH2. cbn [push_timer wire]. lia.
Qed.

Lemma invoices_retryRequest_loop_retried {A} (fn : Async A) retries :
  invoices_retried fn →
  ∀ budget attempt w lastError,
    (attempt + budget = S retries)%nat →
    ∃ e w', invoicesService.retryRequest_loop budget fn retries attempt lastError w
            = (Threw e, w')
            ∧ length (wire w') = (length (wire w) + budget)%nat.
Proof.
  intros Hfn. induction budget as [|budget IH]; intros attempt w lastError Hb.
  - cbn [invoicesService.retryRequest_loop].
    rewrite bool_decide_eq_false_2 by lia.
    eexists _, _. split; [reflexivity|lia].
  - cbn [invoicesService.retryRequest_loop].
    rewrite bool_decide_eq_true_2 by lia.
    destruct (Hfn w) as (err & w' & Hw & Hr & Hlen).
    unfold try_catch at 1. rewrite Hw, Hr, orb_false_r.
    destruct (decide (attempt = retries)) as [->|Hne].
    + rewrite bool_decide_eq_true_2 by done.
      eexists _, _. split; [reflexivity|]. assert (budget = 0%nat) by lia. lia.
    + rewrite bool_decide_eq_false_2 by done.
      unfold bind at 1, delay.
      destruct (IH (attempt + 1)%nat (push_timer (500 * (Z.of_nat attempt + 1)) w') err)
        as (e & w'' & He & Hlen'); [lia|].
      exists e, w''. split; [done|]. rewrite Hlen'. cbn [push_timer wire]. lia.
Qed.

Lemma invoices_getInvoices_fn_retried net p s :
  always_status net s → 500 ≤ s →
  invoices_retried (invoicesService.getInvoices_fn net p).
Proof.
  intros Hnet Hs w.
  destruct (axios_request_rejected_with net invoicesService.onRequest (λ _ w, w)
              (mkRequest GET (invoicesService.BASE_URL +:+ "") (Some p) None ∅) s Hnet
              ltac:(done) w) as (e & d & w' & Hw & He & Hlen).
  unfold invoicesService.getInvoices_fn, try_catch, bind, invoicesService.get.
  rewrite Hw. unfold response_data. cbn [response_of]. rewrite He. cbn [data].
  destruct (truthy_body d) as [pd|]; eexists _, w'; (split; [reflexivity|]);
    split; try done; [by destruct pd|].
  cbn [response_of]. rewrite He. cbn [status]. by rewrite bool_decide_eq_false_2 by lia.
Qed.

(** A client error with a truthy body: the closure throws the body, which
    carries no [response], so the loop retries it. *)
Lemma invoices_getInvoices_fn_body_retried net p :
  (∀ n r, ∃ s b m,
      net n r = Rejected (mkAxiosError (Some (mkErrorResponse s (Some b))) m)
      ∧ truthy_body (Some b) = Some b) →
  invoices_retried (invoicesService.getInvoices_fn net p).
Proof.
  intros Hnet w.
  unfold invoicesService.getInvoices_fn, try_catch, bind, invoicesService.get.
  destruct (Hnet (length (wire w)) (invoicesService.onRequest w
     (mkRequest GET (invoicesService.BASE_URL +:+ "") (Some p) None ∅)))
    as (s & b & m & Hr & Hb).
  rewrite (axios_request_rejected _ _ _ _ _ _ Hr).
  unfold response_data. cbn [response_of response data]. rewrite Hb.
  eexists _, _. split; [reflexivity|]. split; [by destruct b|]. apply length_wire_push.
Qed.

Lemma subscriptions_retryRequest_loop_5xx fn retries s :
  rejected_with s fn → 500 ≤ s →
  ∀ budget attempt w lastError,
    (attempt + budget = retries)%nat →
    ∃ e w', subscriptionsService.retryRequest_loop budget fn retries attempt lastError w
            = (Threw e, w')
            ∧ length (wire w') = (length (wire w) + budget)%nat.
Proof.
  intros Hfn Hs. induction budget as [|budget IH]; intros attempt w lastError Hb.
  - cbn [subscriptionsService.retryRequest_loop].
    rewrite bool_decide_eq_false_2 by lia.
    eexists _, _. split; [reflexivity|lia].
  - cbn [subscriptionsService.retryRequest_loop].
    rewrite bool_decide_eq_true_2 by lia.
    destruct (Hfn w) as (e & d & w' & Hw & He & Hlen).
    unfold try_catch at 1, bind at 1. rewrite Hw. cbn [response_of]. rewrite He.
    rewrite no_response_or_5xx_Some.
    rewrite bool_decide_eq_true_2 by done.
    unfold bind at 1, delay.
    destruct (IH (attempt + 1)%nat (push_timer (500 * (Z.of_nat attempt + 1)) w')
                (AxiosErr e)) as (e' & w'' & He' & Hlen'); [lia|].
    exists e', w''. split; [done|]. rewrite Hlen'. cbn [push_timer wire]. lia.
Qed.

Lemma server_error_always s d : always_status (server_error s d) s.
Proof. intros n r. by exists (ProblemBody <$> d), "Request failed". Qed.

Example getInvoices_bad_request_attempts :
  attempts world0 (invoicesService.getInvoices (server_error 400 (Some bad_request))
                     (mkParams None None) world0).2 = 3%nat.
Proof. vm_compute. reflexivity. Qed.

Example getInvoices_bad_request_thrown :
  (invoicesService.getInvoices (server_error 400 (Some bad_request))
                     (mkParams None None) world0).1 = Threw (Problem bad_request).
Proof. vm_compute. reflexivity. Qed.

Example getSubscriptions_unavailable_attempts :
  attempts world0 (subscriptionsService.getSubscriptions (server_error 503 None)
                     None world0).2 = 3%nat.
Proof. vm_compute. reflexivity. Qed.

(** Linear backoff of [postPayment]: 800 ms, then 1600 ms. *)
Example postPayment_backoff :
  timers (paymentService.postPayment (server_error 503 None) "{}" 0 world0).2
  = [800; 1600].
Proof. vm_compute. reflexivity. Qed.

(** The subscriptions loop also waits after its last attempt. *)
Example getSubscriptions_backoff :
  timers (subscriptionsService.getSubscriptions (server_error 503 None)
            None world0).2 = [500; 1000; 1500].
Proof. vm_compute. reflexivity. Qed.

(** C1 (amended).  Against a server that answers every attempt with HTTP
    503, [postPayment] (ceiling 2) and [getInvoices] (ceiling 2) fail after
    exactly ceiling + 1 requests, and so does the invoices [retryRequest]
    for every ceiling [N]; the subscriptions [retryRequest] counts its
    ceiling as the total number of requests and fails after exactly [N] of
    them, three for [getSubscriptions]. *)
Theorem retry_ceiling_under_503 net req p q w :
  always_status net 503 →
  (∃ e w', paymentService.postPayment net req 0 w = (Threw e, w')
           ∧ attempts w w' = S paymentService.MAX_RETRIES)
  ∧ (∀ N, ∃ e w', invoicesService.retryRequest (invoicesService.getInvoices_fn net p) N w
                  = (Threw e, w')
                  ∧ attempts w w' = S N)
  ∧ (∃ e w', invoicesService.getInvoices net p w = (Threw e, w')
             ∧ attempts w w' = S invoicesService.MAX_RETRIES)
  ∧ (∀ N, ∃ e w', subscriptionsService.retryRequest
                    (subscriptionsService.get net subscriptionsService.BASE_URL q) N w
                  = (Threw e, w')
                  ∧ attempts w w' = N)
  ∧ (∃ e w', subscriptionsService.getSubscriptions net q w = (Threw e, w')
             ∧ attempts w w' = subscriptionsService.MAX_RETRIES).
Proof.
  intros Hnet.
  assert (Hinv : ∀ N, ∃ e w',
             invoicesService.retryRequest (invoicesService.getInvoices_fn net p) N w
             = (Threw e, w') ∧ attempts w w' = S N).
  { intros N.
    destruct (invoices_retryRequest_loop_retried (invoicesService.getInvoices_fn net p) N
                (invoices_getInvoices_fn_retried net p 503 Hnet ltac:(lia))
                (S N) 0%nat w Undefined) as (e & w' & He & Hlen); [lia|].
    exists e, w'. split; [exact He|]. by apply attempts_of_length. }
  assert (Hsub : ∀ N, ∃ e w',
             subscriptionsService.retryRequest
               (subscriptionsService.get net subscriptionsService.BASE_URL q) N w
             = (Threw e, w') ∧ attempts w w' = N).
  { intros N.
    destruct (subscriptions_retryRequest_loop_5xx
                (subscriptionsService.get net subscriptionsService.BASE_URL q) N 503
                (axios_request_rejected_with net _ _ _ 503 Hnet ltac:(done)) ltac:(lia)
                N 0%nat w Undefined) as (e & w' & He & Hlen); [lia|].
    exists e, w'. split; [exact He|]. by apply attempts_of_length. }
  split; [|split; [exact Hinv|split; [apply Hinv|split; [exact Hsub|apply Hsub]]]].
  destruct (postPayment_from_503 net req Hnet paymentService.MAX_RETRIES 0%nat w)
    as (e & w' & He & Hlen); [done|].
  exists e, w'. split; [exact He|]. by apply attempts_of_length.
Qed.

Lemma retry_ceiling_under_503_witness :
  always_status (server_error 503 None) 503
  ∧ ∃ e w', subscriptionsService.getSubscriptions (server_error 503 None) None world0
            = (Threw e, w')
            ∧ attempts world0 w' = subscriptionsService.MAX_RETRIES.
Proof.
  split; [apply server_error_always|].
  apply (retry_ceiling_under_503 (server_error 503 None) "" (mkParams None None) None world0).
  apply server_error_always.
Defined.

(** C1, as stated, fails on the subscriptions service: under an always-503
    server [getSubscriptions] does not make [MAX_RETRIES + 1 = 4] requests. *)
Lemma subscriptions_not_four_attempts :
  ¬ (∀ net q w, always_status net 503 →
       ∃ e w', subscriptionsService.getSubscriptions net q w = (Threw e, w')
               ∧ attempts w w' = S subscriptionsService.MAX_RETRIES).
Proof.
  intros H.
  destruct (H (server_error 503 None) None world0 (server_error_always _ _))
    as (e & w' & He & Hn).
  assert (Hw : w' = (subscriptionsService.getSubscriptions (server_error 503 None)
                       None world0).2) by (by rewrite He).
  subst w'. vm_compute in Hn. discriminate.
Qed.

Lemma axios_request_next_status net onReq onRej config w s :
  next_status net w s →
  (∀ e w, wire (onRej e w) = wire w) →
  ∃ e d w', axios_request net onReq onRej config w = (Threw (AxiosErr e), w')
            ∧ response e = Some (mkErrorResponse s d)
            ∧ length (wire w') = S (length (wire w)).
Proof.
  intros Hnet Hrej. destruct (Hnet (onReq w config)) as (d & m & Hr).
  eexists _, d, _. split; [by apply axios_request_rejected|].
  split; [done|]. by rewrite Hrej, length_wire_push.
Qed.

Lemma postPayment_client_error_once net req retries w s :
  next_status net w s → s < 500 →
  ∃ e w', paymentService.postPayment net req retries w = (Threw e, w')
          ∧ attempts w w' = 1%nat.
Proof.
  intros Hnet Hs.
  destruct (axios_request_next_status net paymentService.onRequest
              paymentService.onRejected
              (mkRequest POST (paymentService.apiBaseUrl +:+ "/") None (Some req) ∅)
              w s Hnet payment_wire_onRejected) as (e & d & w' & Hw & He & Hlen).
  assert (Hstep : ∀ budget, ∃ e0,
            paymentService.postPayment_from net budget req retries w = (Threw e0, w')).
  { intros budget.
    destruct budget; cbn [paymentService.postPayment_from];
      unfold try_catch, bind at 1, paymentService.post; rewrite Hw;
      cbn [isAxiosError response_of]; rewrite He;
      rewrite no_response_or_5xx_Some;
      rewrite (bool_decide_eq_false_2 (500 ≤ s)) by lia;
      rewrite andb_false_r; unfold response_data; cbn [response_of];
      rewrite He; cbn [data]; destruct (truthy_body d); unfold throw; eauto. }
  destruct (Hstep (paymentService.MAX_RETRIES - retries)%nat) as (e0 & He0).
  exists e0, w'. split; [exact He0|]. apply attempts_of_length. lia.
Qed.

Lemma subscriptions_client_error_once net q w s :
  next_status net w s → s < 500 →
  ∃ e w', subscriptionsService.getSubscriptions net q w = (Threw (AxiosErr e), w')
          ∧ attempts w w' = 1%nat.
Proof.
  intros Hnet Hs.
  destruct (axios_request_next_status net subscriptionsService.onRequest (λ _ w, w)
              (mkRequest GET subscriptionsService.BASE_URL q None ∅)
              w s Hnet ltac:(done)) as (e & d & w' & Hw & He & Hlen).
  exists e, w'. split; [|apply attempts_of_length; lia].
  unfold subscriptionsService.getSubscriptions, subscriptionsService.retryRequest,
    subscriptionsService.MAX_RETRIES.
  cbn [subscriptionsService.retryRequest_loop].
  rewrite bool_decide_eq_true_2 by lia.
  unfold try_catch, bind at 1, subscriptionsService.get. rewrite Hw.
  cbn [response_of]. rewrite He.
  rewrite no_response_or_5xx_Some.
  by rewrite bool_decide_eq_false_2 by lia.
Qed.

(** The loop of the invoices service does stop on an axios error below 500. *)
Lemma invoices_retryRequest_client_error_once {A} (fn : Async A) retries w e r w' :
  fn w = (Threw (AxiosErr e), w') → response e = Some r → status r < 500 →
  invoicesService.retryRequest fn retries w = (Threw (AxiosErr e), w').
Proof.
  intros Hfn He Hs. unfold invoicesService.retryRequest.
  cbn [invoicesService.retryRequest_loop].
  rewrite bool_decide_eq_true_2 by lia. unfold try_catch. rewrite Hfn.
  cbn [response_of]. rewrite He. rewrite (bool_decide_eq_true_2 (status r < 500)) by done.
  by rewrite orb_true_r.
Qed.

(** C2, evaluated on [getInvoices]: when the server answers 400 with a
    problem-details body, the call is not given up after one request; it
    goes on the wire three times before the body is thrown. *)
Theorem getInvoices_retries_client_error_with_body :
  let net := server_error 400 (Some bad_request) in
  let r := invoicesService.getInvoices net (mkParams None None) world0 in
  next_status net world0 400
  ∧ r.1 = Threw (Problem bad_request)
  ∧ attempts world0 r.2 = 3%nat.
Proof.
  cbv zeta. split; [|split].
  - intros r. by eexists _, _.
  - vm_compute. reflexivity.
  - vm_compute. reflexivity.
Qed.

Lemma getInvoices_client_error_with_body_retried net p w :
  (∀ n r, ∃ s b m,
      net n r = Rejected (mkAxiosError (Some (mkErrorResponse s (Some b))) m)
      ∧ truthy_body (Some b) = Some b) →
  ∃ e w', invoicesService.getInvoices net p w = (Threw e, w')
          ∧ attempts w w' = S invoicesService.MAX_RETRIES.
Proof.
  intros Hnet.
  destruct (invoices_retryRequest_loop_retried (invoicesService.getInvoices_fn net p)
              invoicesService.MAX_RETRIES
              (invoices_getInvoices_fn_body_retried net p Hnet)
              (S invoicesService.MAX_RETRIES) 0%nat w Undefined)
    as (e & w' & He & Hlen); [lia|].
  exists e, w'. split; [exact He|]. by apply attempts_of_length.
Qed.

Lemma axios_request_cases net onReq onRej config w :
  (∀ e w, wire (onRej e w) = wire w) →
  (∃ r w', axios_request net onReq onRej config w = (Returned r, w'))
  ∨ (∃ e w', axios_request net onReq onRej config w = (Threw (AxiosErr e), w')
             ∧ final_rejection net w' e).
Proof.
  intros Hrej. unfold axios_request.
  destruct (net (length (wire w)) (onReq w config)) as [r|e] eqn:Hr.
  - left. eauto.
  - right. eexists _, _. split; [reflexivity|].
    exists (onReq w config). rewrite Hrej, wire_push_wire, last_snoc, length_app.
    split; [done|]. cbn [length]. by replace (length (wire w) + 1 - 1)%nat
      with (length (wire w)) by lia.
Qed.

Lemma final_rejection_push_timer net ms w e :
  final_rejection net w e → final_rejection net (push_timer ms w) e.
Proof. done. Qed.

Lemma response_data_AxiosErr e :
  response_data (AxiosErr e) = truthy_body (response e ≫= data).
Proof. unfold response_data. cbn [response_of]. by destruct (response e). Qed.

Lemma getPaymentMethods_from_surfaces net p :
  ∀ budget retryCount w,
    (retryCount + budget = paymentMethodsService.MAX_RETRIES)%nat →
    surfaces net normalized
      (paymentMethodsService.getPaymentMethods_from net budget p retryCount w).
Proof.
  induction budget as [|budget IH]; intros retryCount w Hb;
    cbn [paymentMethodsService.getPaymentMethods_from];
    unfold try_catch, bind at 1, paymentMethodsService.get;
    (destruct (axios_request_cases net paymentMethodsService.onRequest (λ _ w, w)
               (mkRequest GET ("/api" +:+ "/payment-methods") p None ∅) w ltac:(done))
      as [(r & w' & Hw)|(e & w' & Hw & Hfin)]; rewrite Hw; [done|]).
  - rewrite bool_decide_eq_false_2 by lia.
    unfold surfaces.
    destruct (response_data (AxiosErr e)) eqn:Hd; unfold throw;
      (exists e; split; [done|]; unfold normalized; by rewrite Hd).
  - rewrite bool_decide_eq_true_2 by lia. apply IH. lia.
Qed.

Lemma postPayment_from_surfaces net req :
  ∀ budget retries w,
    (paymentService.MAX_RETRIES ≤ retries + budget)%nat →
    surfaces net body_or_raw
      (paymentService.postPayment_from net budget req retries w).
Proof.
  induction budget as [|budget IH]; intros retries w Hb;
    cbn [paymentService.postPayment_from];
    unfold try_catch, bind at 1, paymentService.post;
    (destruct (axios_request_cases net paymentService.onRequest paymentService.onRejected
               (mkRequest POST (paymentService.apiBaseUrl +:+ "/") None (Some req) ∅) w
               payment_wire_onRejected)
      as [(r & w' & Hw)|(e & w' & Hw & Hfin)]; rewrite Hw; [done|]);
    cbn [isAxiosError].
  - rewrite bool_decide_eq_false_2 by lia. cbn [andb].
    unfold surfaces.
    destruct (response_data (AxiosErr e)) eqn:Hd; unfold throw;
      (exists e; split; [done|]; unfold body_or_raw; by rewrite Hd).
  - destruct (bool_decide (retries < paymentService.MAX_RETRIES)%nat && true
              && no_response_or_5xx (response_of (AxiosErr e))).
    + unfold bind, delay. apply IH. lia.
    + unfold surfaces.
      destruct (response_data (AxiosErr e)) eqn:Hd; unfold throw;
        (exists e; split; [done|]; unfold body_or_raw; by rewrite Hd).
Qed.

(** C3 (amended).  A failed [getPaymentMethods] or [postPayment] never runs
    out of budget and throws what the rejection of its final attempt
    determines.  When the response has a body that JavaScript takes for
    true, that body is thrown as it is, whatever its shape: a
    problem-details object as that object, a non-empty text as that text.
    When there is no response, no body, or the body is the empty string,
    [getPaymentMethods] throws a synthesized problem with title
    "Unknown error", status 500 and the message of the error as detail,
    while [postPayment] rethrows the transport error itself. *)
Theorem failure_surfaces_body_or_fallback net p req w :
  surfaces net normalized (paymentMethodsService.getPaymentMethods net p 0 w)
  ∧ surfaces net body_or_raw (paymentService.postPayment net req 0 w)
  ∧ (∀ s problem m,
       normalized (mkAxiosError (Some (mkErrorResponse s (Some (ProblemBody problem)))) m)
       = Problem problem
       ∧ body_or_raw
           (mkAxiosError (Some (mkErrorResponse s (Some (ProblemBody problem)))) m)
         = Problem problem)
  ∧ (∀ s t m,
       normalized (mkAxiosError (Some (mkErrorResponse s (Some (TextBody t)))) m)
       = (if decide (t = "")
          then Problem (mkProblem None (Some "Unknown error") (Some 500)
                          (Some (if decide (m = "") then "An unknown error occurred"
                                 else m)) None)
          else Text t)
       ∧ body_or_raw (mkAxiosError (Some (mkErrorResponse s (Some (TextBody t)))) m)
         = (if decide (t = "")
            then AxiosErr (mkAxiosError (Some (mkErrorResponse s (Some (TextBody t)))) m)
            else Text t))
  ∧ (∀ (r : option Z) m,
       normalized (mkAxiosError ((λ s, mkErrorResponse s None) <$> r) m)
       = Problem (mkProblem None (Some "Unknown error") (Some 500)
                    (Some (if decide (m = "") then "An unknown error occurred" else m))
                    None)
       ∧ body_or_raw (mkAxiosError ((λ s, mkErrorResponse s None) <$> r) m)
         = AxiosErr (mkAxiosError ((λ s, mkErrorResponse s None) <$> r) m)).
Proof.
  split; [|split; [|split; [|split]]].
  - by apply getPaymentMethods_from_surfaces.
  - apply postPayment_from_surfaces. unfold paymentService.MAX_RETRIES. lia.
  - done.
  - intros s t m. unfold normalized, body_or_raw, response_data.
    cbn [response_of response data truthy_body]. by destruct (decide (t = "")).
  - intros [s|] m; done.
Qed.

(** C3, as stated, fails on [postPayment]: with the network down the
    caller receives the transport error, not a [ProblemDetails]. *)
Lemma postPayment_rethrows_raw_error :
  ¬ (∀ net req w err w',
       paymentService.postPayment net req 0 w = (Threw err, w') →
       ∃ problem, err = Problem problem).
Proof.
  intros H.
  destruct (H network_down "{}" world0 (AxiosErr (mkAxiosError None "Network Error"))
              (paymentService.postPayment network_down "{}" 0 world0).2)
    as (problem & Hp); [|discriminate].
  vm_compute. reflexivity.
Qed.

Example getPaymentMethods_network_down :
  (paymentMethodsService.getPaymentMethods network_down None 0 world0).1
  = Threw (Problem (mkProblem None (Some "Unknown error") (Some 500)
                              (Some "Network Error") None))
  ∧ attempts world0 (paymentMethodsService.getPaymentMethods network_down None 0 world0).2
    = 4%nat.
Proof. split; vm_compute; reflexivity. Qed.

(** A body that is not a [ProblemDetails] is thrown as it is. *)
Example failure_behind_bad_gateway :
  (paymentMethodsService.getPaymentMethods bad_gateway None 0 world0).1
  = Threw (Text "Bad Gateway")
  ∧ (paymentService.postPayment bad_gateway "{}" 0 world0).1 = Threw (Text "Bad Gateway").
Proof. split; vm_compute; reflexivity. Qed.

(** *** Tokens *)

Lemma attach_module_token_None s w config :
  vars w !! s = None → attach_module_token s w config = config.
Proof. intros H. unfold attach_module_token. by rewrite H. Qed.

Lemma attach_module_token_Some s w config t :
  vars w !! s = Some t → t ≠ "" →
  headers (attach_module_token s w config) !! "Authorization" = Some (bearer t).
Proof.
  intros H Ht. unfold attach_module_token, truthy. rewrite H.
  rewrite decide_False by done. cbn [set_header headers]. apply lookup_insert_eq.
Qed.

Lemma vars_push_wire r w : vars (push_wire r w) = vars w.
Proof. done. Qed.

(** authorizeClientService: a 401 clears the module's own token only. *)
Lemma authorize_post_401 net u d w :
  next_status net w 401 →
  ∃ e w', authorizeClientService.post net u d w = (Threw (AxiosErr e), w')
          ∧ vars w' = delete AuthorizeClient (vars w).
Proof.
  intros Hnet. unfold authorizeClientService.post.
  destruct (Hnet (authorizeClientService.onRequest w (mkRequest POST u None (Some d) ∅)))
    as (b & m & Hr).
  rewrite (axios_request_rejected _ _ _ _ _ _ Hr).
  eexists _, _. split; [reflexivity|].
  unfold authorizeClientService.onRejected. cbn [response status].
  by rewrite decide_True by done.
Qed.

Lemma authApi_post_401 net u d w :
  next_status net w 401 →
  ∃ e b w', authApiService.post net u d w = (Threw (AxiosErr e), w')
          ∧ response e = Some (mkErrorResponse 401 b)
          ∧ vars w' = delete AuthApi (vars w).
Proof.
  intros Hnet. unfold authApiService.post.
  destruct (Hnet (authApiService.onRequest w (mkRequest POST u None (Some d) ∅)))
    as (b & m & Hr).
  rewrite (axios_request_rejected _ _ _ _ _ _ Hr).
  eexists _, b, _. split; [reflexivity|]. split; [done|].
  unfold authApiService.onRejected. cbn [response status].
  by rewrite decide_True by done.
Qed.

Lemma postIdentityToken_401 net d w :
  next_status net w 401 →
  ∃ err w', authApiService.postIdentityToken net d 0 w = (Threw err, w')
            ∧ vars w' = delete AuthApi (vars w)
            ∧ attempts w w' = 1%nat
            ∧ localStorage w' = localStorage w.
Proof.
  intros Hnet. unfold authApiService.postIdentityToken.
  cbn [authApiService.postIdentityToken_from authApiService.MAX_RETRIES Nat.sub].
  unfold try_catch, bind at 1.
  pose proof Hnet as Hnet'.
  destruct (authApi_post_401 net authApiService.BASE_URL d w Hnet)
    as (e & b & w' & Hw & He & Hv).
  rewrite Hw. cbn [isAxiosError response_of]. rewrite He, no_response_or_5xx_Some.
  rewrite (bool_decide_eq_false_2 (500 ≤ 401)) by lia. rewrite andb_false_r.
  rewrite response_data_AxiosErr, He. cbn [mbind option_bind data].
  assert (Hlen : length (wire w') = S (length (wire w))).
  { unfold authApiService.post, axios_request in Hw.
    destruct (net _ _); [done|]. injection Hw as _ <-.
    unfold authApiService.onRejected.
    destruct (response e0); [case_decide|]; cbn; rewrite length_app; cbn; lia. }
  assert (Hls : localStorage w' = localStorage w).
  { unfold authApiService.post, axios_request in Hw.
    destruct (net _ _); [done|]. injection Hw as _ <-.
    unfold authApiService.onRejected.
    destruct (response e0); [case_decide|]; done. }
  destruct (truthy_body b); eexists _, w'; (split; [reflexivity|]); (split; [done|]);
    (split; [apply attempts_of_length; lia|done]).
Qed.

Lemma keeps_vars_bind {A B} (m : Async A) (k : A → Async B) :
  keeps_vars m → (∀ a, keeps_vars (k a)) → keeps_vars (bind m k).
Proof.
  intros Hm Hk w. unfold bind. specialize (Hm w).
  destruct (m w) as [[a|e|] w']; cbn [snd] in *; [|done..].
  by rewrite Hk.
Qed.

Lemma keeps_vars_try_catch {A} (m : Async A) (h : Thrown → Async A) :
  keeps_vars m → (∀ e, keeps_vars (h e)) → keeps_vars (try_catch m h).
Proof.
  intros Hm Hh w. unfold try_catch. specialize (Hm w).
  destruct (m w) as [[a|e|] w']; cbn [snd] in *; [done| |done].
  by rewrite Hh.
Qed.

Lemma keeps_vars_ret {A} (a : A) : keeps_vars (ret a).
Proof. done. Qed.
Lemma keeps_vars_throw {A} e : keeps_vars (@throw A e).
Proof. done. Qed.
Lemma keeps_vars_stuck {A} : keeps_vars (@stuck A).
Proof. done. Qed.
Lemma keeps_vars_delay ms : keeps_vars (delay ms).
Proof. done. Qed.

Create HintDb keeps_vars.
#[local] Hint Resolve keeps_vars_ret keeps_vars_throw keeps_vars_stuck
  keeps_vars_delay : keeps_vars.

Lemma countries_get_keeps_vars net u p : keeps_vars (countriesService.get net u p).
Proof.
  intros w. unfold countriesService.get, axios_request.
  destruct (net _ _); [done|]. cbn [snd]. unfold countriesService.onRejected.
  destruct (response e); [case_decide|]; done.
Qed.

Lemma countries_retryRequest_loop_keeps_vars fn retries :
  keeps_vars fn →
  ∀ budget attempt lastError,
    keeps_vars (countriesService.retryRequest_loop budget fn retries attempt lastError).
Proof.
  intros Hfn. induction budget as [|budget IH]; intros attempt lastError;
    cbn [countriesService.retryRequest_loop]; case_bool_decide;
    auto with keeps_vars.
  apply keeps_vars_try_catch; [done|]. intros e.
  apply keeps_vars_bind; [|by intros; apply IH].
  case_bool_decide; auto with keeps_vars.
Qed.

Lemma getCountries_keeps_vars net p : keeps_vars (countriesService.getCountries net p).
Proof.
  unfold countriesService.getCountries.
  apply keeps_vars_try_catch.
  - apply keeps_vars_bind; [|auto with keeps_vars].
    apply countries_retryRequest_loop_keeps_vars, countries_get_keeps_vars.
  - auto with keeps_vars.
Qed.

(** One attempt of [postAuthorizeClient] settles, writes nothing but the
    module's own token, and does so only to clear it. *)
Lemma postAuthorizeClient_fn_vars net d w :
  ∃ res w1, authorizeClientService.postAuthorizeClient_fn net d w = (res, w1)
            ∧ res ≠ Stuck
            ∧ localStorage w1 = localStorage w
            ∧ (vars w1 = vars w ∨ vars w1 = delete AuthorizeClient (vars w)).
Proof.
  unfold authorizeClientService.postAuthorizeClient_fn, try_catch, bind at 1,
    authorizeClientService.post, axios_request.
  destruct (net _ _) as [r|e].
  - eexists _, _. split; [reflexivity|]. split; [done|]. split; [done|by left].
  - cbn [isAxiosError].
    destruct (response_data (AxiosErr e)); (eexists _, _; split; [reflexivity|]);
      (split; [done|]); unfold authorizeClientService.onRejected;
      (destruct (response e); [case_decide|]; auto).
Qed.

Lemma postAuthorizeClient_fn_401 net d w :
  next_status net w 401 →
  ∃ err w', authorizeClientService.postAuthorizeClient_fn net d w = (Threw err, w')
            ∧ vars w' = delete AuthorizeClient (vars w)
            ∧ localStorage w' = localStorage w.
Proof.
  intros Hnet.
  destruct (authorize_post_401 net authorizeClientService.BASE_URL d w Hnet)
    as (e & w' & Hw & Hv).
  assert (Hf : ∃ err, authorizeClientService.postAuthorizeClient_fn net d w
                      = (Threw err, w')).
  { unfold authorizeClientService.postAuthorizeClient_fn, try_catch, bind at 1.
    rewrite Hw. cbn [isAxiosError]. destruct (response_data _); unfold throw; eauto. }
  destruct Hf as [err Hf].
  destruct (postAuthorizeClient_fn_vars net d w) as (res & w1 & Hf' & _ & Hls & _).
  rewrite Hf in Hf'. injection Hf' as <- <-. eauto.
Qed.

(** Once the token is cleared, the rest of the retry loop leaves the
    variables as they are, whatever the later replies. *)
Lemma authorize_retryRequest_loop_cleared net d retries (vs : gmap Service string)
    (ls : gmap string string) :
  ∀ budget i w lastError,
    (i + budget = retries)%nat →
    vars w = delete AuthorizeClient vs → localStorage w = ls →
    let r := authorizeClientService.retryRequest_loop budget
               (authorizeClientService.postAuthorizeClient_fn net d) retries i
               lastError w in
    r.1 ≠ Stuck ∧ vars r.2 = delete AuthorizeClient vs ∧ localStorage r.2 = ls.
Proof.
  induction budget as [|budget IH]; intros i w lastError Hb Hv Hls;
    cbn [authorizeClientService.retryRequest_loop].
  - by rewrite bool_decide_eq_false_2 by lia.
  - rewrite bool_decide_eq_true_2 by lia. unfold try_catch.
    destruct (postAuthorizeClient_fn_vars net d w) as (res & w1 & Hf & Hs & Hl & Hvars).
    rewrite Hf.
    assert (Hv1 : vars w1 = delete AuthorizeClient vs).
    { destruct Hvars as [->| ->]; [done|]. rewrite Hv. apply delete_delete_eq. }
    assert (Hl1 : localStorage w1 = ls) by (by rewrite Hl).
    destruct res as [a|e|]; [done| |done].
    unfold bind at 1. case_bool_decide; unfold delay, ret; apply IH; try lia; done.
Qed.

Lemma postAuthorizeClient_401 net d w :
  next_status net w 401 →
  let r := authorizeClientService.postAuthorizeClient net d w in
  r.1 ≠ Stuck ∧ vars r.2 = delete AuthorizeClient (vars w)
  ∧ localStorage r.2 = localStorage w.
Proof.
  intros Hnet. unfold authorizeClientService.postAuthorizeClient,
    authorizeClientService.retryRequest, authorizeClientService.MAX_RETRIES.
  cbn [authorizeClientService.retryRequest_loop].
  rewrite bool_decide_eq_true_2 by lia. unfold try_catch.
  destruct (postAuthorizeClient_fn_401 net d w Hnet) as (err & w1 & Hw & Hv & Hls).
  rewrite Hw. unfold bind at 1. rewrite bool_decide_eq_true_2 by lia. unfold delay.
  apply (authorize_retryRequest_loop_cleared net d 3 (vars w) (localStorage w) 2 1%nat
           (push_timer authorizeClientService.RETRY_DELAY w1) err);
    [done|done|done].
Qed.

Lemma attach_module_token_vars s w w' config :
  vars w' !! s = vars w !! s →
  attach_module_token s w' config = attach_module_token s w config.
Proof. intros H. unfold attach_module_token. by rewrite H. Qed.

Lemma attach_stored_token_localStorage key w w' config :
  localStorage w' = localStorage w →
  attach_stored_token key w' config = attach_stored_token key w config.
Proof. intros H. unfold attach_stored_token. by rewrite H. Qed.

(** C4 (amended).  When the next reply is a 401, a call through
    authorizeClientService or authApiService settles with that module's
    own token variable cleared and every other token variable and the
    local storage as they were: the next request through the same module
    carries no Authorization header, and the request interceptor of every
    other module, reading its own variable or the local storage, attaches
    what it attached before.  A call through countriesService leaves every
    token as it was, so its next request carries the same header as
    before. *)
Theorem unauthorized_clears_own_token net d p w :
  next_status net w 401 →
  (let r := authorizeClientService.postAuthorizeClient net d w in
   r.1 ≠ Stuck
   ∧ vars r.2 = delete AuthorizeClient (vars w)
   ∧ (∀ config, authorizeClientService.onRequest r.2 config = config)
   ∧ (∀ s config, s ≠ AuthorizeClient →
        attach_module_token s r.2 config = attach_module_token s w config)
   ∧ (∀ key config,
        attach_stored_token key r.2 config = attach_stored_token key w config))
  ∧ (∃ err w', authApiService.postIdentityToken net d 0 w = (Threw err, w')
               ∧ attempts w w' = 1%nat
               ∧ vars w' = delete AuthApi (vars w)
               ∧ (∀ config, authApiService.onRequest w' config = config)
               ∧ (∀ s config, s ≠ AuthApi →
                    attach_module_token s w' config = attach_module_token s w config)
               ∧ (∀ key config,
                    attach_stored_token key w' config = attach_stored_token key w config))
  ∧ (vars (countriesService.getCountries net p w).2 = vars w
     ∧ ∀ config, countriesService.onRequest (countriesService.getCountries net p w).2 config
                 = countriesService.onRequest w config).
Proof.
  intros Hnet. split; [|split].
  - destruct (postAuthorizeClient_401 net d w Hnet) as (Hs & Hv & Hls).
    cbv zeta. split; [done|]. split; [done|]. split; [|split].
    + intros config. apply attach_module_token_None. rewrite Hv. apply lookup_delete_eq.
    + intros s config Hne. apply attach_module_token_vars. rewrite Hv.
      by apply lookup_delete_ne.
    + intros key config. by apply attach_stored_token_localStorage.
  - destruct (postIdentityToken_401 net d w Hnet) as (err & w' & Hr & Hv & Hn & Hls).
    exists err, w'. split; [done|]. split; [done|]. split; [done|]. split; [|split].
    + intros config. apply attach_module_token_None. rewrite Hv. apply lookup_delete_eq.
    + intros s config Hne. apply attach_module_token_vars. rewrite Hv.
      by apply lookup_delete_ne.
    + intros key config. by apply attach_stored_token_localStorage.
  - pose proof (getCountries_keeps_vars net p w) as Hv. split; [done|].
    intros config. unfold countriesService.onRequest, attach_module_token. by rewrite Hv.
Qed.

Lemma unauthorized_clears_own_token_witness :
  next_status (server_error 401 None) two_tokens 401
  ∧ vars (authorizeClientService.postAuthorizeClient (server_error 401 None) ""
            two_tokens).2
    = delete AuthorizeClient (vars two_tokens).
Proof.
  assert (H : next_status (server_error 401 None) two_tokens 401)
    by (intros r; by eexists _, _).
  split; [exact H|].
  destruct (unauthorized_clears_own_token (server_error 401 None) "" None two_tokens H)
    as ((_ & Hv & _) & _).
  exact Hv.
Defined.

(** After the 401 the authorize module sends no header, the countries
    module the one it sent before. *)
Example unauthorized_other_module_keeps_header :
  let w' := (authorizeClientService.postAuthorizeClient (server_error 401 None) ""
               two_tokens).2 in
  headers (authorizeClientService.onRequest w' (mkRequest GET "/" None None ∅))
    !! "Authorization" = None
  ∧ headers (countriesService.onRequest w' (mkRequest GET "/" None None ∅))
      !! "Authorization" = Some "Bearer c".
Proof. split; vm_compute; reflexivity. Qed.

(** C4, as stated, fails on countriesService: after a call answered with
    401 the next request still carries the Authorization header. *)
Lemma countries_401_keeps_token :
  ¬ (∀ net p w, always_status net 401 →
       ∀ config,
         headers (countriesService.onRequest
                    (countriesService.getCountries net p w).2 config)
         !! "Authorization" = None).
Proof.
  intros H.
  specialize (H (server_error 401 None) None (signed_in Countries "t")
                (server_error_always _ _) (mkRequest GET "/api/countries" None None ∅)).
  vm_compute in H. discriminate.
Qed.

(** *** Identity token *)

Lemma authApi_onRejected_other e w s :
  s ≠ AuthApi → vars (authApiService.onRejected e w) !! s = vars w !! s.
Proof.
  intros Hs. unfold authApiService.onRejected.
  destruct (response e); [case_decide|]; try done.
  cbn [set_vars vars]. by apply lookup_delete_ne.
Qed.

Lemma postIdentityToken_from_token net d :
  ∀ budget retries w res w1,
    authApiService.postIdentityToken_from net budget d retries w = (res, w1) →
    (∀ s, s ≠ AuthApi → vars w1 !! s = vars w !! s)
    ∧ (∀ payload t, res = Returned payload → truthy (payload ≫= token) = Some t →
                    vars w1 !! AuthApi = Some t).
Proof.
  induction budget as [|budget IH]; intros retries w res w1;
    cbn [authApiService.postIdentityToken_from];
    unfold try_catch, bind at 1, authApiService.post, axios_request;
    (destruct (net _ _) as [r|e];
     [ destruct (truthy (rdata r ≫= token)) as [t|] eqn:Ht;
       [ intros [= <- <-]; split;
         [ intros s Hs; cbn [authApiService.setAuthToken set_vars vars push_wire];
           by apply lookup_insert_ne
         | intros payload t' [= <-] Ht'; rewrite Ht in Ht'; injection Ht' as <-;
           apply lookup_insert_eq ]
       | intros [= <- <-]; split; [done|];
         intros payload t' [= <-] Ht'; by rewrite Ht in Ht' ]
     | ]);
    cbn [isAxiosError].
  - destruct (bool_decide (retries < authApiService.MAX_RETRIES)%nat && true
              && no_response_or_5xx (response_of (AxiosErr e))).
    + intros [= <- <-]. split; [|done]. intros s Hs.
      by rewrite authApi_onRejected_other.
    + destruct (response_data (AxiosErr e)); intros [= <- <-]; (split; [|done]);
        intros s Hs; by rewrite authApi_onRejected_other.
  - destruct (bool_decide (retries < authApiService.MAX_RETRIES)%nat && true
              && no_response_or_5xx (response_of (AxiosErr e))).
    + intros Hrec. apply IH in Hrec as [Hother Htok]. split; [|done].
      intros s Hs. rewrite Hother by done. by rewrite authApi_onRejected_other.
    + destruct (response_data (AxiosErr e)); intros [= <- <-]; (split; [|done]);
        intros s Hs; by rewrite authApi_onRejected_other.
Qed.

(** C5 (amended).  When [postIdentityToken] returns a response whose token
    [t] is non-empty, the token variable of authApiService holds [t] and
    the next request through that module carries [Authorization: Bearer t];
    the token variables of the other services are unchanged, so the request
    interceptor of subscriptionsService behaves as it did before the
    call. *)
Theorem identity_token_sets_own_module_token net d w payload w1 t :
  authApiService.postIdentityToken net d 0 w = (Returned payload, w1) →
  truthy (payload ≫= token) = Some t →
  vars w1 !! AuthApi = Some t
  ∧ (∀ config, headers (authApiService.onRequest w1 config) !! "Authorization"
               = Some (bearer t))
  ∧ (∀ s, s ≠ AuthApi → vars w1 !! s = vars w !! s)
  ∧ (∀ config, subscriptionsService.onRequest w1 config
               = subscriptionsService.onRequest w config).
Proof.
  intros Hcall Ht.
  destruct (postIdentityToken_from_token net d _ _ _ _ _ Hcall) as [Hother Htok].
  assert (Hv : vars w1 !! AuthApi = Some t) by eauto.
  assert (Hne : t ≠ "").
  { unfold truthy in Ht. destruct (payload ≫= token) as [s|]; [|done].
    case_decide; [done|]. by injection Ht as <-. }
  split; [done|]. split; [|split; [done|]].
  - intros config. by apply attach_module_token_Some.
  - intros config. unfold subscriptionsService.onRequest, attach_module_token.
    by rewrite Hother.
Qed.

Lemma identity_token_sets_own_module_token_witness :
  authApiService.postIdentityToken (identity_server "abc") "" 0 world0
  = (Returned (Some (mkPayload (Some "abc") "")),
     (authApiService.postIdentityToken (identity_server "abc") "" 0 world0).2)
  ∧ truthy (Some (mkPayload (Some "abc") "") ≫= token) = Some "abc"
  ∧ vars (authApiService.postIdentityToken (identity_server "abc") "" 0 world0).2
    !! AuthApi = Some "abc".
Proof.
  split; [vm_compute; reflexivity|]. split; [reflexivity|].
  apply (identity_token_sets_own_module_token (identity_server "abc") "" world0
           (Some (mkPayload (Some "abc") "")) _ "abc");
    [vm_compute; reflexivity|reflexivity].
Defined.

(** C5, as stated, fails: after [postIdentityToken] has returned the
    token "abc", a request through subscriptionsService carries no
    [Authorization: Bearer abc] header. *)
Lemma identity_token_not_seen_by_subscriptions :
  ¬ (∀ net d w payload w1,
       authApiService.postIdentityToken net d 0 w = (Returned (Some payload), w1) →
       token payload = Some "abc" →
       ∀ config, headers (subscriptionsService.onRequest w1 config) !! "Authorization"
                 = Some (bearer "abc")).
Proof.
  intros H.
  specialize (H (identity_server "abc") "" world0 (mkPayload (Some "abc") "")
                (authApiService.postIdentityToken (identity_server "abc") "" 0 world0).2).
  specialize (H ltac:(vm_compute; reflexivity) eq_refl
                (mkRequest GET "/api/subscriptions" None None ∅)).
  vm_compute in H. discriminate.
Qed.

(** * Properties of the query cache *)

Lemma getQueryData_setQueryData (k k' : QueryKey) (v : option Data)
    (c : gmap QueryKey Query) :
  getQueryData k' (setQueryData k v c)
  = if decide (k = k')
    then match v with Some d => Some d | None => getQueryData k' c end
    else getQueryData k' c.
Proof.
  unfold getQueryData, setQueryData. destruct v as [d|]; [|by case_decide].
  case_decide as Hk.
  - subst. by rewrite lookup_insert_eq.
  - by rewrite lookup_insert_ne.
Qed.

(** What [cancelQueries] leaves of a query. *)
Lemma lookup_cancelQueries (f k : QueryKey) (c : gmap QueryKey Query) :
  cancelQueries f c !! k
  = (λ q, if partialMatchKey k f
          then match inFlight q with
               | Some (d, i) => mkQuery d i None
               | None => q
               end
          else q) <$> c !! k.
Proof. unfold cancelQueries. rewrite map_lookup_imap. by destruct (c !! k). Qed.

Lemma getQueryData_cancelQueries_other (f k : QueryKey) (c : gmap QueryKey Query) :
  partialMatchKey k f = false →
  getQueryData k (cancelQueries f c) = getQueryData k c.
Proof.
  intros Hk. unfold getQueryData. rewrite lookup_cancelQueries, Hk.
  by destruct (c !! k).
Qed.

(** The data a selected query has once its fetch is cancelled: the data it
    had when the fetch started, or its present data when it is not being
    fetched. *)
Lemma getQueryData_cancelQueries_selected (f k : QueryKey) (c : gmap QueryKey Query) :
  partialMatchKey k f = true →
  getQueryData k (cancelQueries f c)
  = match c !! k with
    | Some q => match inFlight q with Some (d, _) => d | None => qdata q end
    | None => None
    end.
Proof.
  intros Hk. unfold getQueryData. rewrite lookup_cancelQueries, Hk.
  destruct (c !! k) as [q|]; [|done]. cbn. by destruct (inFlight q) as [[d i]|].
Qed.

Lemma getQueryData_invalidateQueries (f k : QueryKey) (c : gmap QueryKey Query) :
  getQueryData k (invalidateQueries f c) = getQueryData k c.
Proof.
  unfold getQueryData, invalidateQueries. rewrite map_lookup_imap.
  destruct (c !! k) as [q|]; [|done]. cbn. by destruct (partialMatchKey k f).
Qed.

Lemma lookup_cancelQueries_is_Some (f k : QueryKey) (c : gmap QueryKey Query) :
  is_Some (cancelQueries f c !! k) ↔ is_Some (c !! k).
Proof. rewrite lookup_cancelQueries. apply fmap_is_Some. Qed.

(** A cancelled query is not being fetched. *)
Lemma idle_cancelQueries (f : QueryKey) (c : gmap QueryKey Query) :
  idle f (cancelQueries f c).
Proof.
  intros k q. rewrite lookup_cancelQueries.
  destruct (c !! k) as [q0|]; [|done]. cbn. intros [= <-] ->.
  by destruct (inFlight q0) as [[d i]|] eqn:Hq.
Qed.

(** Where no fetch is in flight, [cancelQueries] changes nothing. *)
Lemma cancelQueries_idle (f : QueryKey) (c : gmap QueryKey Query) :
  idle f c → cancelQueries f c = c.
Proof.
  intros Hidle. apply map_eq. intros k. rewrite lookup_cancelQueries.
  destruct (c !! k) as [q|] eqn:Hq; [|done]. cbn.
  destruct (partialMatchKey k f) eqn:Hk; [|done].
  by rewrite (Hidle k q Hq Hk).
Qed.

Lemma cancelQueries_cancelQueries (f : QueryKey) (c : gmap QueryKey Query) :
  cancelQueries f (cancelQueries f c) = cancelQueries f c.
Proof. apply cancelQueries_idle, idle_cancelQueries. Qed.

Lemma idle_setQueryData (f k : QueryKey) (v : option Data) (c : gmap QueryKey Query) :
  idle f c → idle f (setQueryData k v c).
Proof.
  intros Hidle k' q. unfold setQueryData. destruct v as [d|]; [|apply Hidle].
  destruct (decide (k = k')) as [<-|Hne].
  - rewrite lookup_insert_eq. intros [= <-] Hk. cbn.
    destruct (c !! k) as [q0|] eqn:Hq0; [|done]. by apply (Hidle k q0).
  - rewrite lookup_insert_ne by done. apply Hidle.
Qed.

(** After [invalidateQueries], every selected query is marked. *)
Lemma invalidateQueries_marks (f k : QueryKey) (q : Query)
    (c : gmap QueryKey Query) :
  invalidateQueries f c !! k = Some q →
  partialMatchKey k f = true → isInvalidated q = true.
Proof.
  unfold invalidateQueries. rewrite map_lookup_imap.
  destruct (c !! k) as [q0|]; [|done]. cbn. intros [= <-] ->. done.
Qed.

Lemma invalidateQueries_other (f k : QueryKey) (c : gmap QueryKey Query) :
  partialMatchKey k f = false → invalidateQueries f c !! k = c !! k.
Proof.
  intros Hf. unfold invalidateQueries. rewrite map_lookup_imap.
  destruct (c !! k) as [q0|]; [|done]. cbn. by rewrite Hf.
Qed.

Lemma invalidateQueries_is_Some (f k : QueryKey) (c : gmap QueryKey Query) :
  is_Some (invalidateQueries f c !! k) ↔ is_Some (c !! k).
Proof.
  unfold invalidateQueries. rewrite map_lookup_imap.
  destruct (c !! k); cbn; split; intros [? ?]; eauto; done.
Qed.

Lemma NoDup_fst_filter {A B} (P : A * B → Prop) `{∀ x, Decision (P x)}
    (l : list (A * B)) :
  NoDup l.*1 → NoDup (filter P l).*1.
Proof.
  induction l as [|x l IH]; [done|]. rewrite fmap_cons, NoDup_cons.
  intros [Hx Hl]. rewrite filter_cons. case_decide; [|by apply IH].
  rewrite fmap_cons, NoDup_cons. split; [|by apply IH].
  intros Hin. apply Hx. apply list_elem_of_fmap in Hin as (y & -> & Hy).
  apply list_elem_of_filter in Hy as [_ Hy]. by apply list_elem_of_fmap_2.
Qed.

Lemma findAll_elem (f : QueryKey) (c : gmap QueryKey Query) (k : QueryKey)
    (q : Query) :
  (k, q) ∈ findAll f c ↔ partialMatchKey k f = true ∧ c !! k = Some q.
Proof.
  unfold findAll. rewrite list_elem_of_filter, elem_of_map_to_list. done.
Qed.

Lemma findAll_NoDup (f : QueryKey) (c : gmap QueryKey Query) : NoDup (findAll f c).*1.
Proof. apply NoDup_fst_filter, NoDup_fst_map_to_list. Qed.

Lemma findAll_keys (f : QueryKey) (c : gmap QueryKey Query) (k : QueryKey) :
  k ∈ (findAll f c).*1 ↔ partialMatchKey k f = true ∧ is_Some (c !! k).
Proof.
  rewrite list_elem_of_fmap. split.
  - intros ([k' q] & -> & Hin). apply findAll_elem in Hin as [? ?]. eauto.
  - intros [Hf [q Hq]]. exists (k, q). split; [done|]. by apply findAll_elem.
Qed.

Lemma foldr_updateQueryData (u : QueryKey → option Data → option Data)
    (l : list (QueryKey * Query)) (c : gmap QueryKey Query) (k : QueryKey) :
  NoDup l.*1 →
  getQueryData k (foldr (λ kq acc, updateQueryData kq.1 (u kq.1) acc) c l)
  = if decide (k ∈ l.*1)
    then match u k (getQueryData k c) with
         | Some d => Some d
         | None => getQueryData k c
         end
    else getQueryData k c.
Proof.
  induction l as [|[k0 q0] l IH]; cbn [foldr fmap list_fmap fst].
  - intros _. rewrite decide_False; [done|]. apply not_elem_of_nil.
  - rewrite NoDup_cons. intros [Hk0 Hl]. unfold updateQueryData at 1.
    rewrite getQueryData_setQueryData. destruct (decide (k0 = k)) as [->|Hne].
    + rewrite decide_True by apply list_elem_of_here.
      rewrite (IH Hl), decide_False by done. done.
    + rewrite (IH Hl). destruct (decide (k ∈ l.*1)) as [Hin|Hnin].
      * rewrite decide_True by (by apply list_elem_of_further). done.
      * rewrite decide_False; [done|]. rewrite elem_of_cons. intros [?|?]; congruence.
Qed.

Lemma getQueryData_setQueriesData (f : QueryKey)
    (u : QueryKey → option Data → option Data)
    (c : gmap QueryKey Query) (k : QueryKey) :
  getQueryData k (setQueriesData f u c)
  = if decide (k ∈ (findAll f c).*1)
    then match u k (getQueryData k c) with
         | Some d => Some d
         | None => getQueryData k c
         end
    else getQueryData k c.
Proof. apply foldr_updateQueryData, findAll_NoDup. Qed.

Lemma idle_setQueriesData (f g : QueryKey) (u : QueryKey → option Data → option Data)
    (c : gmap QueryKey Query) :
  idle f c → idle f (setQueriesData g u c).
Proof.
  intros Hidle. unfold setQueriesData.
  induction (findAll g c) as [|[k0 q0] l IH]; cbn [foldr fst]; [done|].
  by apply idle_setQueryData.
Qed.

Lemma getQueryData_restore (prev : list (QueryKey * option Data))
    (c : gmap QueryKey Query) (k : QueryKey) :
  NoDup prev.*1 →
  getQueryData k (usePaymentMethods.restore prev c)
  = match (list_to_map prev : gmap QueryKey (option Data)) !! k with
    | Some (Some d) => Some d
    | _ => getQueryData k c
    end.
Proof.
  unfold usePaymentMethods.restore. revert c.
  induction prev as [|[k0 v0] l IH]; intros c; cbn [foldl fmap list_fmap fst snd].
  - intros _. by rewrite list_to_map_nil, lookup_empty.
  - rewrite NoDup_cons. intros [Hk0 Hl]. rewrite (IH _ Hl).
    rewrite list_to_map_cons, getQueryData_setQueryData.
    destruct (decide (k0 = k)) as [->|Hne].
    + rewrite lookup_insert_eq.
      by rewrite (not_elem_of_list_to_map_1 l k) by done.
    + rewrite lookup_insert_ne by done. done.
Qed.

Lemma getQueriesData_fst (f : QueryKey) (c : gmap QueryKey Query) :
  (getQueriesData f c).*1 = (findAll f c).*1.
Proof. unfold getQueriesData. rewrite <- list_fmap_compose. done. Qed.

Lemma getQueriesData_lookup (f : QueryKey) (c : gmap QueryKey Query) (k : QueryKey) :
  (list_to_map (getQueriesData f c) : gmap QueryKey (option Data)) !! k
  = if decide (k ∈ (findAll f c).*1) then qdata <$> c !! k else None.
Proof.
  case_decide as Hin.
  - apply findAll_keys in Hin as [Hf [q Hq]]. rewrite Hq. cbn.
    apply elem_of_list_to_map; [rewrite getQueriesData_fst; apply findAll_NoDup|].
    unfold getQueriesData. apply list_elem_of_fmap. exists (k, q). split; [done|].
    by apply findAll_elem.
  - apply not_elem_of_list_to_map_1. by rewrite getQueriesData_fst.
Qed.

(** A write made while a fetch is in flight is lost when the fetch is
    cancelled: the query goes back to what it held when the fetch began. *)
Lemma cancelQueries_discards_write (f k : QueryKey) (c : gmap QueryKey Query)
    (q : Query) (d : Data) :
  c !! k = Some q → inFlight q = None → partialMatchKey k f = true →
  cancelQueries f (setQueryData k (Some d) (fetch k c)) !! k
  = Some (mkQuery (qdata q) (isInvalidated q) None).
Proof.
  intros Hq Hi Hk. rewrite lookup_cancelQueries. unfold setQueryData, fetch.
  rewrite Hq, Hi, !lookup_insert_eq. cbn. by rewrite Hk.
Qed.

(** * Counts *)

Lemma round_double_small (z : Z) : Z.abs z < 2 ^ 53 → round_double z = z.
Proof. intros H. unfold round_double. by rewrite bool_decide_eq_true_2. Qed.

(** Below [2^53] a count goes up by one; at [2^53] it stays where it is. *)
Lemma js_add_1_small (n : Z) : - 2 ^ 53 ≤ n < 2 ^ 53 - 1 → js_add n 1 = n + 1.
Proof. intros H. unfold js_add. apply round_double_small. lia. Qed.

Example js_add_1_at_2_53 : js_add (2 ^ 53) 1 = 2 ^ 53.
Proof. vm_compute. reflexivity. Qed.

(** * Properties of the mutation hooks *)

Lemma snapshot_and_patch_restore (u : QueryKey → option Data → option Data)
    (cl : Client) (k : QueryKey) :
  (∀ k', u k' None = None) →
  getQueryData k
    (usePaymentMethods.restore (usePaymentMethods.snapshot_and_patch u cl).1
       (cache (usePaymentMethods.snapshot_and_patch u cl).2))
  = getQueryData k (cancelQueries usePaymentMethods.filterKey (cache cl)).
Proof.
  intros Hu. unfold usePaymentMethods.snapshot_and_patch. cbn [fst snd with_cache cache].
  set (c0 := cancelQueries usePaymentMethods.filterKey (cache cl)).
  rewrite getQueryData_restore
    by (rewrite getQueriesData_fst; apply findAll_NoDup).
  rewrite getQueriesData_lookup, getQueryData_setQueriesData.
  case_decide as Hin; [|done].
  apply findAll_keys in Hin as [_ [q Hq]]. rewrite Hq. cbn.
  unfold getQueryData. rewrite Hq. cbn.
  destruct (qdata q) as [d|]; [done|]. by rewrite Hu.
Qed.

Lemma snapshot_and_patch_visible (u : QueryKey → option Data → option Data)
    (cl : Client) (k : QueryKey) (d d' : Data) :
  partialMatchKey k usePaymentMethods.filterKey = true →
  getQueryData k (cancelQueries usePaymentMethods.filterKey (cache cl)) = Some d →
  u k (Some d) = Some d' →
  getQueryData k (cache (usePaymentMethods.snapshot_and_patch u cl).2) = Some d'.
Proof.
  intros Hk Hd Hu. unfold usePaymentMethods.snapshot_and_patch. cbn [snd with_cache cache].
  rewrite getQueryData_setQueriesData, Hd, Hu.
  rewrite decide_True; [done|]. apply findAll_keys. split; [done|].
  unfold getQueryData in Hd.
  destruct (cancelQueries usePaymentMethods.filterKey (cache cl) !! k); [eauto|done].
Qed.






Example createPaymentMethod_patch_client0 :
  getQueryData (usePaymentMethods.usePaymentMethods_key None)
    (cache (onMutate usePaymentMethods.useCreatePaymentMethod new_card client0).2)
  = Some (PaymentMethodsPage
            (mkPage [mkPaymentMethod "optimistic-x7" false "card" None; visa; sepa]
                    2 1 10)).
Proof. vm_compute. reflexivity. Qed.

(** With a fetch in flight, the snapshot and the patch are taken from the
    page the fetch started from, not from the page that was in the cache
    when the mutation began; a failed mutation leaves the former. *)
Example createPaymentMethod_on_fetching_query :
  getQueryData (usePaymentMethods.usePaymentMethods_key None) (cache client_busy)
  = Some (PaymentMethodsPage (mkPage [sepa] 1 1 10))
  ∧ getQueryData (usePaymentMethods.usePaymentMethods_key None)
      (cache (onMutate usePaymentMethods.useCreatePaymentMethod new_card client_busy).2)
    = Some (PaymentMethodsPage
              (mkPage [mkPaymentMethod "optimistic-x7" false "card" None; visa; sepa]
                      2 1 10))
  ∧ getQueryData (usePaymentMethods.usePaymentMethods_key None)
      (cache (mutate usePaymentMethods.useCreatePaymentMethod (Some Undefined)
                new_card client_busy))
    = Some (PaymentMethodsPage (mkPage [visa; sepa] 2 1 10)).
Proof. repeat split; vm_compute; reflexivity. Qed.

(** Each cached list gets a placeholder id of its own. *)
Example createPaymentMethod_ids_differ_per_query :
  let cl := with_cache
              (<[usePaymentMethods.usePaymentMethods_key (Some (mkParams (Some 2) None)) :=
                   mkQuery (Some (PaymentMethodsPage (mkPage [] 2 2 10))) false None]>)
              client0 in
  let cl' := (onMutate usePaymentMethods.useCreatePaymentMethod new_card cl).2 in
  getQueryData (usePaymentMethods.usePaymentMethods_key None) (cache cl')
  = Some (PaymentMethodsPage
            (mkPage [mkPaymentMethod "optimistic-x7" false "card" None; visa; sepa]
                    2 1 10))
  ∧ getQueryData (usePaymentMethods.usePaymentMethods_key (Some (mkParams (Some 2) None)))
      (cache cl')
    = Some (PaymentMethodsPage
              (mkPage [mkPaymentMethod "optimistic-k3" false "card" None] 2 2 10)).
Proof. split; vm_compute; reflexivity. Qed.


Lemma cache_when_call (b : bool) (cb : Callback) (cl : Client) :
  cache (when b (call cb) cl) = cache cl.
Proof. by destruct b. Qed.

Lemma called_when_call (b : bool) (cb : Callback) (cl : Client) :
  called (when b (call cb) cl) = called cl ++ (if b then [cb] else []).
Proof. destruct b; cbn; [done|by rewrite app_nil_r]. Qed.

Lemma updater_defined (P : string) (d : option Data) :
  match useRecurringPaymentMethod.updater P d with Some d' => Some d' | None => d end
  = useRecurringPaymentMethod.updater P d.
Proof. by destruct d as [[]|]. Qed.

(** What the [onMutate] of the recurring hook leaves under every key. *)
Lemma recurring_onMutate_data (o : Options) (P : string) (cl : Client) (k : QueryKey) :
  getQueryData k (cache (useRecurringPaymentMethod.recurring_onMutate o P cl).2)
  = if decide (k = useRecurringPaymentMethod.paymentMethodsKey)
    then useRecurringPaymentMethod.updater P
           (getQueryData k
              (cancelQueries useRecurringPaymentMethod.paymentMethodsKey (cache cl)))
    else getQueryData k
           (cancelQueries useRecurringPaymentMethod.paymentMethodsKey (cache cl)).
Proof.
  unfold useRecurringPaymentMethod.recurring_onMutate, updateQueryData.
  cbn [snd with_cache cache].
  rewrite getQueryData_setQueryData, cache_when_call.
  destruct (decide (useRecurringPaymentMethod.paymentMethodsKey = k)) as [<-|Hne].
  - rewrite decide_True by done. apply updater_defined.
  - rewrite decide_False by done. done.
Qed.

Lemma recurring_onMutate_snapshot (o : Options) (P : string) (cl : Client) :
  (useRecurringPaymentMethod.recurring_onMutate o P cl).1
  = getQueryData useRecurringPaymentMethod.paymentMethodsKey
      (cancelQueries useRecurringPaymentMethod.paymentMethodsKey (cache cl)).
Proof.
  unfold useRecurringPaymentMethod.recurring_onMutate. cbn [fst with_cache cache].
  by rewrite cache_when_call.
Qed.




Example setDefault_client1 :
  getQueryData useRecurringPaymentMethod.paymentMethodsKey
    (cache (onMutate (useRecurringPaymentMethod.useRecurringPaymentMethod no_options)
              "pm_2" client1).2)
  = Some (PaymentMethodsPage
            (mkPage [mkPaymentMethod "pm_1" false "card" None;
                     mkPaymentMethod "pm_2" true "sepa" None] 2 1 10)).
Proof. vm_compute. reflexivity. Qed.

(** The list that [usePaymentMethods()] caches keeps its old default. *)
Example setDefault_client0 :
  getQueryData (usePaymentMethods.usePaymentMethods_key None)
    (cache (onMutate (useRecurringPaymentMethod.useRecurringPaymentMethod no_options)
              "pm_2" client0).2)
  = Some (PaymentMethodsPage (mkPage [visa; sepa] 2 1 10)).
Proof. vm_compute. reflexivity. Qed.

Lemma invalidated_invalidateQueries (f : QueryKey) (cl : Client) :
  invalidated f (with_cache (invalidateQueries f) cl).
Proof. intros k q Hq Hk. exact (invalidateQueries_marks f k q (cache cl) Hq Hk). Qed.

Lemma invalidated_call (f : QueryKey) (b : bool) (cb : Callback) (cl : Client) :
  invalidated f cl → invalidated f (when b (call cb) cl).
Proof. by destruct b. Qed.

Lemma invalidated_invalidateQueries_other (f g : QueryKey) (cl : Client) :
  invalidated f cl → invalidated f (with_cache (invalidateQueries g) cl).
Proof.
  intros H k q. cbn [with_cache cache]. unfold invalidateQueries.
  rewrite map_lookup_imap. destruct (cache cl !! k) as [q0|] eqn:Hq0; [|done]. cbn.
  intros [= <-] Hk. destruct (partialMatchKey k g); [done|]. by eapply H.
Qed.

(** The recurring hook marks nothing when the call fails: a query that is
    marked afterwards was marked when [onMutate] had cancelled the
    fetches. *)
Lemma recurring_failure_marks_nothing (o : Options) (cl : Client) (err : Thrown)
    (P : string) (k : QueryKey) (q' : Query) :
  cache (mutate (useRecurringPaymentMethod.useRecurringPaymentMethod o) (Some err) P cl)
    !! k = Some q' →
  isInvalidated q' = true →
  ∃ q, cancelQueries useRecurringPaymentMethod.paymentMethodsKey (cache cl) !! k = Some q
       ∧ isInvalidated q = true.
Proof.
  revert q'.
  pose (Q := λ c : gmap QueryKey Query,
          ∀ q', c !! k = Some q' → isInvalidated q' = true →
                ∃ q, cancelQueries useRecurringPaymentMethod.paymentMethodsKey (cache cl)
                       !! k = Some q ∧ isInvalidated q = true).
  change (Q (cache (mutate (useRecurringPaymentMethod.useRecurringPaymentMethod o)
                      (Some err) P cl))).
  assert (Hcancel : Q (cancelQueries useRecurringPaymentMethod.paymentMethodsKey
                         (cache cl))).
  { intros q1 Hq1 Hi. eauto. }
  assert (Hset : ∀ k0 (v : option Data) (c : gmap QueryKey Query),
            Q c → Q (setQueryData k0 v c)).
  { intros k0 v c Hc q1. unfold setQueryData. destruct v as [d|]; [|apply Hc].
    destruct (decide (k0 = k)) as [<-|Hne].
    - rewrite lookup_insert_eq. by intros [= <-].
    - rewrite lookup_insert_ne by done. apply Hc. }
  unfold mutate, settle. cbn [onMutate onError onSettled
    useRecurringPaymentMethod.useRecurringPaymentMethod].
  unfold useRecurringPaymentMethod.recurring_onMutate,
    useRecurringPaymentMethod.recurring_onError, updateQueryData.
  destruct (has_optimisticUpdate o), (has_onError o), (has_rollback o);
    cbn [when call cache with_cache fst snd];
    (destruct (getQueryData _ _) as [previous|] in |- * at 1);
    cbn [when call cache with_cache fst snd];
    repeat apply Hset; apply Hcancel.
Qed.

(** C8 (amended).  The create-customer, create- and delete-payment-method
    and create-subscription mutations mark every cached query under their
    key prefix for refetch once settled, after success and after failure
    alike.  The recurring-payment-method mutation marks the queries under
    ['payment-methods'] and ['default-payment-method'] after success only.
    After a failure it marks nothing: a query is marked at the end only if
    it was marked once [onMutate] had cancelled the fetches, and the
    failure handlers themselves leave no query marked that was not marked
    when they began. *)
Theorem settle_invalidation (o : Options) (cl : Client) (outcome : option Thrown)
    (err : Thrown) (vc : useCustomers.Variables)
    (vp : usePaymentMethods.CreateVariables) (vd : string) (vs : SubscriptionEntry)
    (P : string) :
  invalidated useCustomers.customersKey
    (mutate (useCustomers.useCreateCustomer o) outcome vc cl)
  ∧ invalidated usePaymentMethods.filterKey
      (mutate usePaymentMethods.useCreatePaymentMethod outcome vp cl)
  ∧ invalidated usePaymentMethods.filterKey
      (mutate usePaymentMethods.useDeletePaymentMethod outcome vd cl)
  ∧ invalidated useSubscriptions.filterKey
      (mutate useSubscriptions.useCreateSubscription outcome vs cl)
  ∧ invalidated useRecurringPaymentMethod.paymentMethodsKey
      (mutate (useRecurringPaymentMethod.useRecurringPaymentMethod o) None P cl)
  ∧ invalidated useRecurringPaymentMethod.defaultPaymentMethodKey
      (mutate (useRecurringPaymentMethod.useRecurringPaymentMethod o) None P cl)
  ∧ (∀ k q',
       cache (mutate (useRecurringPaymentMethod.useRecurringPaymentMethod o)
                (Some err) P cl) !! k = Some q' →
       isInvalidated q' = true →
       ∃ q, cancelQueries useRecurringPaymentMethod.paymentMethodsKey (cache cl) !! k
            = Some q
            ∧ isInvalidated q = true)
  ∧ (∀ ctx cl1 k q',
       cache (settle (useRecurringPaymentMethod.useRecurringPaymentMethod o)
                (Some err) P ctx cl1) !! k = Some q' →
       isInvalidated q' = true →
       ∃ q, cache cl1 !! k = Some q ∧ isInvalidated q = true).
Proof.
  repeat split.
  - unfold mutate. destruct (onMutate _ vc cl) as [ctx cl1].
    destruct outcome; apply invalidated_invalidateQueries.
  - unfold mutate. destruct (onMutate _ vp cl) as [ctx cl1].
    destruct outcome; apply invalidated_invalidateQueries.
  - unfold mutate. destruct (onMutate _ vd cl) as [ctx cl1].
    destruct outcome; apply invalidated_invalidateQueries.
  - unfold mutate. destruct (onMutate _ vs cl) as [ctx cl1].
    destruct outcome; apply invalidated_invalidateQueries.
  - unfold mutate. destruct (onMutate _ P cl) as [ctx cl1].
    apply invalidated_call, invalidated_invalidateQueries_other,
      invalidated_invalidateQueries.
  - unfold mutate. destruct (onMutate _ P cl) as [ctx cl1].
    apply invalidated_call, invalidated_invalidateQueries.
  - intros k q'. apply recurring_failure_marks_nothing.
  - intros ctx cl1 k q'. unfold settle.
    cbn [onError onSettled useRecurringPaymentMethod.useRecurringPaymentMethod].
    unfold useRecurringPaymentMethod.recurring_onError. rewrite cache_when_call.
    destruct ctx as [previous|]; cbn [with_cache cache]; rewrite ?cache_when_call;
      [|by eauto].
    unfold setQueryData.
    destruct (decide (useRecurringPaymentMethod.paymentMethodsKey = k)) as [<-|Hne].
    + rewrite lookup_insert_eq. by intros [= <-].
    + rewrite lookup_insert_ne by done. eauto.
Qed.

(** C8, as stated, fails on [useRecurringPaymentMethod]: after a failed
    call the cached payment-methods query is not marked for refetch. *)
Lemma recurring_failure_does_not_invalidate :
  ¬ (∀ o cl err P,
       invalidated useRecurringPaymentMethod.paymentMethodsKey
         (mutate (useRecurringPaymentMethod.useRecurringPaymentMethod o)
            (Some err) P cl)).
Proof.
  intros H.
  specialize (H no_options client0 Undefined "pm_2"
                (usePaymentMethods.usePaymentMethods_key None)
                (mkQuery (Some (PaymentMethodsPage (mkPage [visa; sepa] 2 1 10)))
                         false None)).
  specialize (H ltac:(vm_compute; reflexivity) eq_refl). discriminate.
Qed.

(** A query whose fetch began while it was marked and that was written to
    since is unmarked; the mutation cancels the fetch, which puts the mark
    back. *)
Example recurring_failure_reverts_mark :
  let k := usePaymentMethods.usePaymentMethods_key None in
  let page := Some (PaymentMethodsPage (mkPage [visa; sepa] 2 1 10)) in
  let c := setQueryData k page (fetch k (<[k := mkQuery page true None]> ∅)) in
  isInvalidated <$> c !! k = Some false
  ∧ isInvalidated
      <$> cache (mutate (useRecurringPaymentMethod.useRecurringPaymentMethod no_options)
                   (Some Undefined) "pm_2" (mkClient c [])) !! k
    = Some true.
Proof. split; vm_compute; reflexivity. Qed.

Lemma patch_of_defined (m : Mutation) (k : QueryKey) (d : option Data) :
  match patch_of m k d with Some d' => Some d' | None => d end = patch_of m k d.
Proof. by destruct m, d as [[]|]. Qed.

Lemma snapshot_and_patch_touched (u : QueryKey → option Data → option Data)
    (cl : Client) (k : QueryKey) :
  partialMatchKey k usePaymentMethods.filterKey = true → is_Some (cache cl !! k) →
  getQueryData k (cache (usePaymentMethods.snapshot_and_patch u cl).2)
  = match u k (getQueryData k (on_begin cl)) with
    | Some d' => Some d'
    | None => getQueryData k (on_begin cl)
    end
  ∧ (list_to_map (usePaymentMethods.snapshot_and_patch u cl).1
       : gmap QueryKey (option Data)) !! k = Some (getQueryData k (on_begin cl)).
Proof.
  intros Hk Hs. unfold usePaymentMethods.snapshot_and_patch, on_begin.
  cbn [fst snd with_cache cache].
  set (c0 := cancelQueries usePaymentMethods.filterKey (cache cl)).
  assert (Hin : k ∈ (findAll usePaymentMethods.filterKey c0).*1).
  { apply findAll_keys. split; [done|]. by apply lookup_cancelQueries_is_Some. }
  rewrite getQueryData_setQueriesData, getQueriesData_lookup, !decide_True by done.
  split; [done|].
  apply (lookup_cancelQueries_is_Some usePaymentMethods.filterKey) in Hs as [q0 Hq0].
  fold c0 in Hq0. unfold getQueryData. by rewrite Hq0.
Qed.

Lemma begin_touched (m : Mutation) (cl : Client) (k : QueryKey) :
  touches m k (cache cl) = true →
  getQueryData k (cache (begin m cl).2) = patch_of m k (getQueryData k (on_begin cl))
  ∧ baseline (begin m cl).1 k = Some (getQueryData k (on_begin cl)).
Proof.
  destruct m as [v|i|o i]; cbn [touches begin patch_of onMutate
    usePaymentMethods.useCreatePaymentMethod usePaymentMethods.useDeletePaymentMethod
    useRecurringPaymentMethod.useRecurringPaymentMethod].
  - intros [Hk Hs%bool_decide_eq_true]%andb_true_iff.
    pose proof (snapshot_and_patch_touched (usePaymentMethods.create_updater v) cl k Hk Hs)
      as [H1 H2].
    destruct (usePaymentMethods.snapshot_and_patch _ cl) as [prev cl1].
    cbn [fst snd baseline] in *. split; [|done].
    rewrite H1. apply (patch_of_defined (Create v)).
  - intros [Hk Hs%bool_decide_eq_true]%andb_true_iff.
    pose proof (snapshot_and_patch_touched (λ _, usePaymentMethods.delete_updater i)
                  cl k Hk Hs) as [H1 H2].
    destruct (usePaymentMethods.snapshot_and_patch _ cl) as [prev cl1].
    cbn [fst snd baseline] in *. split; [|done].
    rewrite H1. apply (patch_of_defined (Delete i) k).
  - intros ->%bool_decide_eq_true.
    pose proof (recurring_onMutate_data o i cl useRecurringPaymentMethod.paymentMethodsKey)
      as Hd.
    rewrite decide_True in Hd by done.
    pose proof (recurring_onMutate_snapshot o i cl) as Hs.
    destruct (useRecurringPaymentMethod.recurring_onMutate o i cl) as [c cl'].
    cbn [fst snd] in *. split; [exact Hd|].
    cbn [baseline]. rewrite decide_True by done. by rewrite Hs.
Qed.

(** When a mutation has begun, no fetch under ['payment-methods'] is in
    flight, so the next one to begin reads the cache as it is. *)
Lemma begin_idle (m : Mutation) (cl : Client) :
  idle usePaymentMethods.filterKey (cache (begin m cl).2).
Proof.
  destruct m as [v|i|o i]; cbn [begin onMutate
    usePaymentMethods.useCreatePaymentMethod usePaymentMethods.useDeletePaymentMethod
    useRecurringPaymentMethod.useRecurringPaymentMethod].
  - unfold usePaymentMethods.snapshot_and_patch. cbn [snd with_cache cache].
    apply idle_setQueriesData, idle_cancelQueries.
  - unfold usePaymentMethods.snapshot_and_patch. cbn [snd with_cache cache].
    apply idle_setQueriesData, idle_cancelQueries.
  - unfold useRecurringPaymentMethod.recurring_onMutate, updateQueryData.
    cbn [snd with_cache cache]. apply idle_setQueryData.
    apply (idle_cancelQueries usePaymentMethods.filterKey).
Qed.

Lemma on_begin_begin (m : Mutation) (cl : Client) :
  on_begin (begin m cl).2 = cache (begin m cl).2.
Proof. apply cancelQueries_idle, begin_idle. Qed.

(** C9 (amended).  When a second payment-methods mutation begins while the
    first is pending, both are unreconciled at once: on an entry that both
    patch, the first leaves its patch on the data found once the fetches
    are cancelled, the rollback baseline recorded by the second is the
    state the first patch produced, and the visible state is the second
    patch overlaid on the first. *)
Theorem second_baseline_is_first_patch (cl : Client) (m1 m2 : Mutation) (k : QueryKey) :
  let s0 := mkSession cl [] in
  let s1 := mkSession (begin m1 cl).2 [(m1, (begin m1 cl).1)] in
  let s2 := mkSession (begin m2 (client s1)).2
                      [(m1, (begin m1 cl).1); (m2, (begin m2 (client s1)).1)] in
  touches m1 k (cache cl) = true →
  touches m2 k (cache (client s1)) = true →
  step s0 s1 ∧ step s1 s2
  ∧ visible k s1 = patch_of m1 k (getQueryData k (on_begin cl))
  ∧ baseline (begin m2 (client s1)).1 k = Some (visible k s1)
  ∧ visible k s2 = patch_of m2 k (patch_of m1 k (getQueryData k (on_begin cl))).
Proof.
  intros s0 s1 s2 H1 H2.
  destruct (begin_touched m1 cl k H1) as [Hv1 _].
  destruct (begin_touched m2 (client s1) k H2) as [Hv2 Hb2].
  cbn [client s1] in Hv2, Hb2. rewrite on_begin_begin in Hv2, Hb2.
  split; [apply (step_begin s0 m1)|]. split; [apply (step_begin s1 m2)|].
  split; [exact Hv1|]. split; [exact Hb2|].
  unfold visible. cbn [client s2 s1]. rewrite Hv2. by rewrite Hv1.
Qed.

Lemma second_baseline_is_first_patch_witness :
  touches card_x7 (usePaymentMethods.usePaymentMethods_key None) (cache client_busy)
  = true
  ∧ touches card_q2 (usePaymentMethods.usePaymentMethods_key None)
      (cache (begin card_x7 client_busy).2) = true
  ∧ visible (usePaymentMethods.usePaymentMethods_key None)
      (mkSession (begin card_q2 (begin card_x7 client_busy).2).2
         [(card_x7, (begin card_x7 client_busy).1);
          (card_q2, (begin card_q2 (begin card_x7 client_busy).2).1)])
    = patch_of card_q2 (usePaymentMethods.usePaymentMethods_key None)
        (patch_of card_x7 (usePaymentMethods.usePaymentMethods_key None)
           (getQueryData (usePaymentMethods.usePaymentMethods_key None)
              (on_begin client_busy))).
Proof.
  split; [vm_compute; reflexivity|]. split; [vm_compute; reflexivity|].
  destruct (second_baseline_is_first_patch client_busy card_x7 card_q2
              (usePaymentMethods.usePaymentMethods_key None))
    as (_ & _ & _ & _ & H); [vm_compute; reflexivity|vm_compute; reflexivity|exact H].
Defined.

Lemma patch_of_size (m : Mutation) (k : QueryKey) (d : option Data) :
  (size_of (patch_of m k d) ≤ S (size_of d))%nat.
Proof.
  destruct m as [v|i|o i], d as [[p|p|p|r]|]; cbn; try lia.
  - pose proof (length_filter (λ m, id m ≠ i) (entries p)). lia.
  - rewrite length_fmap. lia.
Qed.

(** C9, as stated, fails: a state with two pending create mutations is
    reachable in which the visible page is neither the confirmed snapshot
    nor that snapshot under a single pending patch. *)
Lemma two_patches_overlaid :
  ¬ (∀ cl s, rtc step (mkSession cl []) s → at_most_one_patch (cache cl) s).
Proof.
  intros H.
  pose (s1 := mkSession (begin card_x7 client0).2 [(card_x7, (begin card_x7 client0).1)]).
  pose (s2 := mkSession (begin card_q2 (client s1)).2
                [(card_x7, (begin card_x7 client0).1);
                 (card_q2, (begin card_q2 (client s1)).1)]).
  assert (Hreach : rtc step (mkSession client0 []) s2).
  { eapply rtc_l; [apply (step_begin (mkSession client0 []) card_x7)|].
    eapply rtc_l; [apply (step_begin s1 card_q2)|]. apply rtc_refl. }
  destruct (H client0 s2 Hreach (usePaymentMethods.usePaymentMethods_key None))
    as [Hv|(m & ctx & _ & Hv)].
  - vm_compute in Hv. discriminate.
  - apply (f_equal size_of) in Hv.
    pose proof (patch_of_size m (usePaymentMethods.usePaymentMethods_key None)
                  (getQueryData (usePaymentMethods.usePaymentMethods_key None)
                     (cache client0))) as Hle.
    rewrite <- Hv in Hle. vm_compute in Hle. lia.
Qed.

Example overlapping_patches_visible :
  getQueryData (usePaymentMethods.usePaymentMethods_key None)
    (cache (begin card_q2 (begin card_x7 client0).2).2)
  = Some (PaymentMethodsPage
            (mkPage [mkPaymentMethod "optimistic-q2" false "card" None;
                     mkPaymentMethod "optimistic-x7" false "card" None; visa; sepa]
                    2 1 10)).
Proof. vm_compute. reflexivity. Qed.

(** The first mutation failing while the second is pending puts back the
    snapshot taken before either patch. *)
Example first_rollback_drops_second_patch :
  getQueryData (usePaymentMethods.usePaymentMethods_key None)
    (cache (reconcile card_x7 (begin card_x7 client0).1 (Some Undefined)
              (begin card_q2 (begin card_x7 client0).2).2))
  = Some (PaymentMethodsPage (mkPage [visa; sepa] 2 1 10)).
Proof. vm_compute. reflexivity. Qed.

(** * Frame of the customers mutation *)

Lemma createCustomer_onMutate_frame (v : useCustomers.Variables) (cl : Client)
    (k : QueryKey) :
  k ≠ useCustomers.customersKey →
  getQueryData k (cache (useCustomers.createCustomer_onMutate v cl).2)
  = getQueryData k (cancelQueries useCustomers.customersKey (cache cl)).
Proof.
  intros Hk. unfold useCustomers.createCustomer_onMutate. cbn [snd with_cache cache].
  destruct (getQueryData useCustomers.customersKey _) as [[p| | |]|];
    cbn [with_cache cache]; rewrite ?getQueryData_setQueryData, ?decide_False by done;
    done.
Qed.

Lemma createCustomer_onError_frame (err : Thrown) (v : useCustomers.Variables)
    (ctx : option Data) (cl : Client) (k : QueryKey) :
  k ≠ useCustomers.customersKey →
  getQueryData k (cache (useCustomers.createCustomer_onError err v ctx cl))
  = getQueryData k (cache cl).
Proof.
  intros Hk. unfold useCustomers.createCustomer_onError.
  destruct ctx; [|done]. cbn [with_cache cache].
  by rewrite getQueryData_setQueryData, decide_False by done.
Qed.

Lemma useCustomers_key_selected (p : Params) :
  partialMatchKey (useCustomers.useCustomers_key p) useCustomers.customersKey = true.
Proof. done. Qed.

(** C10.  [useCreateCustomer] reads its snapshot from ['customers'] alone,
    and no handler of the mutation writes to the data stored under
    ['customers', params]: [onError], [onSuccess] and [onSettled] leave it
    as they find it, and after [onMutate] and after the whole mutation,
    whatever the outcome, it is what cancelling the fetches under
    ['customers'] leaves, namely the data the query had when its fetch
    started, or its present data when it is not being fetched; settling
    marks that query for refetch. *)
Theorem createCustomer_patch_misses_useCustomers (o : Options) (cl : Client)
    (v : useCustomers.Variables) (err : Thrown) (ctx : option Data)
    (outcome : option Thrown) (p : Params) :
  let h := useCustomers.useCreateCustomer o in
  let k := useCustomers.useCustomers_key p in
  let c0 := cancelQueries useCustomers.customersKey (cache cl) in
  (onMutate h v cl).1 = getQueryData useCustomers.customersKey c0
  ∧ getQueryData k (cache (onMutate h v cl).2) = getQueryData k c0
  ∧ getQueryData k (cache (onError h err v ctx cl)) = getQueryData k (cache cl)
  ∧ getQueryData k (cache (onSuccess h v ctx cl)) = getQueryData k (cache cl)
  ∧ getQueryData k (cache (onSettled h v ctx cl)) = getQueryData k (cache cl)
  ∧ marked k (onSettled h v ctx cl)
  ∧ getQueryData k (cache (mutate h outcome v cl)) = getQueryData k c0
  ∧ marked k (mutate h outcome v cl)
  ∧ getQueryData k c0
    = match cache cl !! k with
      | Some q => match inFlight q with Some (d, _) => d | None => qdata q end
      | None => None
      end.
Proof.
  intros h k c0.
  assert (Hk : k ≠ useCustomers.customersKey) by done.
  assert (Hsettled : ∀ cl', marked k (onSettled h v ctx cl')).
  { intros cl' q Hq.
    exact (invalidateQueries_marks _ _ _ _ Hq (useCustomers_key_selected p)). }
  split; [|split; [|split; [|split; [|split; [|split; [|split; [|split]]]]]]].
  - done.
  - by apply createCustomer_onMutate_frame.
  - by apply createCustomer_onError_frame.
  - cbn. by destruct (has_onSuccess o).
  - cbn. apply getQueryData_invalidateQueries.
  - apply Hsettled.
  - unfold mutate, settle, h. pose proof (createCustomer_onMutate_frame v cl k Hk) as Hm.
    cbn [onMutate useCustomers.useCreateCustomer].
    destruct (useCustomers.createCustomer_onMutate v cl) as [c cl1].
    cbn [snd] in Hm. destruct outcome as [e|];
      cbn [onSettled onError onSuccess useCustomers.useCreateCustomer];
      unfold useCustomers.createCustomer_onSettled; cbn [with_cache cache];
      rewrite getQueryData_invalidateQueries.
    + by rewrite createCustomer_onError_frame.
    + by destruct (has_onSuccess o).
  - unfold mutate, settle. destruct (onMutate h v cl) as [c cl1].
    destruct outcome; intros q Hq;
      exact (invalidateQueries_marks _ _ _ _ Hq (useCustomers_key_selected p)).
  - apply getQueryData_cancelQueries_selected, useCustomers_key_selected.
Qed.

Example createCustomer_patch_invisible :
  let cl := mkClient
              (<[useCustomers.useCustomers_key (mkParams (Some 1) (Some 10)) :=
                   mkQuery (Some (Customers (mkPage [alice] 1 1 10))) false None]> ∅) [] in
  cache (onMutate (useCustomers.useCreateCustomer no_options) bob cl).2 = cache cl.
Proof. vm_compute. reflexivity. Qed.

(** The page of [useCustomers(params)] does change when the mutation
    begins if its fetch is running and the page was written since: the
    cancelled fetch puts back the page it started from. *)
Example createCustomer_cancel_reverts_useCustomers :
  let k := useCustomers.useCustomers_key (mkParams (Some 1) (Some 10)) in
  let cl := mkClient
              (setQueryData k (Some (Customers (mkPage [alice] 1 1 10)))
                 (fetch k (<[k := mkQuery (Some (Customers (mkPage [] 0 1 10)))
                                          false None]> ∅))) [] in
  getQueryData k (cache cl) = Some (Customers (mkPage [alice] 1 1 10))
  ∧ getQueryData k (cache (onMutate (useCustomers.useCreateCustomer no_options) bob cl).2)
    = Some (Customers (mkPage [] 0 1 10)).
Proof. split; vm_compute; reflexivity. Qed.

(** * Further properties of the transport services *)

Lemma payment_onRejected_transient e w :
  no_response_or_5xx (response e) = true → paymentService.onRejected e w = w.
Proof.
  unfold paymentService.onRejected, no_response_or_5xx.
  destruct (response e) as [r|]; [|done]. intros H%bool_decide_eq_true.
  rewrite decide_False by lia. done.
Qed.

Lemma fails_then_resolves_next net w w1 j resp :
  fails_then_resolves net w (S j) resp →
  length (wire w1) = S (length (wire w)) →
  fails_then_resolves net w1 j resp.
Proof.
  intros [Hf Hr] Hlen. split.
  - intros i r Hi. rewrite Hlen.
    replace (S (length (wire w)) + i)%nat with (length (wire w) + S i)%nat by lia.
    apply Hf. lia.
  - intros r. rewrite Hlen.
    replace (S (length (wire w)) + j)%nat with (length (wire w) + S j)%nat by lia.
    apply Hr.
Qed.

Lemma postPayment_from_recovers net req resp :
  ∀ j budget retries w,
    (j ≤ budget)%nat → (retries + j ≤ paymentService.MAX_RETRIES)%nat →
    fails_then_resolves net w j resp →
    ∃ w', paymentService.postPayment_from net budget req retries w
          = (Returned (rdata resp), w')
          ∧ length (wire w') = (length (wire w) + S j)%nat
          ∧ timers w'
            = timers w ++ ((λ i, paymentService.RETRY_DELAY * (Z.of_nat i + 1))
                             <$> seq retries j)
          ∧ location_href w' = location_href w.
Proof.
  induction j as [|j IH]; intros budget retries w Hb Hr Hnet.
  - destruct Hnet as [_ Hres].
    specialize (Hres (paymentService.onRequest w
      (mkRequest POST (paymentService.apiBaseUrl +:+ "/") None (Some req) ∅))).
    rewrite Nat.add_0_r in Hres.
    exists (push_wire (paymentService.onRequest w
      (mkRequest POST (paymentService.apiBaseUrl +:+ "/") None (Some req) ∅)) w).
    split.
    + destruct budget; cbn [paymentService.postPayment_from];
        unfold try_catch, bind at 1, paymentService.post;
        by rewrite (axios_request_resolved _ _ _ _ _ _ Hres).
    + rewrite length_wire_push. cbn [seq fmap list_fmap]. rewrite app_nil_r.
      split; [lia|done].
  - destruct budget as [|budget]; [lia|].
    pose proof Hnet as [Hf _].
    destruct (Hf 0%nat (paymentService.onRequest w
      (mkRequest POST (paymentService.apiBaseUrl +:+ "/") None (Some req) ∅))
      ltac:(lia)) as (e & He & Ht).
    rewrite Nat.add_0_r in He.
    cbn [paymentService.postPayment_from].
    unfold try_catch, bind at 1, paymentService.post.
    rewrite (axios_request_rejected _ _ _ _ _ _ He).
    rewrite payment_onRejected_transient by done.
    cbn [isAxiosError response_of]. rewrite Ht.
    rewrite bool_decide_eq_true_2 by lia. cbn [andb].
    unfold bind at 1, delay.
    set (w1 := push_timer _ (push_wire _ w)).
    destruct (IH budget (retries + 1)%nat w1) as (w' & Hw' & Hlen & Htim & Hloc);
      [lia|lia| |].
    { eapply fails_then_resolves_next; [exact Hnet|]. unfold w1.
      cbn [push_timer wire]. apply length_wire_push. }
    exists w'. split; [exact Hw'|]. split; [|split].
    + rewrite Hlen. unfold w1. cbn [push_timer wire push_wire]. rewrite length_app.
      cbn [length]. lia.
    + rewrite Htim. unfold w1. cbn [push_timer timers push_wire seq fmap list_fmap].
      rewrite <- app_assoc. cbn [app]. by rewrite Nat.add_1_r.
    + by rewrite Hloc.
Qed.

(** X1.  When the first [j] replies ([j] at most the ceiling 2) are
    failures without a response or with a 5xx status and the next reply is
    a response, [postPayment] returns the data of that response after
    [j + 1] requests, having waited 800 ms, 1600 ms, ... before the
    retries. *)
Theorem postPayment_recovers net req resp j w :
  (j ≤ paymentService.MAX_RETRIES)%nat →
  fails_then_resolves net w j resp →
  ∃ w', paymentService.postPayment net req 0 w = (Returned (rdata resp), w')
        ∧ attempts w w' = S j
        ∧ timers w' = timers w ++ ((λ i, 800 * (Z.of_nat i + 1)) <$> seq 0 j).
Proof.
  intros Hj Hnet.
  destruct (postPayment_from_recovers net req resp j paymentService.MAX_RETRIES 0%nat w)
    as (w' & Hw' & Hlen & Htim & _); [done|lia|done|].
  exists w'. split; [exact Hw'|]. split; [by apply attempts_of_length|exact Htim].
Qed.

Lemma postPayment_recovers_witness :
  (2 ≤ paymentService.MAX_RETRIES)%nat
  ∧ fails_then_resolves (flaky_server 2 503 receipt) world0 2 receipt
  ∧ ∃ w', paymentService.postPayment (flaky_server 2 503 receipt) "{}" 0 world0
          = (Returned (rdata receipt), w')
          ∧ attempts world0 w' = 3%nat
          ∧ timers w' = timers world0 ++ ((λ i, 800 * (Z.of_nat i + 1)) <$> seq 0 2).
Proof.
  assert (H : fails_then_resolves (flaky_server 2 503 receipt) world0 2 receipt).
  { split.
    - intros i r Hi. eexists. unfold flaky_server. cbn [world0 wire length Nat.add].
      rewrite bool_decide_eq_true_2 by done. split; reflexivity.
    - intros r. reflexivity. }
  split; [reflexivity|]. split; [exact H|].
  apply (postPayment_recovers (flaky_server 2 503 receipt) "{}" receipt 2 world0);
    [reflexivity|exact H].
Defined.

(** *** Delays between attempts *)

Lemma axios_request_rejected_quietly net onReq onRej config s :
  always_status net s →
  (∀ e w, wire (onRej e w) = wire w ∧ timers (onRej e w) = timers w) →
  rejected_quietly s (axios_request net onReq onRej config).
Proof.
  intros Hnet Hrej w.
  destruct (Hnet (length (wire w)) (onReq w config)) as (d & m & Hr).
  eexists _, d, _. split; [by apply axios_request_rejected|].
  destruct (Hrej (mkAxiosError (Some (mkErrorResponse s d)) m)
              (push_wire (onReq w config) w)) as [-> ->].
  split; [done|]. split; [apply length_wire_push|done].
Qed.

Lemma payment_onRejected_quiet e w :
  wire (paymentService.onRejected e w) = wire w
  ∧ timers (paymentService.onRejected e w) = timers w.
Proof. unfold paymentService.onRejected. destruct (response e); [case_decide|]; done. Qed.

Lemma postPayment_from_503_delays net req :
  always_status net 503 →
  ∀ budget retries w,
    (retries + budget = paymentService.MAX_RETRIES)%nat →
    ∃ e w', paymentService.postPayment_from net budget req retries w = (Threw e, w')
            ∧ timers w'
              = timers w ++ ((λ i, paymentService.RETRY_DELAY * (Z.of_nat i + 1))
                               <$> seq retries budget).
Proof.
  intros Hnet.
  pose proof (axios_request_rejected_quietly net paymentService.onRequest
                paymentService.onRejected
                (mkRequest POST (paymentService.apiBaseUrl +:+ "/") None (Some req) ∅)
                503 Hnet payment_onRejected_quiet) as Hpost.
  induction budget as [|budget IH]; intros retries w Hb;
    destruct (Hpost w) as (e & d & w' & Hfn & He & _ & Ht);
    cbn [paymentService.postPayment_from];
    unfold try_catch at 1, bind at 1, paymentService.post; rewrite Hfn;
    cbn [isAxiosError response_of]; rewrite He, no_response_or_5xx_Some.
  - rewrite bool_decide_eq_false_2 by lia. cbn [andb].
    rewrite response_data_AxiosErr, He. cbn [mbind option_bind data seq fmap list_fmap].
    rewrite app_nil_r, <- Ht. destruct (truthy_body d); eexists _, _; done.
  - rewrite bool_decide_eq_true_2 by lia.
    rewrite (bool_decide_eq_true_2 (500 ≤ 503)) by lia. cbn [andb].
    unfold bind at 1, delay.
    destruct (IH (retries + 1)%nat
                (push_timer (paymentService.RETRY_DELAY * (Z.of_nat retries + 1)) w'))
      as (e' & w'' & IH1 & IH2); [lia|].
    exists e', w''. split; [exact IH1|]. rewrite IH2.
    cbn [push_timer timers seq fmap list_fmap]. rewrite Ht, <- app_assoc.
    cbn [app]. by rewrite Nat.add_1_r.
Qed.

Lemma invoices_retryRequest_loop_delays {A} (fn : Async A) retries s :
  rejected_quietly s fn → 500 ≤ s →
  ∀ budget attempt w lastError,
    (attempt + budget = S retries)%nat →
    ∃ e w', invoicesService.retryRequest_loop budget fn retries attempt lastError w
            = (Threw e, w')
            ∧ timers w'
              = timers w ++ ((λ i, 500 * (Z.of_nat i + 1))
                               <$> seq attempt (budget - 1)).
Proof.
  intros Hfn Hs. induction budget as [|budget IH]; intros attempt w lastError Hb.
  - cbn [invoicesService.retryRequest_loop].
    rewrite bool_decide_eq_false_2 by lia.
    eexists _, _. split; [reflexivity|]. cbn [Nat.sub seq fmap list_fmap].
    by rewrite app_nil_r.
  - cbn [invoicesService.retryRequest_loop].
    rewrite bool_decide_eq_true_2 by lia.
    destruct (Hfn w) as (e & d & w' & Hw & He & _ & Ht).
    unfold try_catch at 1. rewrite Hw. cbn [response_of]. rewrite He. cbn [status].
    rewrite (bool_decide_eq_false_2 (s < 500)) by lia. rewrite orb_false_r.
    destruct (decide (attempt = retries)) as [->|Hne].
    + rewrite bool_decide_eq_true_2 by done.
      assert (budget = 0%nat) as -> by lia.
      eexists _, _. split; [reflexivity|].
      cbn [Nat.sub seq fmap list_fmap]. by rewrite app_nil_r.
    + rewrite bool_decide_eq_false_2 by done.
      unfold bind at 1, delay.
      destruct (IH (attempt + 1)%nat (push_timer (500 * (Z.of_nat attempt + 1)) w')
                  (AxiosErr e)) as (e' & w'' & He' & Ht'); [lia|].
      exists e', w''. split; [done|]. rewrite Ht'.
      destruct budget as [|budget]; [lia|].
      cbn [push_timer timers Nat.sub seq fmap list_fmap].
      rewrite Nat.sub_0_r, Ht, <- app_assoc. cbn [app]. by rewrite Nat.add_1_r.
Qed.

Lemma subscriptions_retryRequest_loop_delays fn retries s :
  rejected_quietly s fn → 500 ≤ s →
  ∀ budget attempt w lastError,
    (attempt + budget = retries)%nat →
    ∃ e w', subscriptionsService.retryRequest_loop budget fn retries attempt lastError w
            = (Threw e, w')
            ∧ timers w'
              = timers w ++ ((λ i, 500 * (Z.of_nat i + 1)) <$> seq attempt budget).
Proof.
  intros Hfn Hs. induction budget as [|budget IH]; intros attempt w lastError Hb.
  - cbn [subscriptionsService.retryRequest_loop].
    rewrite bool_decide_eq_false_2 by lia.
    eexists _, _. split; [reflexivity|]. cbn [seq fmap list_fmap]. by rewrite app_nil_r.
  - cbn [subscriptionsService.retryRequest_loop].
    rewrite bool_decide_eq_true_2 by lia.
    destruct (Hfn w) as (e & d & w' & Hw & He & _ & Ht).
    unfold try_catch at 1, bind at 1. rewrite Hw. cbn [response_of]. rewrite He.
    rewrite no_response_or_5xx_Some, bool_decide_eq_true_2 by done.
    unfold bind at 1, delay.
    destruct (IH (attempt + 1)%nat (push_timer (500 * (Z.of_nat attempt + 1)) w')
                (AxiosErr e)) as (e' & w'' & He' & Ht'); [lia|].
    exists e', w''. split; [done|]. rewrite Ht'.
    cbn [push_timer timers seq fmap list_fmap]. rewrite Ht, <- app_assoc.
    cbn [app]. by rewrite Nat.add_1_r.
Qed.

(** The closure of [getInvoices] when the server answers [s] without a
    body: the axios error passes through. *)
Lemma invoices_getInvoices_fn_quiet net p s :
  (∀ n r, ∃ m, net n r = Rejected (mkAxiosError (Some (mkErrorResponse s None)) m)) →
  rejected_quietly s (invoicesService.getInvoices_fn net p).
Proof.
  intros Hnet w.
  unfold invoicesService.getInvoices_fn, try_catch, bind, invoicesService.get.
  destruct (Hnet (length (wire w)) (invoicesService.onRequest w
     (mkRequest GET (invoicesService.BASE_URL +:+ "") (Some p) None ∅))) as (m & Hr).
  rewrite (axios_request_rejected _ _ _ _ _ _ Hr).
  eexists _, None, _. split; [reflexivity|]. split; [done|].
  split; [apply length_wire_push|done].
Qed.

(** X2.  Under a server that always answers 503 without a body, the
    waits between the attempts grow linearly: 800 and 1600 ms in
    [postPayment], 500 and 1000 ms in [getInvoices], and 500, 1000 and
    1500 ms in [getSubscriptions], which also waits after its last
    attempt. *)
Theorem backoff_schedules net req p q w :
  (∀ n r, ∃ m, net n r = Rejected (mkAxiosError (Some (mkErrorResponse 503 None)) m)) →
  (∃ e w', paymentService.postPayment net req 0 w = (Threw e, w')
           ∧ timers w' = timers w ++ [800; 1600])
  ∧ (∃ e w', invoicesService.getInvoices net p w = (Threw e, w')
             ∧ timers w' = timers w ++ [500; 1000])
  ∧ (∃ e w', subscriptionsService.getSubscriptions net q w = (Threw e, w')
             ∧ timers w' = timers w ++ [500; 1000; 1500]).
Proof.
  intros Hnet.
  assert (H503 : always_status net 503).
  { intros n r. destruct (Hnet n r) as (m & Hm). by exists None, m. }
  split; [|split].
  - destruct (postPayment_from_503_delays net req H503 paymentService.MAX_RETRIES 0%nat w)
      as (e & w' & He & Ht); [done|]. by exists e, w'.
  - destruct (invoices_retryRequest_loop_delays (invoicesService.getInvoices_fn net p)
                invoicesService.MAX_RETRIES 503
                (invoices_getInvoices_fn_quiet net p 503 Hnet) ltac:(lia)
                (S invoicesService.MAX_RETRIES) 0%nat w Undefined)
      as (e & w' & He & Ht); [done|]. by exists e, w'.
  - destruct (subscriptions_retryRequest_loop_delays
                (subscriptionsService.get net subscriptionsService.BASE_URL q)
                subscriptionsService.MAX_RETRIES 503
                (axios_request_rejected_quietly net _ _ _ 503 H503 ltac:(done))
                ltac:(lia) subscriptionsService.MAX_RETRIES 0%nat w Undefined)
      as (e & w' & He & Ht); [done|]. by exists e, w'.
Qed.

Lemma backoff_schedules_witness :
  (∀ n r, ∃ m, server_error 503 None n r
               = Rejected (mkAxiosError (Some (mkErrorResponse 503 None)) m))
  ∧ ∃ e w', subscriptionsService.getSubscriptions (server_error 503 None) None world0
            = (Threw e, w')
            ∧ timers w' = timers world0 ++ [500; 1000; 1500].
Proof.
  assert (H : ∀ n r, ∃ m, server_error 503 None n r
               = Rejected (mkAxiosError (Some (mkErrorResponse 503 None)) m))
    by (intros n r; by eexists).
  split; [exact H|].
  destruct (backoff_schedules (server_error 503 None) "{}" (mkParams None None) None
              world0 H) as (_ & _ & H3).
  exact H3.
Defined.

(** *** Identity token and payment methods: retries without delay *)

Lemma authApi_onRejected_not_401 e w :
  (∀ r, response e = Some r → status r ≠ 401) → authApiService.onRejected e w = w.
Proof.
  intros H. unfold authApiService.onRejected. destruct (response e) as [r|]; [|done].
  by rewrite decide_False by (by apply H).
Qed.

Lemma postIdentityToken_from_5xx net d s :
  always_status net s → 500 ≤ s →
  ∀ budget retries w,
    (retries + budget = authApiService.MAX_RETRIES)%nat →
    ∃ e w', authApiService.postIdentityToken_from net budget d retries w = (Threw e, w')
            ∧ length (wire w') = (length (wire w) + S budget)%nat
            ∧ timers w' = timers w ∧ vars w' = vars w.
Proof.
  intros Hnet Hs.
  induction budget as [|budget IH]; intros retries w Hb;
    cbn [authApiService.postIdentityToken_from];
    unfold try_catch at 1, bind at 1, authApiService.post;
    (destruct (Hnet (length (wire w)) (authApiService.onRequest w
       (mkRequest POST authApiService.BASE_URL None (Some d) ∅))) as (b & m & Hr));
    rewrite (axios_request_rejected _ _ _ _ _ _ Hr);
    (rewrite authApi_onRejected_not_401
       by (cbn [response]; intros r [= <-]; cbn [status]; lia));
    cbn [isAxiosError response_of response]; rewrite no_response_or_5xx_Some;
    rewrite (bool_decide_eq_true_2 (500 ≤ s)) by done.
  - rewrite bool_decide_eq_false_2 by lia. cbn [andb].
    rewrite response_data_AxiosErr. cbn [response mbind option_bind data].
    destruct (truthy_body b); eexists _, _; (split; [reflexivity|]);
      rewrite length_wire_push; (split; [lia|done]).
  - rewrite bool_decide_eq_true_2 by lia. cbn [andb].
    destruct (IH (retries + 1)%nat (push_wire (authApiService.onRequest w
       (mkRequest POST authApiService.BASE_URL None (Some d) ∅)) w))
      as (e' & w'' & H1 & H2 & H3 & H4); [lia|].
    exists e', w''. split; [exact H1|]. rewrite H2, H3, H4, length_wire_push.
    split; [lia|done].
Qed.

(** X3.  Under a server that always answers with a status of 500 or more,
    [postIdentityToken] fails after ceiling + 1 = 4 requests sent back to
    back (no timer is set) and leaves every token variable as it was. *)
Theorem postIdentityToken_retries_without_delay net d s w :
  always_status net s → 500 ≤ s →
  ∃ e w', authApiService.postIdentityToken net d 0 w = (Threw e, w')
          ∧ attempts w w' = S authApiService.MAX_RETRIES
          ∧ timers w' = timers w ∧ vars w' = vars w.
Proof.
  intros Hnet Hs.
  destruct (postIdentityToken_from_5xx net d s Hnet Hs authApiService.MAX_RETRIES
              0%nat w) as (e & w' & H1 & H2 & H3 & H4); [done|].
  exists e, w'. split; [exact H1|]. split; [by apply attempts_of_length|done].
Qed.

Lemma postIdentityToken_retries_without_delay_witness :
  always_status (server_error 502 None) 502 ∧ 500 ≤ 502
  ∧ ∃ e w', authApiService.postIdentityToken (server_error 502 None) "{}" 0 world0
            = (Threw e, w')
            ∧ attempts world0 w' = 4%nat
            ∧ timers w' = timers world0 ∧ vars w' = vars world0.
Proof.
  split; [apply server_error_always|]. split; [lia|].
  apply (postIdentityToken_retries_without_delay (server_error 502 None) "{}" 502 world0);
    [apply server_error_always|lia].
Defined.

Lemma getPaymentMethods_from_rejected net p :
  always_rejects net →
  ∀ budget retryCount w,
    (retryCount + budget = paymentMethodsService.MAX_RETRIES)%nat →
    ∃ err w',
      paymentMethodsService.getPaymentMethods_from net budget p retryCount w
      = (Threw err, w')
      ∧ length (wire w') = (length (wire w) + S budget)%nat
      ∧ timers w' = timers w.
Proof.
  intros Hnet.
  induction budget as [|budget IH]; intros retryCount w Hb;
    cbn [paymentMethodsService.getPaymentMethods_from];
    unfold try_catch at 1, bind at 1, paymentMethodsService.get;
    (destruct (Hnet (length (wire w)) (paymentMethodsService.onRequest w
       (mkRequest GET ("/api" +:+ "/payment-methods") p None ∅))) as (e & Hr));
    rewrite (axios_request_rejected _ _ _ _ _ _ Hr).
  - rewrite bool_decide_eq_false_2 by lia.
    destruct (response_data (AxiosErr e)); eexists _, _; (split; [reflexivity|]);
      rewrite length_wire_push; (split; [lia|done]).
  - rewrite bool_decide_eq_true_2 by lia.
    destruct (IH (retryCount + 1)%nat (push_wire (paymentMethodsService.onRequest w
       (mkRequest GET ("/api" +:+ "/payment-methods") p None ∅)) w))
      as (pd & w'' & H1 & H2 & H3); [lia|].
    exists pd, w''. split; [exact H1|]. rewrite H2, H3, length_wire_push.
    split; [lia|done].
Qed.

(** X4.  [getPaymentMethods] retries whatever the failure is, client
    errors included: when every request is rejected it throws only after
    ceiling + 1 = 4 requests, sent without any wait, and what it throws is
    determined by the last rejection: its body when it has one, else the
    synthesized problem. *)
Theorem getPaymentMethods_retries_every_failure net p w :
  always_rejects net →
  ∃ e w',
    paymentMethodsService.getPaymentMethods net p 0 w = (Threw (normalized e), w')
    ∧ final_rejection net w' e
    ∧ attempts w w' = S paymentMethodsService.MAX_RETRIES
    ∧ timers w' = timers w.
Proof.
  intros Hnet.
  destruct (getPaymentMethods_from_rejected net p Hnet paymentMethodsService.MAX_RETRIES
              0%nat w) as (err & w' & H1 & H2 & H3); [done|].
  pose proof (getPaymentMethods_from_surfaces net p paymentMethodsService.MAX_RETRIES
                0%nat w eq_refl) as Hs.
  rewrite H1 in Hs. destruct Hs as (e & Hfin & ->).
  exists e, w'. split; [exact H1|]. split; [exact Hfin|].
  split; [by apply attempts_of_length|done].
Qed.

Lemma server_error_rejects s d : always_rejects (server_error s d).
Proof. intros n r. by eexists. Qed.

Lemma getPaymentMethods_retries_every_failure_witness :
  always_rejects bad_gateway
  ∧ ∃ e w',
      paymentMethodsService.getPaymentMethods bad_gateway None 0 world0
      = (Threw (normalized e), w')
      ∧ final_rejection bad_gateway w' e
      ∧ attempts world0 w' = 4%nat
      ∧ timers w' = timers world0.
Proof.
  assert (H : always_rejects bad_gateway) by (intros n r; by eexists).
  split; [exact H|].
  exact (getPaymentMethods_retries_every_failure bad_gateway None world0 H).
Defined.

(** *** paymentService: a 401 redirects and keeps the stored token *)

(** X5.  When the next reply is a 401, [postPayment] fails after that one
    request with the page sent to /login; the stored access token is not
    removed, so a later request carries the same Authorization header. *)
Theorem postPayment_unauthorized_redirects net req w :
  next_status net w 401 →
  ∃ e w', paymentService.postPayment net req 0 w = (Threw e, w')
          ∧ attempts w w' = 1%nat
          ∧ location_href w' = "/login"
          ∧ localStorage w' = localStorage w
          ∧ ∀ config, paymentService.onRequest w' config
                      = paymentService.onRequest w config.
Proof.
  intros Hnet.
  destruct (Hnet (paymentService.onRequest w
    (mkRequest POST (paymentService.apiBaseUrl +:+ "/") None (Some req) ∅)))
    as (d & m & Hr).
  unfold paymentService.postPayment.
  cbn [paymentService.MAX_RETRIES Nat.sub paymentService.postPayment_from].
  unfold try_catch at 1, bind at 1, paymentService.post.
  rewrite (axios_request_rejected _ _ _ _ _ _ Hr).
  cbn [isAxiosError response_of response]. rewrite no_response_or_5xx_Some.
  rewrite (bool_decide_eq_false_2 (500 ≤ 401)) by lia. rewrite andb_false_r.
  rewrite response_data_AxiosErr. cbn [response mbind option_bind data].
  unfold paymentService.onRejected. cbn [response status].
  rewrite decide_True by done.
  destruct (truthy_body d); eexists _, _; (split; [reflexivity|]);
    (split; [apply attempts_of_length; cbn; rewrite length_app; cbn; lia|done]).
Qed.

Lemma postPayment_unauthorized_redirects_witness :
  next_status (server_error 401 None) (stored_token "stale") 401
  ∧ ∃ e w', paymentService.postPayment (server_error 401 None) "{}" 0
              (stored_token "stale") = (Threw e, w')
            ∧ attempts (stored_token "stale") w' = 1%nat
            ∧ location_href w' = "/login".
Proof.
  assert (H : next_status (server_error 401 None) (stored_token "stale") 401)
    by (intros r; by eexists _, _).
  split; [exact H|].
  destruct (postPayment_unauthorized_redirects (server_error 401 None) "{}"
              (stored_token "stale") H) as (e & w' & H1 & H2 & H3 & _).
  by exists e, w'.
Defined.

(** *** invoicesService: a client error without a body is not retried *)

(** X6.  When the next reply is a client error without a body,
    [getInvoices] rethrows the transport error after that one request and
    sets no timer: the no-retry guard of [retryRequest] does take effect
    when there is no body to throw in place of the error. *)
Theorem getInvoices_client_error_without_body_once net p w s :
  (∀ r, ∃ m, net (length (wire w)) r
             = Rejected (mkAxiosError (Some (mkErrorResponse s None)) m)) →
  s < 500 →
  ∃ e w', invoicesService.getInvoices net p w = (Threw (AxiosErr e), w')
          ∧ response e = Some (mkErrorResponse s None)
          ∧ attempts w w' = 1%nat
          ∧ timers w' = timers w.
Proof.
  intros Hnet Hs.
  destruct (Hnet (invoicesService.onRequest w
     (mkRequest GET (invoicesService.BASE_URL +:+ "") (Some p) None ∅))) as (m & Hr).
  eexists _, _. split.
  - apply (invoices_retryRequest_client_error_once _ _ _ _ (mkErrorResponse s None)).
    + unfold invoicesService.getInvoices_fn, try_catch, bind, invoicesService.get.
      rewrite (axios_request_rejected _ _ _ _ _ _ Hr). reflexivity.
    + done.
    + done.
  - split; [done|]. split; [|done]. apply attempts_of_length.
    cbn. rewrite length_app. cbn. lia.
Qed.

Lemma getInvoices_client_error_without_body_once_witness :
  (∀ r, ∃ m, server_error 404 None (length (wire world0)) r
             = Rejected (mkAxiosError (Some (mkErrorResponse 404 None)) m))
  ∧ 404 < 500
  ∧ ∃ e w', invoicesService.getInvoices (server_error 404 None) (mkParams None None)
              world0 = (Threw (AxiosErr e), w')
            ∧ response e = Some (mkErrorResponse 404 None)
            ∧ attempts world0 w' = 1%nat
            ∧ timers w' = timers world0.
Proof.
  assert (H : ∀ r, ∃ m, server_error 404 None (length (wire world0)) r
             = Rejected (mkAxiosError (Some (mkErrorResponse 404 None)) m))
    by (intros r; by eexists).
  split; [exact H|]. split; [lia|].
  apply (getInvoices_client_error_without_body_once (server_error 404 None)
           (mkParams None None) world0 404 H). lia.
Defined.

(** *** countriesService: failures become a result *)

Lemma countries_onRejected_id e w : countriesService.onRejected e w = w.
Proof. unfold countriesService.onRejected. destruct (response e); [case_decide|]; done. Qed.

Lemma countries_retryRequest_loop_settles fn retries :
  (∀ w, (fn w).1 ≠ Stuck) →
  ∀ budget attempt lastError w,
    (attempt + budget = retries)%nat →
    (countriesService.retryRequest_loop budget fn retries attempt lastError w).1 ≠ Stuck.
Proof.
  intros Hfn. induction budget as [|budget IH]; intros attempt lastError w Hb;
    cbn [countriesService.retryRequest_loop].
  - by rewrite bool_decide_eq_false_2 by lia.
  - rewrite bool_decide_eq_true_2 by lia. unfold try_catch. specialize (Hfn w).
    destruct (fn w) as [[r|e|] w1]; [done| |done].
    unfold bind at 1. case_bool_decide; unfold delay, ret; apply IH; lia.
Qed.

Lemma countries_get_settles net u p w : (countriesService.get net u p w).1 ≠ Stuck.
Proof. unfold countriesService.get, axios_request. by destruct (net _ _). Qed.

Lemma countries_retryRequest_loop_rejected net u p retries :
  always_rejects net →
  ∀ budget attempt lastError w,
    (attempt + budget = retries)%nat → (0 < budget)%nat →
    ∃ e w', countriesService.retryRequest_loop budget (countriesService.get net u p)
              retries attempt lastError w = (Threw (AxiosErr e), w')
            ∧ final_rejection net w' e
            ∧ length (wire w') = (length (wire w) + budget)%nat
            ∧ timers w' = timers w ++ replicate (budget - 1) countriesService.RETRY_DELAY.
Proof.
  intros Hnet. induction budget as [|budget IH]; intros attempt lastError w Hb Hpos;
    [lia|].
  cbn [countriesService.retryRequest_loop].
  rewrite bool_decide_eq_true_2 by lia. unfold try_catch, countriesService.get.
  destruct (axios_request_cases net countriesService.onRequest countriesService.onRejected
              (mkRequest GET u p None ∅) w ltac:(intros; by rewrite countries_onRejected_id))
    as [(r & w1 & Hw)|(e & w1 & Hw & Hfin)].
  { exfalso. unfold axios_request in Hw.
    destruct (Hnet (length (wire w)) (countriesService.onRequest w
      (mkRequest GET u p None ∅))) as (e & He). by rewrite He in Hw. }
  rewrite Hw. unfold bind at 1.
  assert (Hlen : length (wire w1) = S (length (wire w))
                 ∧ timers w1 = timers w).
  { unfold axios_request in Hw. destruct (net _ _); [done|].
    injection Hw as _ <-. rewrite countries_onRejected_id.
    split; [apply length_wire_push|done]. }
  destruct Hlen as [Hlen Ht].
  destruct budget as [|budget].
  - rewrite bool_decide_eq_false_2 by lia. unfold ret.
    cbn [countriesService.retryRequest_loop].
    rewrite bool_decide_eq_false_2 by lia.
    exists e, w1. split; [done|]. split; [done|]. rewrite Hlen, Ht.
    cbn [Nat.sub replicate]. rewrite app_nil_r. split; [lia|done].
  - rewrite bool_decide_eq_true_2 by lia. unfold delay.
    destruct (IH (attempt + 1)%nat (AxiosErr e)
                (push_timer countriesService.RETRY_DELAY w1))
      as (e' & w' & H1 & H2 & H3 & H4); [lia|lia|].
    exists e', w'. split; [exact H1|]. split; [exact H2|].
    rewrite H3, H4. cbn [push_timer wire timers Nat.sub replicate].
    rewrite Nat.sub_0_r, Hlen, Ht, <- app_assoc. cbn [app]. split; [lia|done].
Qed.

(** X7.  [getCountries] never throws and never runs out of budget:
    whatever the network does, it returns a result. *)
Theorem getCountries_never_throws net p w :
  ∃ result w', countriesService.getCountries net p w = (Returned result, w').
Proof.
  unfold countriesService.getCountries, try_catch, bind at 1,
    countriesService.retryRequest.
  pose proof (countries_retryRequest_loop_settles
                (countriesService.get net countriesService.BASE_URL p)
                countriesService.MAX_RETRIES
                (countries_get_settles net _ p) countriesService.MAX_RETRIES 0%nat
                Undefined w ltac:(done)) as Hs.
  destruct (countriesService.retryRequest_loop _ _ _ _ _ w) as [[r|e|] w1];
    [| |done]; unfold ret; eauto.
Qed.

(** X8.  When every request is rejected, [getCountries] returns, after
    three requests 500 ms apart, a result without data whose [error] is the
    body of the last rejection, whatever its shape, or an empty object
    when that rejection has no body. *)
Theorem getCountries_reports_failure_in_result net p w :
  always_rejects net →
  ∃ e w',
    final_rejection net w' e
    ∧ countriesService.getCountries net p w
      = (Returned (countriesService.mkGetCountriesResult None None None None
                     (Some (default (ProblemBody (mkProblem None None None None None))
                                    (response_data (AxiosErr e))))), w')
    ∧ attempts w w' = countriesService.MAX_RETRIES
    ∧ timers w' = timers w ++ [500; 500].
Proof.
  intros Hnet.
  destruct (countries_retryRequest_loop_rejected net countriesService.BASE_URL p
              countriesService.MAX_RETRIES Hnet countriesService.MAX_RETRIES 0%nat
              Undefined w) as (e & w' & H1 & H2 & H3 & H4);
    [done|unfold countriesService.MAX_RETRIES; lia|].
  exists e, w'. split; [exact H2|]. split; [|split].
  - unfold countriesService.getCountries, try_catch, bind at 1,
      countriesService.retryRequest. rewrite H1.
    unfold ret. by destruct (response_data (AxiosErr e)).
  - by apply attempts_of_length.
  - exact H4.
Qed.

Lemma getCountries_reports_failure_in_result_witness :
  always_rejects network_down
  ∧ ∃ e w',
      final_rejection network_down w' e
      ∧ countriesService.getCountries network_down None world0
        = (Returned (countriesService.mkGetCountriesResult None None None None
                       (Some (default (ProblemBody (mkProblem None None None None None))
                                      (response_data (AxiosErr e))))), w')
      ∧ attempts world0 w' = countriesService.MAX_RETRIES
      ∧ timers w' = timers world0 ++ [500; 500].
Proof.
  assert (H : always_rejects network_down) by (intros n r; by eexists).
  split; [exact H|].
  exact (getCountries_reports_failure_in_result network_down None world0 H).
Defined.

(** X9.  When the first request is answered, [getCountries] returns the
    body of the response with the page and page size of the request
    parameters; the total is the [x-total-count] header, and absent when
    the header is missing or zero. *)
Theorem getCountries_first_response net p w resp :
  (∀ r, net (length (wire w)) r = Resolved resp) →
  ∃ w', countriesService.getCountries net p w
        = (Returned (countriesService.mkGetCountriesResult (rdata resp)
                       (match x_total_count resp with
                        | Some 0 | None => None
                        | Some n => Some n
                        end)
                       (p ≫= page) (p ≫= pageSize) None), w')
        ∧ attempts w w' = 1%nat ∧ timers w' = timers w.
Proof.
  intros Hnet.
  specialize (Hnet (countriesService.onRequest w
    (mkRequest GET countriesService.BASE_URL p None ∅))).
  eexists. split.
  - unfold countriesService.getCountries, try_catch, bind at 1,
      countriesService.retryRequest, countriesService.MAX_RETRIES.
    cbn [countriesService.retryRequest_loop].
    rewrite bool_decide_eq_true_2 by lia.
    unfold try_catch, countriesService.get.
    rewrite (axios_request_resolved _ _ _ _ _ _ Hnet). unfold ret.
    destruct (x_total_count resp) as [[| |]|]; reflexivity.
  - split; [|done]. apply attempts_of_length. cbn. rewrite length_app. cbn. lia.
Qed.

Lemma getCountries_first_response_witness :
  (∀ r, countries_page (Some 0) (length (wire world0)) r
        = Resolved (mkResponse (Some (mkPayload None "[]")) (Some 0)))
  ∧ ∃ w', countriesService.getCountries (countries_page (Some 0))
            (Some (mkParams (Some 2) (Some 20))) world0
          = (Returned (countriesService.mkGetCountriesResult
                         (Some (mkPayload None "[]")) None (Some 2) (Some 20) None), w')
          ∧ attempts world0 w' = 1%nat ∧ timers w' = timers world0.
Proof.
  split; [done|].
  apply (getCountries_first_response (countries_page (Some 0))
           (Some (mkParams (Some 2) (Some 20))) world0
           (mkResponse (Some (mkPayload None "[]")) (Some 0))).
  done.
Defined.

(** *** The Authorization header on the wire *)

Lemma attach_module_token_sent_as s w config :
  headers config !! "Authorization" = None →
  sent_as (vars w !! s) (attach_module_token s w config).
Proof.
  intros Hc. unfold sent_as, attach_module_token.
  destruct (truthy (vars w !! s)) as [t|]; cbn; [apply lookup_insert_eq|done].
Qed.

Lemma subscriptions_get_sent net u p w :
  ∃ r, wire (subscriptionsService.get net u p w).2 = wire w ++ [r]
       ∧ sent_as (vars w !! Subscriptions) r
       ∧ method r = GET ∧ url r = u ∧ params r = p
       ∧ vars (subscriptionsService.get net u p w).2 = vars w.
Proof.
  unfold subscriptionsService.get, axios_request.
  exists (subscriptionsService.onRequest w (mkRequest GET u p None ∅)).
  assert (Hs : sent_as (vars w !! Subscriptions)
                 (subscriptionsService.onRequest w (mkRequest GET u p None ∅)))
    by (by apply attach_module_token_sent_as).
  assert (Hm : method (subscriptionsService.onRequest w (mkRequest GET u p None ∅)) = GET
               ∧ url (subscriptionsService.onRequest w (mkRequest GET u p None ∅)) = u
               ∧ params (subscriptionsService.onRequest w (mkRequest GET u p None ∅)) = p).
  { unfold subscriptionsService.onRequest, attach_module_token.
    by destruct (truthy _). }
  destruct Hm as (? & ? & ?). destruct (net _ _); cbn [snd]; repeat split; done.
Qed.

Lemma subscriptions_retryRequest_loop_sent net u p retries :
  ∀ budget attempt lastError w,
    ∃ sent,
      wire (subscriptionsService.retryRequest_loop budget
              (subscriptionsService.get net u p) retries attempt lastError w).2
      = wire w ++ sent
      ∧ Forall (λ r, sent_as (vars w !! Subscriptions) r
                     ∧ method r = GET ∧ url r = u ∧ params r = p) sent
      ∧ (length sent ≤ budget)%nat.
Proof.
  induction budget as [|budget IH]; intros attempt lastError w;
    cbn [subscriptionsService.retryRequest_loop]; case_bool_decide;
    try (exists []; rewrite app_nil_r; split; [done|]; split; [constructor|cbn; lia]).
  unfold try_catch, bind at 1.
  destruct (subscriptions_get_sent net u p w) as (r & Hw & Hs & Hm & Hu & Hp & Hv).
  destruct (subscriptionsService.get net u p w) as [[resp|e|] w1]; cbn [snd] in *.
  - exists [r]. split; [done|]. split; [repeat constructor; tauto|cbn; lia].
  - destruct (no_response_or_5xx (response_of e)).
    + unfold bind at 1, delay.
      destruct (IH (attempt + 1)%nat e (push_timer (500 * (Z.of_nat attempt + 1)) w1))
        as (sent & Hsent & Hall & Hlen).
      exists (r :: sent). split; [|split].
      * rewrite Hsent. cbn [push_timer wire]. rewrite Hw, <- app_assoc. done.
      * constructor; [tauto|]. cbn [push_timer vars] in Hall. by rewrite Hv in Hall.
      * cbn. lia.
    + exists [r]. split; [done|]. split; [repeat constructor; tauto|cbn; lia].
  - exists [r]. split; [done|]. split; [repeat constructor; tauto|cbn; lia].
Qed.

(** X10.  After [setAccessToken t], every request that
    [getSubscriptions] puts on the wire, the retries included, is a GET of
    /api/subscriptions with the caller's parameters that carries
    [Authorization: Bearer t], or no Authorization header when [t] is
    empty; at most three requests are sent. *)
Theorem getSubscriptions_requests_carry_token net p t w :
  let w1 := subscriptionsService.setAccessToken t w in
  ∃ sent,
    wire (subscriptionsService.getSubscriptions net p w1).2 = wire w ++ sent
    ∧ (length sent ≤ subscriptionsService.MAX_RETRIES)%nat
    ∧ Forall (λ r, headers r !! "Authorization"
                   = (if decide (t = "") then None else Some ("Bearer " +:+ t))
                   ∧ method r = GET ∧ url r = "/api/subscriptions" ∧ params r = p)
             sent.
Proof.
  intros w1.
  destruct (subscriptions_retryRequest_loop_sent net subscriptionsService.BASE_URL p
              subscriptionsService.MAX_RETRIES subscriptionsService.MAX_RETRIES 0%nat
              Undefined w1) as (sent & Hw & Hall & Hlen).
  exists sent. split; [exact Hw|]. split; [exact Hlen|].
  eapply Forall_impl; [exact Hall|]. intros r (Hs & Hm).
  split; [|exact Hm]. unfold sent_as in Hs. rewrite Hs. unfold w1.
  cbn [subscriptionsService.setAccessToken set_vars vars].
  rewrite lookup_insert_eq. unfold truthy. by case_decide.
Qed.

Example getSubscriptions_empty_token_sends_no_header :
  headers <$> wire (subscriptionsService.getSubscriptions
                      (countries_page None) None
                      (subscriptionsService.setAccessToken "" world0)).2
  = [∅].
Proof. vm_compute. reflexivity. Qed.

(** *** Unconditional retry: authorizeClientService and customersService *)

Lemma axios_request_rejects_once net onReq onRej config :
  always_rejects net →
  (∀ e w, wire (onRej e w) = wire w ∧ timers (onRej e w) = timers w) →
  rejects_once net AxiosErr (axios_request net onReq onRej config).
Proof.
  intros Hnet Hrej w.
  destruct (axios_request_cases net onReq onRej config w ltac:(intros; apply Hrej))
    as [(r & w1 & Hw)|(e & w1 & Hw & Hfin)].
  { exfalso. unfold axios_request in Hw.
    destruct (Hnet (length (wire w)) (onReq w config)) as (e & He). by rewrite He in Hw. }
  exists e, w1. split; [done|]. split; [done|].
  unfold axios_request in Hw. destruct (net _ _); [done|]. injection Hw as _ <-.
  destruct (Hrej e0 (push_wire (onReq w config) w)) as [-> ->].
  split; [apply length_wire_push|done].
Qed.

Lemma authorize_onRejected_quiet e w :
  wire (authorizeClientService.onRejected e w) = wire w
  ∧ timers (authorizeClientService.onRejected e w) = timers w.
Proof.
  unfold authorizeClientService.onRejected. destruct (response e); [case_decide|]; done.
Qed.

Lemma postAuthorizeClient_fn_rejects_once net d :
  always_rejects net →
  rejects_once net body_or_raw (authorizeClientService.postAuthorizeClient_fn net d).
Proof.
  intros Hnet w.
  destruct (axios_request_rejects_once net authorizeClientService.onRequest
              authorizeClientService.onRejected
              (mkRequest POST authorizeClientService.BASE_URL None (Some d) ∅)
              Hnet authorize_onRejected_quiet w) as (e & w' & Hw & Hrest).
  exists e, w'. split; [|exact Hrest].
  unfold authorizeClientService.postAuthorizeClient_fn, try_catch, bind at 1,
    authorizeClientService.post. rewrite Hw. cbn [isAxiosError].
  unfold body_or_raw. by destruct (response_data (AxiosErr e)).
Qed.

Lemma authorize_retryRequest_loop_rejected {A} net surfaced (fn : Async A) retries :
  rejects_once net surfaced fn →
  ∀ budget i lastError w,
    (i + budget = retries)%nat → (0 < budget)%nat →
    ∃ e w', authorizeClientService.retryRequest_loop budget fn retries i lastError w
            = (Threw (surfaced e), w')
            ∧ final_rejection net w' e
            ∧ length (wire w') = (length (wire w) + budget)%nat
            ∧ timers w'
              = timers w ++ replicate (budget - 1) authorizeClientService.RETRY_DELAY.
Proof.
  intros Hfn. induction budget as [|budget IH]; intros i lastError w Hb Hpos; [lia|].
  cbn [authorizeClientService.retryRequest_loop].
  rewrite bool_decide_eq_true_2 by lia. unfold try_catch.
  destruct (Hfn w) as (e & w1 & Hw & Hfin & Hlen & Ht). rewrite Hw.
  unfold bind at 1.
  destruct budget as [|budget].
  - rewrite bool_decide_eq_false_2 by lia. unfold ret.
    cbn [authorizeClientService.retryRequest_loop].
    rewrite bool_decide_eq_false_2 by lia.
    exists e, w1. split; [done|]. split; [done|]. rewrite Hlen, Ht.
    cbn [Nat.sub replicate]. rewrite app_nil_r. split; [lia|done].
  - rewrite bool_decide_eq_true_2 by lia. unfold delay.
    destruct (IH (i + 1)%nat (surfaced e)
                (push_timer authorizeClientService.RETRY_DELAY w1))
      as (e' & w' & H1 & H2 & H3 & H4); [lia|lia|].
    exists e', w'. split; [exact H1|]. split; [exact H2|].
    rewrite H3, H4. cbn [push_timer wire timers Nat.sub replicate].
    rewrite Nat.sub_0_r, Hlen, Ht, <- app_assoc. cbn [app]. split; [lia|done].
Qed.

(** X11.  [postAuthorizeClient] retries whatever the failure is: when
    every request is rejected it makes three requests 500 ms apart and
    throws the body of the last rejection, or the transport error itself
    when there is no body. *)
Theorem postAuthorizeClient_retries_every_failure net d w :
  always_rejects net →
  ∃ e w', authorizeClientService.postAuthorizeClient net d w
          = (Threw (body_or_raw e), w')
          ∧ final_rejection net w' e
          ∧ attempts w w' = authorizeClientService.MAX_RETRIES
          ∧ timers w' = timers w ++ [500; 500].
Proof.
  intros Hnet.
  destruct (authorize_retryRequest_loop_rejected net body_or_raw
              (authorizeClientService.postAuthorizeClient_fn net d)
              authorizeClientService.MAX_RETRIES
              (postAuthorizeClient_fn_rejects_once net d Hnet)
              authorizeClientService.MAX_RETRIES 0%nat Undefined w)
    as (e & w' & H1 & H2 & H3 & H4);
    [done|unfold authorizeClientService.MAX_RETRIES; lia|].
  exists e, w'. split; [exact H1|]. split; [exact H2|].
  split; [by apply attempts_of_length|exact H4].
Qed.

Lemma postAuthorizeClient_retries_every_failure_witness :
  always_rejects (server_error 400 (Some bad_request))
  ∧ ∃ e w', authorizeClientService.postAuthorizeClient
              (server_error 400 (Some bad_request)) "{}" world0
            = (Threw (body_or_raw e), w')
            ∧ final_rejection (server_error 400 (Some bad_request)) w' e
            ∧ attempts world0 w' = authorizeClientService.MAX_RETRIES
            ∧ timers w' = timers world0 ++ [500; 500].
Proof.
  split; [apply server_error_rejects|].
  apply (postAuthorizeClient_retries_every_failure (server_error 400 (Some bad_request))
           "{}" world0), server_error_rejects.
Defined.

Lemma customers_retryRequest_loop_rejected net fn retries :
  rejects_once net AxiosErr fn →
  ∀ budget attempt e0 w,
    (attempt + budget = retries)%nat →
    final_rejection net w e0 →
    ∃ e w', customersService.retryRequest_loop budget fn retries attempt (AxiosErr e0) w
            = (Threw (body_or_raw e), w')
            ∧ final_rejection net w' e
            ∧ length (wire w') = (length (wire w) + budget)%nat
            ∧ timers w'
              = timers w ++ replicate (budget - 1) customersService.RETRY_DELAY.
Proof.
  intros Hfn. induction budget as [|budget IH]; intros attempt e0 w Hb Hfin0.
  - cbn [customersService.retryRequest_loop].
    rewrite bool_decide_eq_false_2 by lia.
    exists e0, w.
    split; [unfold body_or_raw; by destruct (response_data (AxiosErr e0))|].
    split; [done|]. cbn [Nat.sub replicate]. rewrite app_nil_r. split; [lia|done].
  - cbn [customersService.retryRequest_loop].
    rewrite bool_decide_eq_true_2 by lia. unfold try_catch, bind at 1.
    destruct (Hfn w) as (e & w1 & Hw & Hfin & Hlen & Ht). rewrite Hw.
    unfold bind at 1.
    destruct budget as [|budget].
    + rewrite bool_decide_eq_false_2 by lia. unfold ret.
      destruct (IH (attempt + 1)%nat e w1) as (e' & w' & H1 & H2 & H3 & H4);
        [lia|done|].
      exists e', w'. split; [exact H1|]. split; [exact H2|].
      rewrite H3, H4, Hlen, Ht. cbn [Nat.sub replicate]. split; [lia|done].
    + rewrite bool_decide_eq_true_2 by lia. unfold delay.
      destruct (IH (attempt + 1)%nat e (push_timer customersService.RETRY_DELAY w1))
        as (e' & w' & H1 & H2 & H3 & H4); [lia|done|].
      exists e', w'. split; [exact H1|]. split; [exact H2|].
      rewrite H3, H4. cbn [push_timer wire timers Nat.sub replicate].
      rewrite Nat.sub_0_r, Hlen, Ht, <- app_assoc. cbn [app]. split; [lia|done].
Qed.

Lemma customers_retryRequest_rejected net m path p body w :
  always_rejects net →
  ∃ e w', customersService.retryRequest (customersService.request net m path p body)
            customersService.MAX_RETRIES w
          = (Threw (body_or_raw e), w')
          ∧ final_rejection net w' e
          ∧ attempts w w' = customersService.MAX_RETRIES
          ∧ timers w' = timers w ++ [500; 500].
Proof.
  intros Hnet.
  pose proof (axios_request_rejects_once net customersService.onRequest (λ _ w, w)
                (mkRequest m (customersService.BASE_URL +:+ path) p body ∅)
                Hnet ltac:(done)) as Hfn.
  unfold customersService.retryRequest, customersService.MAX_RETRIES.
  cbn [customersService.retryRequest_loop].
  rewrite bool_decide_eq_true_2 by lia. unfold try_catch, bind at 1.
  destruct (Hfn w) as (e & w1 & Hw & Hfin & Hlen & Ht).
  unfold customersService.request. rewrite Hw.
  rewrite bool_decide_eq_true_2 by lia. unfold bind at 1, delay.
  destruct (customers_retryRequest_loop_rejected net _ 3 Hfn 2 1%nat e
              (push_timer customersService.RETRY_DELAY w1))
    as (e' & w' & H1 & H2 & H3 & H4); [done|done|].
  exists e', w'. split; [exact H1|]. split; [exact H2|]. split.
  - apply attempts_of_length. rewrite H3. cbn [push_timer wire]. lia.
  - rewrite H4. cbn [push_timer timers Nat.sub replicate]. rewrite Ht, <- app_assoc. done.
Qed.

(** X12.  Every call of the customers service ([getCustomers],
    [postCustomer] and [putCustomer] run their request through the same
    [retryRequest]) makes three requests 500 ms apart when every request
    is rejected, client errors included, and throws the body of the last
    rejection, or the transport error when there is no body. *)
Theorem customers_calls_retry_every_failure net p accountId body w :
  always_rejects net →
  let fails_after_three (r : Completion (option Payload) * World) :=
    ∃ e w', r = (Threw (body_or_raw e), w')
            ∧ final_rejection net w' e
            ∧ attempts w w' = customersService.MAX_RETRIES
            ∧ timers w' = timers w ++ [500; 500] in
  fails_after_three (customersService.getCustomers net p w)
  ∧ fails_after_three (customersService.postCustomer net body w)
  ∧ fails_after_three (customersService.putCustomer net accountId body w).
Proof.
  intros Hnet fails_after_three. unfold fails_after_three.
  split; [|split]; by apply customers_retryRequest_rejected.
Qed.

Lemma customers_calls_retry_every_failure_witness :
  always_rejects network_down
  ∧ ∃ e w', customersService.postCustomer network_down "{}" world0
            = (Threw (body_or_raw e), w')
            ∧ final_rejection network_down w' e
            ∧ attempts world0 w' = customersService.MAX_RETRIES
            ∧ timers w' = timers world0 ++ [500; 500].
Proof.
  assert (H : always_rejects network_down) by (intros n r; by eexists).
  split; [exact H|].
  destruct (customers_calls_retry_every_failure network_down None "acc-1" "{}"
              world0 H) as (_ & H2 & _).
  exact H2.
Defined.

(** *** recurringPaymentMethodService *)

Lemma recurring_put_cases net u d cfg w :
  (∃ w', bind (recurringPaymentMethodService.put net u d cfg) (λ _, ret tt) w
         = (Returned tt, w')
         ∧ length (wire w') = S (length (wire w)) ∧ timers w' = timers w)
  ∨ (∃ e w', bind (recurringPaymentMethodService.put net u d cfg) (λ _, ret tt) w
             = (Threw (AxiosErr e), w')
             ∧ final_rejection net w' e
             ∧ net (length (wire w))
                   (recurringPaymentMethodService.onRequest w
                      (mkRequest PUT u None (Some d) cfg)) = Rejected e
             ∧ length (wire w') = S (length (wire w)) ∧ timers w' = timers w).
Proof.
  unfold bind, recurringPaymentMethodService.put.
  destruct (axios_request_cases net recurringPaymentMethodService.onRequest (λ _ w, w)
              (mkRequest PUT u None (Some d) cfg) w ltac:(done))
    as [(r & w1 & Hw)|(e & w1 & Hw & Hfin)]; rewrite Hw;
    unfold axios_request in Hw; destruct (net _ _) eqn:Hn; try done;
    injection Hw as <- <-.
  - left. eexists. split; [done|]. split; [apply length_wire_push|done].
  - right. eexists _, _. split; [done|]. split; [done|]. split; [done|].
    split; [apply length_wire_push|done].
Qed.

Lemma recurring_retryRequest_loop_surfaces net u d cfg retries :
  ∀ budget attempt lastError w,
    (attempt + budget = S retries)%nat → (0 < budget)%nat →
    let r := recurringPaymentMethodService.retryRequest_loop budget
               (bind (recurringPaymentMethodService.put net u d cfg) (λ _, ret tt))
               retries attempt lastError w in
    surfaces net AxiosErr r
    ∧ timers r.2 = timers w
    ∧ (length (wire w) < length (wire r.2) ≤ length (wire w) + budget)%nat.
Proof.
  induction budget as [|budget IH]; intros attempt lastError w Hb Hpos; [lia|].
  cbn zeta. cbn [recurringPaymentMethodService.retryRequest_loop].
  rewrite bool_decide_eq_true_2 by lia. unfold try_catch.
  destruct (recurring_put_cases net u d cfg w)
    as [(w1 & Hw & Hlen & Ht)|(e & w1 & Hw & Hfin & _ & Hlen & Ht)]; rewrite Hw.
  - cbn [surfaces fst snd]. split; [done|]. split; [done|]. lia.
  - cbn [isAxiosError andb].
    destruct (no_response_or_5xx (response_of (AxiosErr e))
              && bool_decide (attempt < retries)%nat) eqn:Hc.
    + apply andb_true_iff in Hc as [_ Hlt%bool_decide_eq_true].
      destruct (IH (attempt + 1)%nat (AxiosErr e) w1) as (H1 & H2 & H3); [lia|lia|].
      cbn zeta in *. split; [exact H1|]. rewrite H2, Ht. split; [done|]. lia.
    + unfold throw. cbn [surfaces fst snd]. split; [by exists e|].
      split; [done|]. lia.
Qed.

(** X13.  [putRecurringPaymentMethod] settles after one to three requests
    without ever waiting, and when it fails it throws the transport error
    of its last attempt as it is, never the error body. *)
Theorem putRecurringPaymentMethod_throws_raw_error net d cfg w :
  let r := recurringPaymentMethodService.putRecurringPaymentMethod net d cfg w in
  surfaces net AxiosErr r
  ∧ timers r.2 = timers w
  ∧ (1 ≤ attempts w r.2 ≤ S recurringPaymentMethodService.MAX_RETRIES)%nat.
Proof.
  destruct (recurring_retryRequest_loop_surfaces net
              recurringPaymentMethodService.BASE_URL d cfg
              recurringPaymentMethodService.MAX_RETRIES
              (S recurringPaymentMethodService.MAX_RETRIES) 0%nat Undefined w)
    as (H1 & H2 & H3); [done|lia|].
  cbn zeta in *. split; [exact H1|]. split; [exact H2|]. unfold attempts.
  unfold recurringPaymentMethodService.putRecurringPaymentMethod,
    recurringPaymentMethodService.retryRequest. lia.
Qed.

Lemma recurring_retryRequest_loop_5xx net u d cfg retries s :
  always_status net s → 500 ≤ s →
  ∀ budget attempt lastError w,
    (attempt + budget = S retries)%nat → (0 < budget)%nat →
    ∃ e w', recurringPaymentMethodService.retryRequest_loop budget
              (bind (recurringPaymentMethodService.put net u d cfg) (λ _, ret tt))
              retries attempt lastError w = (Threw (AxiosErr e), w')
            ∧ length (wire w') = (length (wire w) + budget)%nat.
Proof.
  intros Hnet Hs.
  induction budget as [|budget IH]; intros attempt lastError w Hb Hpos; [lia|].
  cbn [recurringPaymentMethodService.retryRequest_loop].
  rewrite bool_decide_eq_true_2 by lia. unfold try_catch.
  destruct (recurring_put_cases net u d cfg w)
    as [(w1 & Hw & Hlen & Ht)|(e & w1 & Hw & Hfin & Hrep & Hlen & Ht)].
  { exfalso. unfold bind, recurringPaymentMethodService.put, axios_request in Hw.
    destruct (Hnet (length (wire w)) (recurringPaymentMethodService.onRequest w
      (mkRequest PUT u None (Some d) cfg))) as (b & m & Hr). by rewrite Hr in Hw. }
  rewrite Hw.
  destruct (Hnet (length (wire w)) (recurringPaymentMethodService.onRequest w
      (mkRequest PUT u None (Some d) cfg))) as (b & m & Hr).
  rewrite Hr in Hrep. injection Hrep as <-.
  cbn [isAxiosError response_of response andb]. rewrite no_response_or_5xx_Some.
  rewrite (bool_decide_eq_true_2 (500 ≤ s)) by done. cbn [andb].
  destruct (decide (attempt < retries)%nat) as [Hlt|Hge].
  - rewrite bool_decide_eq_true_2 by done.
    destruct (IH (attempt + 1)%nat
                (AxiosErr (mkAxiosError (Some (mkErrorResponse s b)) m)) w1)
      as (e' & w' & H1 & H2); [lia|lia|].
    exists e', w'. split; [exact H1|]. rewrite H2, Hlen. lia.
  - rewrite bool_decide_eq_false_2 by done. eexists _, _. split; [reflexivity|].
    rewrite Hlen. lia.
Qed.

Lemma putRecurringPaymentMethod_by_status net d cfg w s :
  (500 ≤ s → always_status net s →
   ∃ e w', recurringPaymentMethodService.putRecurringPaymentMethod net d cfg w
           = (Threw (AxiosErr e), w')
           ∧ attempts w w' = S recurringPaymentMethodService.MAX_RETRIES)
  ∧ (s < 500 → next_status net w s →
     ∃ e w', recurringPaymentMethodService.putRecurringPaymentMethod net d cfg w
             = (Threw (AxiosErr e), w')
             ∧ attempts w w' = 1%nat).
Proof.
  split.
  - intros Hs Hnet.
    destruct (recurring_retryRequest_loop_5xx net recurringPaymentMethodService.BASE_URL
                d cfg recurringPaymentMethodService.MAX_RETRIES s Hnet Hs
                (S recurringPaymentMethodService.MAX_RETRIES) 0%nat Undefined w)
      as (e & w' & H1 & H2); [done|lia|].
    exists e, w'. split; [exact H1|]. by apply attempts_of_length.
  - intros Hs Hnet.
    unfold recurringPaymentMethodService.putRecurringPaymentMethod,
      recurringPaymentMethodService.retryRequest,
      recurringPaymentMethodService.MAX_RETRIES.
    cbn [recurringPaymentMethodService.retryRequest_loop].
    rewrite bool_decide_eq_true_2 by lia. unfold try_catch.
    destruct (recurring_put_cases net recurringPaymentMethodService.BASE_URL d cfg w)
      as [(w1 & Hw & Hlen & Ht)|(e & w1 & Hw & Hfin & Hrep & Hlen & Ht)].
    { exfalso. unfold bind, recurringPaymentMethodService.put, axios_request in Hw.
      destruct (Hnet (recurringPaymentMethodService.onRequest w
        (mkRequest PUT recurringPaymentMethodService.BASE_URL None (Some d) cfg)))
        as (b & m & Hr). by rewrite Hr in Hw. }
    rewrite Hw.
    destruct (Hnet (recurringPaymentMethodService.onRequest w
        (mkRequest PUT recurringPaymentMethodService.BASE_URL None (Some d) cfg)))
      as (b & m & Hr).
    rewrite Hr in Hrep. injection Hrep as <-.
    cbn [isAxiosError response_of response andb]. rewrite no_response_or_5xx_Some.
    rewrite (bool_decide_eq_false_2 (500 ≤ s)) by lia. cbn [andb].
    eexists _, _. split; [reflexivity|]. apply attempts_of_length. lia.
Qed.

(** X14.  Under a server that always answers with status [s],
    [putRecurringPaymentMethod] makes ceiling + 1 = 3 requests when [s] is
    500 or more and a single request otherwise. *)
Theorem putRecurringPaymentMethod_conditional_retry net d cfg w s :
  always_status net s →
  ∃ e w', recurringPaymentMethodService.putRecurringPaymentMethod net d cfg w
          = (Threw (AxiosErr e), w')
          ∧ attempts w w'
            = (if bool_decide (500 ≤ s)
               then S recurringPaymentMethodService.MAX_RETRIES else 1%nat).
Proof.
  intros Hnet.
  destruct (putRecurringPaymentMethod_by_status net d cfg w s) as [H5 H4].
  case_bool_decide.
  - by apply H5.
  - apply H4; [lia|]. intros r. apply Hnet.
Qed.

Lemma putRecurringPaymentMethod_conditional_retry_witness :
  always_status (server_error 409 None) 409
  ∧ ∃ e w', recurringPaymentMethodService.putRecurringPaymentMethod
              (server_error 409 None) "{}" ∅ world0 = (Threw (AxiosErr e), w')
            ∧ attempts world0 w' = 1%nat.
Proof.
  split; [apply server_error_always|].
  exact (putRecurringPaymentMethod_conditional_retry (server_error 409 None) "{}" ∅
           world0 409 (server_error_always _ _)).
Defined.

(** * Further properties of the mutation hooks *)

Lemma deletePaymentMethod_failure_frame (cl : Client) (err : Thrown)
    (deleted : string) (k : QueryKey) :
  getQueryData k (cache (mutate usePaymentMethods.useDeletePaymentMethod (Some err)
                           deleted cl))
  = getQueryData k (cancelQueries usePaymentMethods.filterKey (cache cl)).
Proof.
  unfold mutate, settle, usePaymentMethods.useDeletePaymentMethod.
  cbn [onMutate onError onSettled].
  pose proof (snapshot_and_patch_restore (λ _, usePaymentMethods.delete_updater deleted)
                cl k ltac:(done)) as H.
  destruct (usePaymentMethods.snapshot_and_patch _ cl) as [prev cl1].
  cbn [with_cache cache fst snd] in *. by rewrite getQueryData_invalidateQueries.
Qed.

(** X15.  The optimistic patch of [useDeletePaymentMethod] removes from
    every payment-methods page found once the fetches under
    ['payment-methods'] are cancelled exactly the entries whose id is the
    deleted one, keeps the others in their order and leaves [total] as it
    was; after a failed mutation the data under every key is what the
    cancelled fetches left. *)
Theorem deletePaymentMethod_patch_and_rollback (cl : Client) (err : Thrown)
    (deleted : string) (k : QueryKey) (pp : Page GetPaymentMethodResponse) :
  partialMatchKey k usePaymentMethods.filterKey = true →
  getQueryData k (cancelQueries usePaymentMethods.filterKey (cache cl))
  = Some (PaymentMethodsPage pp) →
  (∃ p', getQueryData k
           (cache (onMutate usePaymentMethods.useDeletePaymentMethod deleted cl).2)
         = Some (PaymentMethodsPage p')
         ∧ entries p' = filter (λ m, id m ≠ deleted) (entries pp)
         ∧ (∀ m, m ∈ entries p' ↔ m ∈ entries pp ∧ id m ≠ deleted)
         ∧ entries p' `sublist_of` entries pp
         ∧ total p' = total pp)
  ∧ ∀ k', getQueryData k'
            (cache (mutate usePaymentMethods.useDeletePaymentMethod (Some err)
                      deleted cl))
          = getQueryData k' (cancelQueries usePaymentMethods.filterKey (cache cl)).
Proof.
  intros Hk Hp. split; [|intros k'; apply deletePaymentMethod_failure_frame].
  exists (mkPage (filter (λ m, id m ≠ deleted) (entries pp)) (total pp)
                 (pg_page pp) (pg_pageSize pp)).
  split; [|split; [done|split; [|split; [|done]]]].
  - cbn [onMutate usePaymentMethods.useDeletePaymentMethod].
    by apply (snapshot_and_patch_visible _ cl k (PaymentMethodsPage pp)).
  - intros m. cbn [entries]. rewrite list_elem_of_filter. tauto.
  - cbn [entries]. apply sublist_filter.
Qed.

Lemma deletePaymentMethod_patch_and_rollback_witness :
  partialMatchKey (usePaymentMethods.usePaymentMethods_key None)
    usePaymentMethods.filterKey = true
  ∧ getQueryData (usePaymentMethods.usePaymentMethods_key None)
      (cancelQueries usePaymentMethods.filterKey (cache client_busy))
    = Some (PaymentMethodsPage (mkPage [visa; sepa] 2 1 10))
  ∧ ∀ k', getQueryData k'
            (cache (mutate usePaymentMethods.useDeletePaymentMethod (Some Undefined)
                      "pm_1" client_busy))
          = getQueryData k'
              (cancelQueries usePaymentMethods.filterKey (cache client_busy)).
Proof.
  split; [reflexivity|]. split; [vm_compute; reflexivity|].
  destruct (deletePaymentMethod_patch_and_rollback client_busy Undefined "pm_1"
              (usePaymentMethods.usePaymentMethods_key None) (mkPage [visa; sepa] 2 1 10))
    as [_ H]; [reflexivity|vm_compute; reflexivity|exact H].
Defined.

Lemma updateCustomer_failure_frame (id : string) (o : Options) (cl : Client)
    (err : Thrown) (u : useCustomers.PutCustomerRequest) (k : QueryKey) :
  getQueryData k (cache (mutate (useCustomers.useUpdateCustomer id o) (Some err) u cl))
  = getQueryData k (cancelQueries useCustomers.customersKey (cache cl)).
Proof.
  unfold mutate, settle, useCustomers.useUpdateCustomer.
  cbn [onMutate onError onSettled]. unfold useCustomers.updateCustomer_onMutate.
  cbn [with_cache cache]. unfold useCustomers.updateCustomer_onError.
  set (c0 := cancelQueries useCustomers.customersKey (cache cl)).
  destruct (getQueryData useCustomers.customersKey c0) as [[p| | |]|] eqn:Hd;
    cbn [with_cache cache]; rewrite getQueryData_invalidateQueries;
    rewrite ?getQueryData_setQueryData;
    repeat case_decide; subst; (done || congruence).
Qed.

(** X16.  The optimistic patch of [useUpdateCustomer], applied to the
    customers page found once the fetches under ['customers'] are
    cancelled, keeps the number and order of the entries and the total; an
    entry with another account id is unchanged, the entry with the given
    id takes the names, e-mail, phone number, addresses and additional
    e-mail addresses of the request (missing ones becoming empty) and
    keeps its account number, currency and account id; the snapshot is
    that page, and after a failed mutation the data under every key is
    what the cancelled fetches left. *)
Theorem updateCustomer_patch_and_rollback (id : string) (o : Options) (cl : Client)
    (err : Thrown) (u : useCustomers.PutCustomerRequest)
    (pc : Page GetCustomerResponse) :
  getQueryData useCustomers.customersKey
    (cancelQueries useCustomers.customersKey (cache cl)) = Some (Customers pc) →
  (∃ p', getQueryData useCustomers.customersKey
           (cache (onMutate (useCustomers.useUpdateCustomer id o) u cl).2)
         = Some (Customers p')
         ∧ length (entries p') = length (entries pc) ∧ total p' = total pc
         ∧ ∀ i c, entries pc !! i = Some c →
             ∃ c', entries p' !! i = Some c'
                   ∧ accountId c' = accountId c
                   ∧ accountNumber c' = accountNumber c
                   ∧ currency c' = currency c
                   ∧ (accountId c ≠ id → c' = c)
                   ∧ (accountId c = id →
                      firstName c' = useCustomers.pu_firstName u
                      ∧ lastName c' = useCustomers.pu_lastName u
                      ∧ email c' = useCustomers.pu_email u
                      ∧ phoneNumber c' = default "" (useCustomers.pu_phoneNumber u)
                      ∧ addresses c' = useCustomers.pu_addresses u
                      ∧ additionalEmails c'
                        = default [] (useCustomers.additionalEmailAddresses u)))
  ∧ (onMutate (useCustomers.useUpdateCustomer id o) u cl).1 = Some (Customers pc)
  ∧ ∀ k, getQueryData k
           (cache (mutate (useCustomers.useUpdateCustomer id o) (Some err) u cl))
         = getQueryData k (cancelQueries useCustomers.customersKey (cache cl)).
Proof.
  intros Hc. split; [|split; [|intros k; apply updateCustomer_failure_frame]].
  - exists (useCustomers.update_patch id u pc).
    split; [|split; [|split; [done|]]].
    + cbn [onMutate useCustomers.useUpdateCustomer].
      unfold useCustomers.updateCustomer_onMutate. cbn [snd with_cache cache].
      rewrite Hc. cbn [with_cache cache].
      by rewrite getQueryData_setQueryData, decide_True by done.
    + cbn [useCustomers.update_patch entries]. apply length_fmap.
    + intros i c Hi. cbn [useCustomers.update_patch entries].
      rewrite list_lookup_fmap, Hi. cbn. eexists. split; [reflexivity|].
      case_decide; cbn [useCustomers.updatedEntry accountId accountNumber currency
        firstName lastName email phoneNumber addresses additionalEmails]; done.
  - cbn [onMutate useCustomers.useUpdateCustomer].
    unfold useCustomers.updateCustomer_onMutate. by cbn [fst with_cache cache].
Qed.

Lemma updateCustomer_patch_and_rollback_witness :
  getQueryData useCustomers.customersKey
    (cancelQueries useCustomers.customersKey (cache client_reloading))
  = Some (Customers (mkPage [alice] 1 1 10))
  ∧ ∀ k, getQueryData k
           (cache (mutate (useCustomers.useUpdateCustomer "acc-1" no_options)
                     (Some Undefined) rename_bob client_reloading))
         = getQueryData k
             (cancelQueries useCustomers.customersKey (cache client_reloading)).
Proof.
  split; [vm_compute; reflexivity|].
  destruct (updateCustomer_patch_and_rollback "acc-1" no_options client_reloading
              Undefined rename_bob (mkPage [alice] 1 1 10)) as (_ & _ & H);
    [vm_compute; reflexivity|exact H].
Defined.

Example updateCustomer_patch_client0 :
  getQueryData useCustomers.customersKey
    (cache (onMutate (useCustomers.useUpdateCustomer "acc-1" no_options)
              rename_bob client0).2)
  = Some (Customers
            (mkPage [mkCustomer "A-1" "Bob" "Roe" "bob@example.org" "EUR" "" [] []
                       "acc-1"] 1 1 10)).
Proof. vm_compute. reflexivity. Qed.

(** The update is applied to the page the fetch started from. *)
Example updateCustomer_patch_client_reloading :
  getQueryData useCustomers.customersKey (cache client_reloading)
  = Some (Customers (mkPage [] 0 1 10))
  ∧ getQueryData useCustomers.customersKey
      (cache (onMutate (useCustomers.useUpdateCustomer "acc-1" no_options)
                rename_bob client_reloading).2)
    = Some (Customers
              (mkPage [mkCustomer "A-1" "Bob" "Roe" "bob@example.org" "EUR" "" [] []
                         "acc-1"] 1 1 10)).
Proof. split; vm_compute; reflexivity. Qed.

(** ** A successful mutation *)

(** X17.  A successful create-customer mutation does not write the
    created customer into the cache: the page under ['customers'] is the
    snapshot page with the optimistic placeholder in front and the total
    raised by one as a JavaScript number, and the query is marked for
    refetch. *)
Theorem createCustomer_success_keeps_placeholder (o : Options) (cl : Client)
    (v : useCustomers.Variables) (pc : Page GetCustomerResponse) :
  getQueryData useCustomers.customersKey
    (cancelQueries useCustomers.customersKey (cache cl)) = Some (Customers pc) →
  getQueryData useCustomers.customersKey
    (cache (mutate (useCustomers.useCreateCustomer o) None v cl))
  = Some (Customers (mkPage (useCustomers.optimisticCustomer v :: entries pc)
                            (js_add (total pc) 1) (pg_page pc) (pg_pageSize pc)))
  ∧ marked useCustomers.customersKey (mutate (useCustomers.useCreateCustomer o) None v cl)
  ∧ is_Some (cache (mutate (useCustomers.useCreateCustomer o) None v cl)
               !! useCustomers.customersKey).
Proof.
  intros Hc. unfold mutate, settle, useCustomers.useCreateCustomer.
  cbn [onMutate onSuccess onSettled]. unfold useCustomers.createCustomer_onMutate.
  cbn [with_cache cache]. rewrite Hc.
  unfold useCustomers.createCustomer_onSettled.
  set (cl1 := with_cache _ (with_cache _ cl)).
  cbn [with_cache cache]. rewrite cache_when_call.
  assert (Hd : getQueryData useCustomers.customersKey (cache cl1)
               = Some (Customers (useCustomers.patch v pc))).
  { unfold cl1. cbn [with_cache cache].
    by rewrite getQueryData_setQueryData, decide_True by done. }
  split; [by rewrite getQueryData_invalidateQueries|]. split.
  - intros q Hq. by apply (invalidateQueries_marks _ _ _ _ Hq).
  - apply invalidateQueries_is_Some. unfold getQueryData in Hd.
    destruct (cache cl1 !! useCustomers.customersKey); [eauto|done].
Qed.

Lemma createCustomer_success_keeps_placeholder_witness :
  getQueryData useCustomers.customersKey
    (cancelQueries useCustomers.customersKey (cache client0))
  = Some (Customers (mkPage [alice] 1 1 10))
  ∧ getQueryData useCustomers.customersKey
      (cache (mutate (useCustomers.useCreateCustomer no_options) None bob client0))
    = Some (Customers (mkPage (useCustomers.optimisticCustomer bob :: [alice])
                              (js_add 1 1) 1 10)).
Proof.
  split; [vm_compute; reflexivity|].
  destruct (createCustomer_success_keeps_placeholder no_options client0 bob
              (mkPage [alice] 1 1 10)) as [H _]; [vm_compute; reflexivity|exact H].
Defined.

(** A total of [2^53] is not raised by the placeholder. *)
Example createCustomer_total_at_2_53 :
  let cl := mkClient
              (<[useCustomers.customersKey :=
                   mkQuery (Some (Customers (mkPage [alice] (2 ^ 53) 1 10))) false None]> ∅)
              [] in
  getQueryData useCustomers.customersKey
    (cache (onMutate (useCustomers.useCreateCustomer no_options) bob cl).2)
  = Some (Customers (mkPage [useCustomers.optimisticCustomer bob; alice] (2 ^ 53) 1 10)).
Proof. vm_compute. reflexivity. Qed.

(** ** No cached page under the key *)

(** X18.  When the query under ['customers'] holds no page once its fetch
    is cancelled, the create and the update mutation take an empty
    snapshot and patch nothing: whatever the outcome, the data under every
    key is what the cancelled fetches left, and no query is created or
    removed. *)
Theorem customers_mutation_needs_cached_page (id : string) (o : Options) (cl : Client)
    (v : useCustomers.Variables) (u : useCustomers.PutCustomerRequest)
    (outcome : option Thrown) (k : QueryKey) :
  getQueryData useCustomers.customersKey
    (cancelQueries useCustomers.customersKey (cache cl)) = None →
  (onMutate (useCustomers.useCreateCustomer o) v cl).1 = None
  ∧ (onMutate (useCustomers.useUpdateCustomer id o) u cl).1 = None
  ∧ getQueryData k (cache (mutate (useCustomers.useCreateCustomer o) outcome v cl))
    = getQueryData k (cancelQueries useCustomers.customersKey (cache cl))
  ∧ getQueryData k (cache (mutate (useCustomers.useUpdateCustomer id o) outcome u cl))
    = getQueryData k (cancelQueries useCustomers.customersKey (cache cl))
  ∧ (is_Some (cache (mutate (useCustomers.useCreateCustomer o) outcome v cl) !! k)
     ↔ is_Some (cache cl !! k))
  ∧ (is_Some (cache (mutate (useCustomers.useUpdateCustomer id o) outcome u cl) !! k)
     ↔ is_Some (cache cl !! k)).
Proof.
  intros Hc. unfold mutate, settle, useCustomers.useCreateCustomer,
    useCustomers.useUpdateCustomer.
  cbn [onMutate onSuccess onError onSettled].
  unfold useCustomers.createCustomer_onMutate, useCustomers.updateCustomer_onMutate.
  cbn [with_cache cache fst]. rewrite Hc.
  unfold useCustomers.createCustomer_onSettled, useCustomers.createCustomer_onError,
    useCustomers.updateCustomer_onError.
  set (cl1 := with_cache _ cl).
  split; [done|]. split; [done|].
  destruct outcome as [e|]; cbn [with_cache cache]; rewrite ?cache_when_call;
    rewrite !getQueryData_invalidateQueries, !invalidateQueries_is_Some;
    unfold cl1; cbn [with_cache cache];
    rewrite !lookup_cancelQueries_is_Some; done.
Qed.

Lemma customers_mutation_needs_cached_page_witness :
  getQueryData useCustomers.customersKey
    (cancelQueries useCustomers.customersKey (cache client1)) = None
  ∧ getQueryData useCustomers.customersKey
      (cache (mutate (useCustomers.useCreateCustomer no_options) None bob client1))
    = getQueryData useCustomers.customersKey
        (cancelQueries useCustomers.customersKey (cache client1)).
Proof.
  split; [vm_compute; reflexivity|].
  destruct (customers_mutation_needs_cached_page "acc-1" no_options client1 bob
              rename_bob None useCustomers.customersKey) as (_ & _ & H & _);
    [vm_compute; reflexivity|exact H].
Defined.

(** ** The recurring-payment-method mutation *)

Lemma recurring_failure_frame (o : Options) (cl : Client) (err : Thrown) (P : string)
    (k : QueryKey) :
  getQueryData k
    (cache (mutate (useRecurringPaymentMethod.useRecurringPaymentMethod o) (Some err) P cl))
  = getQueryData k
      (cancelQueries useRecurringPaymentMethod.paymentMethodsKey (cache cl)).
Proof.
  unfold mutate, settle, useRecurringPaymentMethod.useRecurringPaymentMethod.
  cbn [onMutate onError onSettled].
  pose proof (recurring_onMutate_data o P cl k) as Hk.
  pose proof (recurring_onMutate_snapshot o P cl) as Hctx.
  destruct (useRecurringPaymentMethod.recurring_onMutate o P cl) as [ctx cl1].
  cbn [fst snd] in *. subst ctx.
  unfold useRecurringPaymentMethod.recurring_onError. rewrite cache_when_call.
  destruct (getQueryData useRecurringPaymentMethod.paymentMethodsKey
              (cancelQueries useRecurringPaymentMethod.paymentMethodsKey (cache cl)))
    as [d|] eqn:Hd; cbn [with_cache cache]; rewrite ?cache_when_call.
  - rewrite getQueryData_setQueryData.
    destruct (decide (useRecurringPaymentMethod.paymentMethodsKey = k)) as [<-|Hne];
      [done|]. rewrite Hk, decide_False by done. done.
  - rewrite Hk. case_decide as Hkk; [|done]. subst k. by rewrite Hd.
Qed.

Lemma recurring_failure_called (o : Options) (cl : Client) (err : Thrown) (P : string) :
  called (mutate (useRecurringPaymentMethod.useRecurringPaymentMethod o) (Some err) P cl)
  = called cl
    ++ (if has_optimisticUpdate o then [OptimisticUpdate] else [])
    ++ (if has_rollback o then [Rollback] else [])
    ++ (if has_onError o then [OnError err] else []).
Proof.
  unfold mutate, settle, useRecurringPaymentMethod.useRecurringPaymentMethod.
  cbn [onMutate onError onSettled].
  unfold useRecurringPaymentMethod.recurring_onMutate,
    useRecurringPaymentMethod.recurring_onError.
  rewrite called_when_call.
  set (cl1 := with_cache _ (with_cache _ _)).
  assert (H1 : called cl1 = called cl
                 ++ (if has_optimisticUpdate o then [OptimisticUpdate] else [])).
  { unfold cl1. cbn [with_cache called]. apply called_when_call. }
  destruct (getQueryData _ _) as [d|]; cbn [with_cache called];
    rewrite called_when_call, H1, <- !app_assoc; done.
Qed.

(** X19.  When the call behind the recurring-payment-method mutation
    throws [e], the mutation rejects with [e], the data under every key is
    what cancelling the fetches under ['payment-methods'] left, and the
    caller's callbacks have run in the order [optimisticUpdate],
    [rollback], [onError e], each only if the caller passed it. *)
Theorem recurring_failed_call_rolls_back {A} (o : Options) (fn : string → Async A)
    (P : string) (w w' : World) (cl : Client) (e : Thrown) :
  fn P w = (Threw e, w') →
  ∃ cl', execute (useRecurringPaymentMethod.useRecurringPaymentMethod o) fn P (w, cl)
         = (Threw e, (w', cl'))
         ∧ (∀ k, getQueryData k (cache cl')
                 = getQueryData k
                     (cancelQueries useRecurringPaymentMethod.paymentMethodsKey
                        (cache cl)))
         ∧ called cl'
           = called cl
             ++ (if has_optimisticUpdate o then [OptimisticUpdate] else [])
             ++ (if has_rollback o then [Rollback] else [])
             ++ (if has_onError o then [OnError e] else []).
Proof.
  intros Hfn.
  exists (mutate (useRecurringPaymentMethod.useRecurringPaymentMethod o) (Some e) P cl).
  split; [|split].
  - unfold execute, mutate. cbn [fst snd].
    destruct (onMutate _ P cl) as [ctx cl1]. by rewrite Hfn.
  - intros k. apply recurring_failure_frame.
  - apply recurring_failure_called.
Qed.

Lemma recurring_failed_call_rolls_back_witness :
  ∃ w' cl',
    recurringPaymentMethodService.putRecurringPaymentMethod (server_error 503 None)
      "pm_2" ∅ world0
    = (Threw (AxiosErr (mkAxiosError (Some (mkErrorResponse 503 None)) "Request failed")),
       w')
    ∧ execute (useRecurringPaymentMethod.useRecurringPaymentMethod all_options)
        (λ paymentMethodId,
           recurringPaymentMethodService.putRecurringPaymentMethod
             (server_error 503 None) paymentMethodId ∅)
        "pm_2" (world0, client1)
      = (Threw (AxiosErr (mkAxiosError (Some (mkErrorResponse 503 None))
                            "Request failed")),
         (w', cl'))
    ∧ called cl'
      = [OptimisticUpdate; Rollback;
         OnError (AxiosErr (mkAxiosError (Some (mkErrorResponse 503 None))
                              "Request failed"))].
Proof.
  eexists.
  assert (Hfn : recurringPaymentMethodService.putRecurringPaymentMethod
                  (server_error 503 None) "pm_2" ∅ world0
                = (Threw (AxiosErr (mkAxiosError (Some (mkErrorResponse 503 None))
                                      "Request failed")),
                   (recurringPaymentMethodService.putRecurringPaymentMethod
                      (server_error 503 None) "pm_2" ∅ world0).2)).
  { vm_compute. reflexivity. }
  destruct (recurring_failed_call_rolls_back all_options
              (λ paymentMethodId,
                 recurringPaymentMethodService.putRecurringPaymentMethod
                   (server_error 503 None) paymentMethodId ∅)
              "pm_2" world0 _ client1 _ Hfn) as (cl' & Hex & _ & Hcalled).
  exists cl'. split; [exact Hfn|]. split; [exact Hex|]. exact Hcalled.
Defined.

(** ** Rollbacks while another mutation is pending *)

Lemma is_Some_updateQueryData (k k' : QueryKey) (u : option Data → option Data)
    (c : gmap QueryKey Query) :
  u None = None →
  is_Some (updateQueryData k u c !! k') ↔ is_Some (c !! k').
Proof.
  intros Hu. unfold updateQueryData, setQueryData.
  destruct (u (getQueryData k c)) as [d|] eqn:Hd; [|done].
  destruct (decide (k = k')) as [<-|Hne].
  - rewrite lookup_insert_eq. split; [intros _|eauto].
    unfold getQueryData in Hd. destruct (c !! k) as [q|]; [eauto|].
    cbn in Hd. congruence.
  - by rewrite lookup_insert_ne.
Qed.

Lemma is_Some_setQueriesData (f k : QueryKey)
    (u : QueryKey → option Data → option Data) (c : gmap QueryKey Query) :
  (∀ k', u k' None = None) →
  is_Some (setQueriesData f u c !! k) ↔ is_Some (c !! k).
Proof.
  intros Hu. unfold setQueriesData.
  induction (findAll f c) as [|[k0 q0] l IH]; cbn [foldr fst]; [done|].
  by rewrite is_Some_updateQueryData.
Qed.

Lemma patch_of_None (m : Mutation) (k : QueryKey) : patch_of m k None = None.
Proof. by destruct m. Qed.

Lemma patch_of_is_None (m : Mutation) (k : QueryKey) (d : option Data) :
  patch_of m k d = None ↔ d = None.
Proof. destruct m, d as [[]|]; cbn; split; congruence. Qed.

Lemma begin_is_Some (m : Mutation) (cl : Client) (k : QueryKey) :
  is_Some (cache (begin m cl).2 !! k) ↔ is_Some (cache cl !! k).
Proof.
  destruct m as [v|i|o i]; cbn [begin onMutate
    usePaymentMethods.useCreatePaymentMethod usePaymentMethods.useDeletePaymentMethod
    useRecurringPaymentMethod.useRecurringPaymentMethod].
  - unfold usePaymentMethods.snapshot_and_patch. cbn [snd with_cache cache].
    by rewrite is_Some_setQueriesData, lookup_cancelQueries_is_Some.
  - unfold usePaymentMethods.snapshot_and_patch. cbn [snd with_cache cache].
    by rewrite is_Some_setQueriesData, lookup_cancelQueries_is_Some.
  - unfold useRecurringPaymentMethod.recurring_onMutate. cbn [snd with_cache cache].
    by rewrite is_Some_updateQueryData, lookup_cancelQueries_is_Some, cache_when_call.
Qed.

Lemma on_begin_is_Some (cl : Client) (k : QueryKey) :
  is_Some (on_begin cl !! k) ↔ is_Some (cache cl !! k).
Proof. apply lookup_cancelQueries_is_Some. Qed.

(** What [onMutate] leaves under every key. *)
Lemma begin_data (m : Mutation) (cl : Client) (k : QueryKey) :
  getQueryData k (cache (begin m cl).2)
  = if touches m k (cache cl) then patch_of m k (getQueryData k (on_begin cl))
    else getQueryData k (on_begin cl).
Proof.
  destruct (touches m k (cache cl)) eqn:Ht; [by apply begin_touched|].
  destruct m as [v|i|o i]; cbn [touches begin onMutate
    usePaymentMethods.useCreatePaymentMethod usePaymentMethods.useDeletePaymentMethod
    useRecurringPaymentMethod.useRecurringPaymentMethod] in *.
  - unfold usePaymentMethods.snapshot_and_patch, on_begin. cbn [snd with_cache cache].
    rewrite getQueryData_setQueriesData.
    rewrite decide_False; [done|]. rewrite findAll_keys, lookup_cancelQueries_is_Some.
    intros [Hk Hs]. rewrite Hk, bool_decide_eq_true_2 in Ht by done. done.
  - unfold usePaymentMethods.snapshot_and_patch, on_begin. cbn [snd with_cache cache].
    rewrite getQueryData_setQueriesData.
    rewrite decide_False; [done|]. rewrite findAll_keys, lookup_cancelQueries_is_Some.
    intros [Hk Hs]. rewrite Hk, bool_decide_eq_true_2 in Ht by done. done.
  - pose proof (recurring_onMutate_data o i cl k) as H.
    destruct (useRecurringPaymentMethod.recurring_onMutate o i cl) as [c cl'].
    cbn [snd] in *. rewrite H. apply bool_decide_eq_false in Ht.
    by rewrite decide_False.
Qed.

(** The snapshot list of a create or delete mutation. *)
Lemma begin_baseline_list (m : Mutation) (cl : Client) (k : QueryKey) :
  (∀ o i, m ≠ SetDefault o i) →
  ∃ prev, (begin m cl).1 = Prev prev ∧ NoDup prev.*1
          ∧ (list_to_map prev : gmap QueryKey (option Data)) !! k
            = if touches m k (cache cl) then Some (getQueryData k (on_begin cl))
              else None.
Proof.
  intros Hm.
  assert (Hgen : ∀ u,
    let prev := (usePaymentMethods.snapshot_and_patch u cl).1 in
    NoDup prev.*1
    ∧ (list_to_map prev : gmap QueryKey (option Data)) !! k
      = if partialMatchKey k usePaymentMethods.filterKey
           && bool_decide (is_Some (cache cl !! k))
        then Some (getQueryData k (on_begin cl)) else None).
  { intros u. unfold usePaymentMethods.snapshot_and_patch, on_begin.
    cbn [fst with_cache cache].
    split; [rewrite getQueriesData_fst; apply findAll_NoDup|].
    rewrite getQueriesData_lookup.
    destruct (decide (k ∈ (findAll usePaymentMethods.filterKey
                             (cancelQueries usePaymentMethods.filterKey (cache cl))).*1))
      as [Hin|Hnin].
    - pose proof Hin as [Hk Hs]%findAll_keys.
      pose proof Hs as Hs'%lookup_cancelQueries_is_Some.
      rewrite Hk, bool_decide_eq_true_2 by done. cbn [andb].
      destruct Hs as [q Hq]. unfold getQueryData. by rewrite Hq.
    - destruct (partialMatchKey k usePaymentMethods.filterKey) eqn:Hk; [|done].
      cbn [andb]. case_bool_decide as Hs; [|done].
      exfalso. apply Hnin, findAll_keys. split; [done|].
      by apply lookup_cancelQueries_is_Some. }
  destruct m as [v|i|o i]; [| |by destruct (Hm o i)];
    cbn [begin onMutate touches usePaymentMethods.useCreatePaymentMethod
         usePaymentMethods.useDeletePaymentMethod].
  - destruct (Hgen (usePaymentMethods.create_updater v)) as [H1 H2].
    destruct (usePaymentMethods.snapshot_and_patch _ cl) as [prev cl1].
    cbn [fst] in *. eauto.
  - destruct (Hgen (λ _, usePaymentMethods.delete_updater i)) as [H1 H2].
    destruct (usePaymentMethods.snapshot_and_patch _ cl) as [prev cl1].
    cbn [fst] in *. eauto.
Qed.

Lemma reconcile_failure_list (m : Mutation) (prev : usePaymentMethods.Context)
    (err : Thrown) (cl : Client) (k : QueryKey) :
  (∀ o i, m ≠ SetDefault o i) → NoDup prev.*1 →
  getQueryData k (cache (reconcile m (Prev prev) (Some err) cl))
  = match (list_to_map prev : gmap QueryKey (option Data)) !! k with
    | Some (Some d) => Some d
    | _ => getQueryData k (cache cl)
    end.
Proof.
  intros Hm Hnd.
  destruct m as [v|i|o i]; [| |by destruct (Hm o i)];
    cbn [reconcile settle onError onSettled usePaymentMethods.useCreatePaymentMethod
         usePaymentMethods.useDeletePaymentMethod with_cache cache];
    by rewrite getQueryData_invalidateQueries, getQueryData_restore.
Qed.

Lemma touches_list_is_Some (m : Mutation) (k : QueryKey) (c : gmap QueryKey Query) :
  (∀ o i, m ≠ SetDefault o i) →
  touches m k c = partialMatchKey k usePaymentMethods.filterKey
                  && bool_decide (is_Some (c !! k)).
Proof. intros Hm. destruct m as [v|i|o i]; [done|done|by destruct (Hm o i)]. Qed.

Lemma first_rollback_data (cl : Client) (m1 m2 : Mutation) (err : Thrown)
    (k : QueryKey) :
  (∀ o i, m1 ≠ SetDefault o i) →
  getQueryData k
    (cache (reconcile m1 (begin m1 cl).1 (Some err) (begin m2 (begin m1 cl).2).2))
  = getQueryData k (on_begin cl).
Proof.
  intros Hm1.
  destruct (begin_baseline_list m1 cl k Hm1) as (prev & Hprev & Hnd & Hlk).
  rewrite Hprev, (reconcile_failure_list m1 prev err _ k Hm1 Hnd), Hlk.
  rewrite (begin_data m2), on_begin_begin, (begin_data m1 cl k).
  destruct (touches m1 k (cache cl)) eqn:Ht1.
  - destruct (getQueryData k (on_begin cl)) as [d|] eqn:Hd; [done|].
    rewrite patch_of_None. destruct (touches m2 k _); [apply patch_of_None|done].
  - destruct (touches m2 k (cache (begin m1 cl).2)) eqn:Ht2; [|done].
    destruct m2 as [v|i|o i].
    + rewrite touches_list_is_Some in Ht1, Ht2 by done.
      apply andb_true_iff in Ht2 as [Hk Hs%bool_decide_eq_true].
      apply begin_is_Some in Hs. rewrite Hk, bool_decide_eq_true_2 in Ht1 by done. done.
    + rewrite touches_list_is_Some in Ht1, Ht2 by done.
      apply andb_true_iff in Ht2 as [Hk Hs%bool_decide_eq_true].
      apply begin_is_Some in Hs. rewrite Hk, bool_decide_eq_true_2 in Ht1 by done. done.
    + cbn [touches] in Ht2. apply bool_decide_eq_true in Ht2 as ->.
      rewrite touches_list_is_Some in Ht1 by done.
      assert (Hk : partialMatchKey useRecurringPaymentMethod.paymentMethodsKey
                     usePaymentMethods.filterKey = true) by reflexivity.
      rewrite Hk in Ht1. cbn [andb] in Ht1. apply bool_decide_eq_false in Ht1.
      assert (Hn : getQueryData useRecurringPaymentMethod.paymentMethodsKey (on_begin cl)
                   = None).
      { unfold getQueryData.
        destruct (on_begin cl !! useRecurringPaymentMethod.paymentMethodsKey) eqn:Hq;
          [|done].
        exfalso. apply Ht1. apply on_begin_is_Some. eauto. }
      rewrite Hn. apply patch_of_None.
Qed.

(** X20.  When a create or delete payment-method mutation fails while a
    later payment-methods mutation is still pending, its rollback puts
    back the state from before both, that is, the data found when the
    first cancelled the fetches: the later mutation remains pending and
    its optimistic patch is gone from every key. *)
Theorem first_rollback_erases_pending_patch (cl : Client) (m1 m2 : Mutation)
    (err : Thrown) :
  let s1 := mkSession (begin m1 cl).2 [(m1, (begin m1 cl).1)] in
  let s2 := mkSession (begin m2 (client s1)).2
                      [(m1, (begin m1 cl).1); (m2, (begin m2 (client s1)).1)] in
  let s3 := mkSession (reconcile m1 (begin m1 cl).1 (Some err) (client s2))
                      [(m2, (begin m2 (client s1)).1)] in
  (∀ o i, m1 ≠ SetDefault o i) →
  step (mkSession cl []) s1 ∧ step s1 s2 ∧ step s2 s3
  ∧ pending s3 = [(m2, (begin m2 (client s1)).1)]
  ∧ ∀ k, visible k s3 = getQueryData k (on_begin cl).
Proof.
  intros s1 s2 s3 Hm1.
  split; [apply (step_begin (mkSession cl []) m1)|].
  split; [apply (step_begin s1 m2)|].
  split; [apply (step_settle s2 0 m1 (begin m1 cl).1 (Some err)); done|].
  split; [done|]. intros k. apply first_rollback_data, Hm1.
Qed.

Lemma first_rollback_erases_pending_patch_witness :
  (∀ o i, card_x7 ≠ SetDefault o i)
  ∧ ∀ k, visible k
           (mkSession (reconcile card_x7 (begin card_x7 client_busy).1 (Some Undefined)
                         (begin card_q2 (begin card_x7 client_busy).2).2)
                      [(card_q2, (begin card_q2 (begin card_x7 client_busy).2).1)])
         = getQueryData k (on_begin client_busy).
Proof.
  split; [intros o i; discriminate|].
  destruct (first_rollback_erases_pending_patch client_busy card_x7 card_q2 Undefined)
    as (_ & _ & _ & _ & H); [intros o i; discriminate|exact H].
Defined.

(** X21.  When two overlapping create or delete payment-method mutations
    both fail, the first to begin settling first, the first rollback puts
    back the data found when the first mutation cancelled the fetches, and
    the second rollback then restores the snapshot that was taken while
    the first patch was in place: the cache ends in the state the first
    patch produced. *)
Theorem second_rollback_restores_first_patch (cl : Client) (m1 m2 : Mutation)
    (e1 e2 : Thrown) (k : QueryKey) :
  (∀ o i, m1 ≠ SetDefault o i) → (∀ o i, m2 ≠ SetDefault o i) →
  let cl1 := (begin m1 cl).2 in
  let cl2 := (begin m2 cl1).2 in
  let cl3 := reconcile m1 (begin m1 cl).1 (Some e1) cl2 in
  let cl4 := reconcile m2 (begin m2 cl1).1 (Some e2) cl3 in
  getQueryData k (cache cl3) = getQueryData k (on_begin cl)
  ∧ getQueryData k (cache cl4) = getQueryData k (cache cl1).
Proof.
  intros Hm1 Hm2 cl1 cl2 cl3 cl4.
  split; [by apply first_rollback_data|].
  unfold cl4.
  destruct (begin_baseline_list m2 cl1 k Hm2) as (prev & Hprev & Hnd & Hlk).
  rewrite Hprev, (reconcile_failure_list m2 prev e2 _ k Hm2 Hnd), Hlk.
  unfold cl3, cl2, cl1. rewrite first_rollback_data by done.
  rewrite on_begin_begin, (begin_data m1 cl k).
  fold cl1.
  destruct (touches m2 k (cache cl1)) eqn:Ht2.
  - destruct (touches m1 k (cache cl)) eqn:Ht1.
    + destruct (patch_of m1 k (getQueryData k (on_begin cl))) as [d|] eqn:Hp; [done|].
      by apply patch_of_is_None in Hp.
    + by destruct (getQueryData k (on_begin cl)).
  - destruct (touches m1 k (cache cl)) eqn:Ht1; [|done].
    rewrite touches_list_is_Some in Ht1, Ht2 by done.
    apply andb_true_iff in Ht1 as [Hk Hs%bool_decide_eq_true].
    apply (begin_is_Some m1) in Hs. fold cl1 in Hs.
    rewrite Hk, bool_decide_eq_true_2 in Ht2 by done. done.
Qed.

Lemma second_rollback_restores_first_patch_witness :
  (∀ o i, card_x7 ≠ SetDefault o i) ∧ (∀ o i, card_q2 ≠ SetDefault o i)
  ∧ getQueryData (usePaymentMethods.usePaymentMethods_key None)
      (cache (reconcile card_q2 (begin card_q2 (begin card_x7 client0).2).1
                (Some Undefined)
                (reconcile card_x7 (begin card_x7 client0).1 (Some Undefined)
                   (begin card_q2 (begin card_x7 client0).2).2)))
    = getQueryData (usePaymentMethods.usePaymentMethods_key None)
        (cache (begin card_x7 client0).2).
Proof.
  split; [intros o i; discriminate|]. split; [intros o i; discriminate|].
  destruct (second_rollback_restores_first_patch client0 card_x7 card_q2 Undefined
              Undefined (usePaymentMethods.usePaymentMethods_key None))
    as [_ H]; [intros o i; discriminate|intros o i; discriminate|exact H].
Defined.

Example both_rollbacks_leave_placeholder :
  getQueryData (usePaymentMethods.usePaymentMethods_key None)
    (cache (reconcile card_q2 (begin card_q2 (begin card_x7 client0).2).1
              (Some Undefined)
              (reconcile card_x7 (begin card_x7 client0).1 (Some Undefined)
                 (begin card_q2 (begin card_x7 client0).2).2)))
  = Some (PaymentMethodsPage
            (mkPage [mkPaymentMethod "optimistic-x7" false "card" None; visa; sepa]
                    2 1 10)).
Proof. vm_compute. reflexivity. Qed.

(** ** Choosing the default payment method twice *)

Lemma setDefault_setDefault (P Q : string) (pm : GetPaymentMethodResponse) :
  useRecurringPaymentMethod.setDefault Q (useRecurringPaymentMethod.setDefault P pm)
  = useRecurringPaymentMethod.setDefault Q pm.
Proof.
  unfold useRecurringPaymentMethod.setDefault.
  destruct (decide (id pm = P)); cbn [id paymentMethodType creditCardData];
    by destruct (decide (id pm = Q)).
Qed.

Lemma updater_updater (P Q : string) (d : option Data) :
  useRecurringPaymentMethod.updater Q (useRecurringPaymentMethod.updater P d)
  = useRecurringPaymentMethod.updater Q d.
Proof.
  destruct d as [[p|p|p|r]|]; cbn; try done.
  do 2 f_equal. f_equal. rewrite <- list_fmap_compose.
  apply list_fmap_ext. intros i pm _. apply setDefault_setDefault.
Qed.

Lemma recurring_onMutate_idle (o : Options) (P : string) (cl : Client) :
  idle useRecurringPaymentMethod.paymentMethodsKey
    (cache (useRecurringPaymentMethod.recurring_onMutate o P cl).2).
Proof.
  unfold useRecurringPaymentMethod.recurring_onMutate, updateQueryData.
  cbn [snd with_cache cache]. apply idle_setQueryData, idle_cancelQueries.
Qed.

(** X22.  When a second recurring-payment-method mutation begins before
    the first has settled, the cache is as if only the second had begun,
    and the snapshot the second takes is the page as the first patched
    it. *)
Theorem later_default_choice_wins (o1 o2 : Options) (cl : Client) (P Q : string)
    (k : QueryKey) :
  let h1 := useRecurringPaymentMethod.useRecurringPaymentMethod o1 in
  let h2 := useRecurringPaymentMethod.useRecurringPaymentMethod o2 in
  getQueryData k (cache (onMutate h2 Q (onMutate h1 P cl).2).2)
  = getQueryData k (cache (onMutate h2 Q cl).2)
  ∧ (onMutate h2 Q (onMutate h1 P cl).2).1
    = getQueryData useRecurringPaymentMethod.paymentMethodsKey
        (cache (onMutate h1 P cl).2).
Proof.
  intros h1 h2. unfold h1, h2.
  cbn [onMutate useRecurringPaymentMethod.useRecurringPaymentMethod].
  pose proof (cancelQueries_idle _ _ (recurring_onMutate_idle o1 P cl)) as Hidle.
  split.
  - rewrite (recurring_onMutate_data o2 Q), Hidle, (recurring_onMutate_data o1 P),
      (recurring_onMutate_data o2 Q cl).
    case_decide; [|done]. apply updater_updater.
  - by rewrite recurring_onMutate_snapshot, Hidle.
Qed.

(** ** The create-subscription mutation *)

Lemma useSubscriptions_key_inj (p q : Params) :
  useSubscriptions.useSubscriptions_key p = useSubscriptions.useSubscriptions_key q → p = q.
Proof. unfold useSubscriptions.useSubscriptions_key. congruence. Qed.

(** X23.  The optimistic patch of [useCreateSubscription] prepends the
    new entry to the page found for [useSubscriptions()] without
    parameters once the fetches under ['subscriptions'] are cancelled, and
    raises its total by one as a JavaScript number; the page cached for
    any other parameters is not patched, its data is what the cancelled
    fetch leaves, although it is among the queries the mutation cancels
    and invalidates. *)
Theorem createSubscription_patches_default_list_only (cl : Client)
    (newSub : SubscriptionEntry) (p : Params) (page0 : Page SubscriptionEntry) :
  getQueryData (useSubscriptions.useSubscriptions_key (mkParams None None))
    (cancelQueries useSubscriptions.filterKey (cache cl))
  = Some (SubscriptionsPage page0) →
  p ≠ mkParams None None →
  let cl' := (onMutate useSubscriptions.useCreateSubscription newSub cl).2 in
  getQueryData (useSubscriptions.useSubscriptions_key (mkParams None None)) (cache cl')
  = Some (SubscriptionsPage
            (mkPage (newSub :: entries page0) (js_add (total page0) 1)
                    (pg_page page0) (pg_pageSize page0)))
  ∧ getQueryData (useSubscriptions.useSubscriptions_key p) (cache cl')
    = getQueryData (useSubscriptions.useSubscriptions_key p)
        (cancelQueries useSubscriptions.filterKey (cache cl))
  ∧ partialMatchKey (useSubscriptions.useSubscriptions_key p) useSubscriptions.filterKey
    = true.
Proof.
  intros H0 Hp cl'. unfold cl'.
  cbn [onMutate useSubscriptions.useCreateSubscription].
  unfold useSubscriptions.createSubscription_onMutate. cbn [snd with_cache cache].
  change (useSubscriptions.useSubscriptions_key (mkParams None None))
    with useSubscriptions.listKey in *.
  rewrite H0. cbn [with_cache cache].
  rewrite !getQueryData_setQueryData, decide_True by done.
  split; [done|]. split.
  - rewrite decide_False; [done|].
    intros Heq. apply Hp. symmetry. by apply useSubscriptions_key_inj.
  - unfold useSubscriptions.useSubscriptions_key, useSubscriptions.filterKey.
    cbn. by rewrite bool_decide_eq_true_2.
Qed.

Lemma createSubscription_patches_default_list_only_witness :
  getQueryData (useSubscriptions.useSubscriptions_key (mkParams None None))
    (cancelQueries useSubscriptions.filterKey (cache client2))
  = Some (SubscriptionsPage (mkPage [] 0 1 10))
  ∧ second_page ≠ mkParams None None
  ∧ getQueryData (useSubscriptions.useSubscriptions_key second_page)
      (cache (onMutate useSubscriptions.useCreateSubscription gold client2).2)
    = getQueryData (useSubscriptions.useSubscriptions_key second_page)
        (cancelQueries useSubscriptions.filterKey (cache client2)).
Proof.
  split; [vm_compute; reflexivity|]. split; [discriminate|].
  destruct (createSubscription_patches_default_list_only client2 gold second_page
              (mkPage [] 0 1 10)) as (_ & H & _);
    [vm_compute; reflexivity|discriminate|exact H].
Defined.

(** The page of [useSubscriptions({ page: 2 })] is not patched, yet it
    does change when the mutation begins: the cancelled fetch takes the
    written page away. *)
Example createSubscription_reverts_other_page :
  getQueryData (useSubscriptions.useSubscriptions_key second_page) (cache client2)
  = Some (SubscriptionsPage (mkPage [gold] 1 2 10))
  ∧ getQueryData (useSubscriptions.useSubscriptions_key second_page)
      (cache (onMutate useSubscriptions.useCreateSubscription gold client2).2)
    = Some (SubscriptionsPage (mkPage [] 0 2 10)).
Proof. split; vm_compute; reflexivity. Qed.

(** * Properties of the payment form *)

Lemma list_ascii_of_string_app (a b : string) :
  String.list_ascii_of_string (a +:+ b)
  = String.list_ascii_of_string a ++ String.list_ascii_of_string b.
Proof. induction a as [|c a IH]; cbn; [done|]. by rewrite <- IH. Qed.

Lemma luhn_loop_None (chars : list Ascii.ascii) (b : bool) :
  paymentForm.luhn_loop chars b None = None.
Proof. revert b. induction chars as [|c l IH]; intros b; cbn; [done|apply IH]. Qed.

Lemma luhn_loop_app (l1 l2 : list Ascii.ascii) (b : bool) (sum : option nat) :
  paymentForm.luhn_loop (l1 ++ l2) b sum
  = paymentForm.luhn_loop l2 (if Nat.even (length l1) then b else negb b)
      (paymentForm.luhn_loop l1 b sum).
Proof.
  revert b sum. induction l1 as [|c l1 IH]; intros b sum; [done|].
  cbn [app paymentForm.luhn_loop length]. rewrite IH, Nat.even_succ, <- Nat.negb_even.
  by destruct (Nat.even (length l1)), b.
Qed.

Lemma luhn_loop_shift (l : list Ascii.ascii) (b : bool) (s x : nat) :
  paymentForm.luhn_loop l b (Some (s + x)%nat)
  = (λ n, (n + x)%nat) <$> paymentForm.luhn_loop l b (Some s).
Proof.
  revert b s. induction l as [|c l IH]; intros b s; [done|].
  cbn [paymentForm.luhn_loop].
  destruct (paymentForm.weigh b (paymentForm.parseInt c)) as [d|].
  - replace (s + x + d)%nat with (s + d + x)%nat by lia. apply IH.
  - by rewrite luhn_loop_None.
Qed.

Lemma luhn_loop_digits (l : list Ascii.ascii) (b : bool) (s n : nat) :
  paymentForm.luhn_loop l b (Some s) = Some n →
  Forall (λ c, is_Some (paymentForm.parseInt c)) l.
Proof.
  revert b s. induction l as [|c l IH]; intros b s; [by constructor|].
  cbn [paymentForm.luhn_loop]. destruct (paymentForm.parseInt c) as [d|] eqn:Hd.
  - intros H. constructor; [eauto|].
    destruct (paymentForm.weigh b (Some d)) as [x|]; [by eapply IH|].
    by rewrite luhn_loop_None in H.
  - destruct b; cbn; by rewrite luhn_loop_None.
Qed.

Lemma parseInt_bound (c : Ascii.ascii) (d : nat) :
  paymentForm.parseInt c = Some d → (d ≤ 9)%nat.
Proof. unfold paymentForm.parseInt. case_bool_decide; intros [= <-]; lia. Qed.

Lemma parseInt_inj (c c' : Ascii.ascii) (d : nat) :
  paymentForm.parseInt c = Some d → paymentForm.parseInt c' = Some d → c = c'.
Proof.
  unfold paymentForm.parseInt.
  case_bool_decide as Ha; [|done]. case_bool_decide as Hb; [|done].
  intros [= <-] [= Heq].
  rewrite <- (Ascii.ascii_nat_embedding c), <- (Ascii.ascii_nat_embedding c').
  f_equal. lia.
Qed.

(** The weight of a digit: what the loop adds to the sum. *)
Lemma weigh_digit (b : bool) (d : nat) :
  (d ≤ 9)%nat →
  ∃ x, paymentForm.weigh b (Some d) = Some x ∧ (x ≤ 9)%nat
       ∧ ∀ d' x', (d' ≤ 9)%nat → paymentForm.weigh b (Some d') = Some x' →
                  x = x' → d = d'.
Proof.
  intros Hd. destruct b; cbn.
  - eexists. split; [reflexivity|]. split; [case_bool_decide; lia|].
    intros d' x' Hd' [= <-]. repeat case_bool_decide; lia.
  - exists d. split; [done|]. split; [done|]. intros d' x' _ [= <-]. done.
Qed.

(** X24.  A string that passes [luhnCheck] consists of decimal digits
    only. *)
Theorem luhnCheck_digits_only (num : string) :
  paymentForm.luhnCheck num = true →
  Forall (λ c, is_Some (paymentForm.parseInt c)) (String.list_ascii_of_string num).
Proof.
  unfold paymentForm.luhnCheck.
  destruct (paymentForm.luhn_loop _ false (Some 0%nat)) as [n|] eqn:Hn; [|done].
  intros _. apply luhn_loop_digits in Hn. apply Forall_rev in Hn.
  by rewrite rev_involutive in Hn.
Qed.

Lemma luhnCheck_digits_only_witness :
  paymentForm.luhnCheck "4111111111111111" = true
  ∧ Forall (λ c, is_Some (paymentForm.parseInt c))
      (String.list_ascii_of_string "4111111111111111").
Proof.
  split; [vm_compute; reflexivity|].
  apply (luhnCheck_digits_only "4111111111111111"). vm_compute. reflexivity.
Defined.

Lemma luhn_sum_split (pre post : string) (c : Ascii.ascii) (n : nat) :
  paymentForm.luhn_loop
    (rev (String.list_ascii_of_string (pre +:+ String c post))) false (Some 0%nat)
  = Some n →
  ∃ (b : bool) (rest d x : nat),
    paymentForm.parseInt c = Some d ∧ paymentForm.weigh b (Some d) = Some x
    ∧ n = (rest + x)%nat
    ∧ ∀ c' d' x', paymentForm.parseInt c' = Some d' →
        paymentForm.weigh b (Some d') = Some x' →
        paymentForm.luhn_loop
          (rev (String.list_ascii_of_string (pre +:+ String c' post))) false
          (Some 0%nat)
        = Some (rest + x')%nat.
Proof.
  rewrite list_ascii_of_string_app. cbn [String.list_ascii_of_string].
  rewrite rev_app_distr. cbn [rev]. rewrite <- app_assoc. cbn [app].
  rewrite luhn_loop_app.
  set (b := if Nat.even (length (rev (String.list_ascii_of_string post)))
            then false else negb false).
  destruct (paymentForm.luhn_loop (rev (String.list_ascii_of_string post)) false
              (Some 0%nat)) as [s1|] eqn:H1; [|by rewrite luhn_loop_None].
  cbn [paymentForm.luhn_loop].
  destruct (paymentForm.parseInt c) as [d|] eqn:Hd;
    [|destruct b; cbn; by rewrite luhn_loop_None].
  destruct (paymentForm.weigh b (Some d)) as [x|] eqn:Hx; [|by rewrite luhn_loop_None].
  rewrite luhn_loop_shift.
  destruct (paymentForm.luhn_loop (rev (String.list_ascii_of_string pre)) (negb b)
              (Some s1)) as [rest|] eqn:H2; [|done].
  cbn. intros [= <-]. exists b, rest, d, x. repeat split; [done..|].
  intros c' d' x' Hd' Hx'.
  rewrite list_ascii_of_string_app. cbn [String.list_ascii_of_string].
  rewrite rev_app_distr. cbn [rev]. rewrite <- app_assoc. cbn [app].
  rewrite luhn_loop_app. fold b. rewrite H1. cbn [paymentForm.luhn_loop].
  rewrite Hd', Hx', luhn_loop_shift, H2. done.
Qed.

(** X25.  [luhnCheck] detects every single wrong digit: replacing one
    character of a passing number by a different digit gives a number
    that fails. *)
Theorem luhnCheck_detects_one_wrong_digit (pre post : string) (c c' : Ascii.ascii) :
  is_Some (paymentForm.parseInt c') → c ≠ c' →
  paymentForm.luhnCheck (pre +:+ String c post) = true →
  paymentForm.luhnCheck (pre +:+ String c' post) = false.
Proof.
  intros [d' Hd'] Hne. unfold paymentForm.luhnCheck.
  destruct (paymentForm.luhn_loop
              (rev (String.list_ascii_of_string (pre +:+ String c post))) false
              (Some 0%nat)) as [n|] eqn:Hn; [|done].
  destruct (luhn_sum_split pre post c n Hn) as (b & rest & d & x & Hd & Hx & -> & Hsub).
  destruct (weigh_digit b d' (parseInt_bound _ _ Hd')) as (x' & Hx' & Hb' & _).
  destruct (weigh_digit b d (parseInt_bound _ _ Hd)) as (x0 & Hx0 & Hb & Hinj).
  rewrite Hx in Hx0. injection Hx0 as <-.
  rewrite (Hsub c' d' x' Hd' Hx').
  intros H%bool_decide_eq_true. apply bool_decide_eq_false. intros H'.
  assert (x = x').
  { apply Nat.Div0.mod_divides in H as [q Hq]. apply Nat.Div0.mod_divides in H' as [q' Hq'].
    lia. }
  apply Hne. apply (parseInt_inj c c' d); [done|].
  rewrite Hd'. f_equal. symmetry.
  apply (Hinj d' x'); [by eapply parseInt_bound|done|done].
Qed.

Lemma luhnCheck_detects_one_wrong_digit_witness :
  is_Some (paymentForm.parseInt (digit_char 7)) ∧ (digit_char 1) ≠ (digit_char 7)
  ∧ paymentForm.luhnCheck ("411111" +:+ String (digit_char 1) "111111111") = true
  ∧ paymentForm.luhnCheck ("411111" +:+ String (digit_char 7) "111111111") = false.
Proof.
  split; [vm_compute; eauto|]. split; [discriminate|].
  split; [vm_compute; reflexivity|].
  apply (luhnCheck_detects_one_wrong_digit "411111" "111111111" (digit_char 1) (digit_char 7));
    [vm_compute; eauto|discriminate|vm_compute; reflexivity].
Defined.

Lemma luhn_loop_09_90 (pre post : string) :
  paymentForm.luhn_loop (rev (String.list_ascii_of_string (pre +:+ "09" +:+ post)))
    false (Some 0%nat)
  = paymentForm.luhn_loop (rev (String.list_ascii_of_string (pre +:+ "90" +:+ post)))
      false (Some 0%nat).
Proof.
  rewrite !list_ascii_of_string_app. cbn [String.list_ascii_of_string app].
  rewrite !rev_app_distr. cbn [rev app]. rewrite <- !app_assoc. cbn [app].
  rewrite !luhn_loop_app.
  destruct (paymentForm.luhn_loop (rev (String.list_ascii_of_string post)) false
              (Some 0%nat)) as [s1|]; [|by rewrite !luhn_loop_None].
  assert (H0 : paymentForm.parseInt (digit_char 0) = Some 0%nat) by reflexivity.
  assert (H9 : paymentForm.parseInt (digit_char 9) = Some 9%nat) by reflexivity.
  change (Ascii.Ascii false false false false true true false false)
    with (digit_char 0).
  change (Ascii.Ascii true false false true true true false false)
    with (digit_char 9).
  destruct (Nat.even _); cbn [paymentForm.luhn_loop negb]; rewrite H0, H9;
    cbn [paymentForm.weigh fmap option_fmap option_map];
    repeat case_bool_decide; do 2 f_equal; lia.
Qed.

(** X26.  [luhnCheck] does not tell an adjacent 09 from 90: exchanging
    the two digits anywhere in a number leaves its verdict unchanged. *)
Theorem luhnCheck_misses_09_90_swap (pre post : string) :
  paymentForm.luhnCheck (pre +:+ "09" +:+ post)
  = paymentForm.luhnCheck (pre +:+ "90" +:+ post).
Proof. unfold paymentForm.luhnCheck. by rewrite luhn_loop_09_90. Qed.

Example luhnCheck_accepts_swapped_number :
  paymentForm.isCardNumberValid "4111111111111095" = true
  ∧ paymentForm.isCardNumberValid "4111111111111905" = true.
Proof. split; vm_compute; reflexivity. Qed.

(** X27.  The message the payment form shows for a failed submission is
    never empty: it is the detail of the error, else its title, else
    "Payment failed", an empty detail or title being passed over. *)
Theorem errorMessage_not_empty (err : ProblemDetails) :
  paymentForm.errorMessage err ≠ ""
  ∧ (paymentForm.errorMessage err = "Payment failed"
     ∨ Some (paymentForm.errorMessage err) = pd_detail err
     ∨ Some (paymentForm.errorMessage err) = pd_title err).
Proof.
  unfold paymentForm.errorMessage, truthy.
  destruct (pd_detail err) as [d|], (pd_title err) as [t|];
    repeat case_decide; split; (done || tauto || eauto).
Qed.
